(** * Chunking and extractive summarisation of the research assistant

    A shallow embedding of [app/core/chunking.py], [app/core/summarization.py]
    and of the [DocumentChunk] model of [app/models/schemas.py], followed by
    the properties of the segmentation, chunking and selection core.

    Conventions of the embedding:
    - a Python [str] is a list of characters; a character is a code point of
      the Latin-1 range, with Python's Unicode classification of it;
    - a Python [int] is a [Z];
    - a raised exception is the [Raise] outcome of a [result];
    - a [while] loop runs on fuel, and running out of fuel is the outcome
      [None], kept apart from both returning and raising. *)

From Stdlib Require Import List ZArith Lia Bool Ascii String Arith.
From Stdlib Require Import Permutation Sorted QArith.
Import ListNotations.

Open Scope Z_scope.

(** ** Python values *)

Abbreviation str := (list ascii).

(** A string literal as a Python [str]. *)
Definition lit (x : string) : str := list_ascii_of_string x.

Definition len {A : Type} (l : list A) : Z := Z.of_nat (List.length l).

Inductive exn : Type :=
| ValueError (msg : string)
| ValidationError (field : string)
| IndexError.

Inductive result (A : Type) : Type :=
| Ok (a : A)
| Raise (e : exn).

Arguments Ok {A} a.
Arguments Raise {A} e.

Definition bind {A B : Type} (m : result A) (k : A -> result B) : result B :=
  match m with
  | Ok a => k a
  | Raise e => Raise e
  end.

Notation "x <- m ;; k" := (bind m (fun x => k))
  (at level 61, m at next level, right associativity).

(** [for x in xs: st = body(st, x)] where the body may raise. *)
Fixpoint for_each {A St : Type} (body : St -> A -> result St)
    (xs : list A) (st : St) : result St :=
  match xs with
  | [] => Ok st
  | x :: rest => st' <- body st x ;; for_each body rest st'
  end.

(** ** Character classes and string methods *)

Module Py.

Definition code (c : ascii) : nat := nat_of_ascii c.

Definition between (lo hi n : nat) : bool :=
  (Nat.leb lo n && Nat.leb n hi)%bool.

(** [str.isspace] on one character, which is also what [\s] matches. *)
Definition is_space (c : ascii) : bool :=
  let n := code c in
  (between 9 13 n || between 28 32 n || Nat.eqb n 133 || Nat.eqb n 160)%bool.

(** The class [[A-Z]]. *)
Definition is_AZ (c : ascii) : bool := between 65 90 (code c).

(** The class [[a-z]]. *)
Definition is_az (c : ascii) : bool := between 97 122 (code c).

(** The class [\w]: alphanumeric in the Unicode sense, or the underscore. *)
Definition is_word (c : ascii) : bool :=
  let n := code c in
  (between 48 57 n || between 65 90 n || between 97 122 n || Nat.eqb n 95
   || Nat.eqb n 170 || between 178 179 n || Nat.eqb n 181
   || between 185 186 n || between 188 190 n
   || between 192 214 n || between 216 246 n || between 248 255 n)%bool.

(** The class [[.!?]]. *)
Definition is_end_punct (c : ascii) : bool :=
  (Ascii.eqb c "." || Ascii.eqb c "!" || Ascii.eqb c "?")%bool.

Definition is_newline (c : ascii) : bool := Nat.eqb (code c) 10.

Fixpoint lstrip (t : str) : str :=
  match t with
  | [] => []
  | c :: rest => if is_space c then lstrip rest else t
  end.

Definition rstrip (t : str) : str := rev (lstrip (rev t)).

Definition strip (t : str) : str := rstrip (lstrip t).

(** Truth value of a string: non-empty. *)
Definition truthy {A : Type} (l : list A) : bool :=
  match l with [] => false | _ :: _ => true end.

(** [sep.join(parts)]. *)
Fixpoint join (sep : str) (parts : list str) : str :=
  match parts with
  | [] => []
  | [p] => p
  | p :: rest => p ++ sep ++ join sep rest
  end.

Fixpoint starts_with (pre t : str) : bool :=
  match pre, t with
  | [], _ => true
  | _ :: _, [] => false
  | a :: pre', b :: t' => (Ascii.eqb a b && starts_with pre' t')%bool
  end.

(** [t.split(sep)] for a non-empty [sep]: [skip] counts the characters of a
    separator just matched that are still to be passed over, [piece] is the
    current piece, last character first. *)
Fixpoint split_from (sep : str) (skip : nat) (piece : str) (t : str)
    : list str :=
  match t with
  | [] => [rev piece]
  | c :: rest =>
      match skip with
      | S k => split_from sep k piece rest
      | O =>
          if starts_with sep t
          then rev piece :: split_from sep (pred (List.length sep)) [] rest
          else split_from sep O (c :: piece) rest
      end
  end.

Definition split (sep : str) (t : str) : list str := split_from sep O [] t.

(** Slice bounds: a negative bound counts from the end, and both are
    clamped to the sequence. *)
Definition clamp (n : Z) (i : Z) : Z :=
  let j := if i <? 0 then i + n else i in
  if j <? 0 then 0 else if n <? j then n else j.

(** [l[start:stop]]. *)
Definition slice {A : Type} (l : list A) (start stop : Z) : list A :=
  let a := clamp (len l) start in
  let b := clamp (len l) stop in
  firstn (Z.to_nat (b - a)) (skipn (Z.to_nat a) l).

(** [re.sub(r'\s+', ' ', t)]: [in_run] says that the previous character was
    whitespace, already replaced. *)
Fixpoint collapse_ws (in_run : bool) (t : str) : str :=
  match t with
  | [] => []
  | c :: rest =>
      if is_space c
      then if in_run then collapse_ws true rest
           else " "%char :: collapse_ws true rest
      else c :: collapse_ws false rest
  end.

(** [re.sub(r'([.!?])([A-Z])', r'\1 \2', t)]. *)
Fixpoint space_after_end (t : str) : str :=
  match t with
  | [] => []
  | c :: rest =>
      match rest with
      | d :: rest' =>
          if (is_end_punct c && is_AZ d)%bool
          then c :: " "%char :: d :: space_after_end rest'
          else c :: space_after_end rest
      | [] => [c]
      end
  end.

(** The sentence pattern
    [(?<!\w\.\w.)(?<![A-Z][a-z]\.)(?<=\.|\?|\!)\s].
    [before] is the text to the left of the position, nearest character
    first. *)
Definition behind_initials (before : str) : bool :=
  match before with
  | c1 :: c2 :: c3 :: c4 :: _ =>
      (is_word c4 && Ascii.eqb c3 "." && is_word c2
       && negb (is_newline c1))%bool
  | _ => false
  end.

Definition behind_title (before : str) : bool :=
  match before with
  | c1 :: c2 :: c3 :: _ => (is_AZ c3 && is_az c2 && Ascii.eqb c1 ".")%bool
  | _ => false
  end.

Definition behind_end (before : str) : bool :=
  match before with
  | c1 :: _ => is_end_punct c1
  | [] => false
  end.

Definition sentence_boundary (before : str) (c : ascii) : bool :=
  (negb (behind_initials before) && negb (behind_title before)
   && behind_end before && is_space c)%bool.

(** [sentence_pattern.split(t)]: every boundary character is dropped and
    ends a piece. *)
Fixpoint pattern_split (before piece : str) (t : str) : list str :=
  match t with
  | [] => [rev piece]
  | c :: rest =>
      if sentence_boundary before c
      then rev piece :: pattern_split (c :: before) [] rest
      else pattern_split (c :: before) (c :: piece) rest
  end.

Definition sentence_pattern_split (t : str) : list str :=
  pattern_split [] [] t.

(** [[p.strip() for p in pieces if p.strip()]]. *)
Definition strip_nonblank (pieces : list str) : list str :=
  map strip (filter (fun p => truthy (strip p)) pieces).

End Py.

(** ** The chunk model of [app/models/schemas.py]

    [chunk_id] is a fresh random identifier and is left out. *)

Record DocumentChunk : Type := {
  document_id : str;
  chunk_index : Z;
  text : str;
  start_char : Z;
  end_char : Z
}.

(** The constructor with the field constraints ([ge], [min_length]) and the
    validator [validate_char_range]. *)
Definition new_DocumentChunk
    (document_id : str) (chunk_index : Z) (text : str)
    (start_char end_char : Z) : result DocumentChunk :=
  if negb (0 <=? chunk_index) then Raise (ValidationError "chunk_index")
  else if negb (1 <=? len text) then Raise (ValidationError "text")
  else if negb (0 <=? start_char) then Raise (ValidationError "start_char")
  else if negb (1 <=? end_char) then Raise (ValidationError "end_char")
  else if end_char <=? start_char then Raise (ValidationError "end_char")
  else Ok {| document_id := document_id; chunk_index := chunk_index;
             text := text; start_char := start_char; end_char := end_char |}.

(** ** [SemanticChunker] *)

Module SemanticChunker.

Record t : Type := { chunk_size : Z; overlap : Z }.

Definition init (chunk_size overlap : Z) : result t :=
  if overlap >=? chunk_size
  then Raise (ValueError "Overlap must be smaller than chunk_size")
  else Ok {| chunk_size := chunk_size; overlap := overlap |}.

Definition _normalize_text (text : str) : str :=
  Py.strip (Py.space_after_end (Py.collapse_ws false text)).

(** The backwards scan of [_get_overlap_text]; [sentences] come last
    first, and the scan stops at the first one that does not fit. *)
Fixpoint overlap_scan (self : t) (reversed : list str)
    (overlap_sentences : list str) (overlap_length : Z) : list str :=
  match reversed with
  | [] => overlap_sentences
  | sentence :: rest =>
      let sentence_length := len sentence + 1 in
      if overlap_length + sentence_length >? overlap self
      then overlap_sentences
      else overlap_scan self rest (sentence :: overlap_sentences)
             (overlap_length + sentence_length)
  end.

Definition _get_overlap_text (self : t) (sentences : list str) : str :=
  Py.join (lit " ") (overlap_scan self (rev sentences) [] 0).

(** The local variables of [chunk_text] that the loop updates. *)
Record locals : Type := {
  chunks : list DocumentChunk;
  current_chunk : list str;
  current_length : Z;
  chunk_index : Z;
  start_char : Z
}.

Definition initial : locals :=
  {| chunks := []; current_chunk := []; current_length := 0;
     chunk_index := 0; start_char := 0 |}.

(** The [if] at the top of the loop body: close the current chunk and seed
    the next one with the overlap. *)
Definition finalize (self : t) (document_id : str) (st : locals)
    : result locals :=
  let chunk_text := Py.join (lit " ") (current_chunk st) in
  let end_char := start_char st + len chunk_text in
  c <- new_DocumentChunk document_id (chunk_index st) chunk_text
         (start_char st) end_char ;;
  let overlap_text := _get_overlap_text self (current_chunk st) in
  Ok {| chunks := chunks st ++ [c];
        current_chunk :=
          filter (fun p => Py.truthy (Py.strip p))
                 (Py.split (lit ". ") overlap_text);
        current_length := len overlap_text;
        chunk_index := chunk_index st + 1;
        start_char := end_char - len overlap_text |}.

Definition body (self : t) (document_id : str) (st : locals) (sentence : str)
    : result locals :=
  let sentence_length := len sentence in
  st1 <- (if (Py.truthy (current_chunk st)
              && (current_length st + sentence_length >? chunk_size self))%bool
          then finalize self document_id st
          else Ok st) ;;
  Ok {| chunks := chunks st1;
        current_chunk := current_chunk st1 ++ [sentence];
        current_length := current_length st1 + (sentence_length + 1);
        chunk_index := chunk_index st1;
        start_char := start_char st1 |}.

(** The sentence list [chunk_text] iterates over. *)
Definition sentences_of (text : str) : list str :=
  let text := _normalize_text text in
  let sentences := Py.strip_nonblank (Py.sentence_pattern_split text) in
  if Py.truthy sentences then sentences else [text].

Definition chunk_text (self : t) (text : str) (document_id : str)
    : result (list DocumentChunk) :=
  if (negb (Py.truthy text) || negb (Py.truthy (Py.strip text)))%bool
  then Raise (ValueError "Cannot chunk empty text")
  else
    st <- for_each (body self document_id) (sentences_of text) initial ;;
    if Py.truthy (current_chunk st)
    then
      let chunk_text := Py.join (lit " ") (current_chunk st) in
      let end_char := start_char st + len chunk_text in
      c <- new_DocumentChunk document_id (chunk_index st) chunk_text
             (start_char st) end_char ;;
      Ok (chunks st ++ [c])
    else Ok (chunks st).

End SemanticChunker.

(** ** [FixedSizeChunker] *)

Module FixedSizeChunker.

Record t : Type := { chunk_size : Z; overlap : Z }.

(** The constructor stores its arguments. *)
Definition init (chunk_size overlap : Z) : result t :=
  Ok {| chunk_size := chunk_size; overlap := overlap |}.

(** The [while start < len(text)] loop; [None] when the fuel runs out. *)
Fixpoint loop (fuel : nat) (self : t) (text document_id : str)
    (start chunk_index : Z) (chunks : list DocumentChunk)
    : option (result (list DocumentChunk)) :=
  if start <? len text then
    match fuel with
    | O => None
    | S fuel' =>
        let end_ := start + chunk_size self in
        let chunk_text := Py.slice text start end_ in
        match new_DocumentChunk document_id chunk_index chunk_text start
                end_ with
        | Raise e => Some (Raise e)
        | Ok c =>
            loop fuel' self text document_id
              (start + (chunk_size self - overlap self))
              (chunk_index + 1) (chunks ++ [c])
        end
    end
  else Some (Ok chunks).

Definition chunk_text (fuel : nat) (self : t) (text document_id : str)
    : option (result (list DocumentChunk)) :=
  if (negb (Py.truthy text) || negb (Py.truthy (Py.strip text)))%bool
  then Some (Raise (ValueError "Cannot chunk empty text"))
  else loop fuel self (Py.strip text) document_id 0 0 [].

End FixedSizeChunker.

(** ** Numbers of the summariser

    Relevance scores and similarities are floating-point numbers computed by
    numpy and scikit-learn from embeddings that an external model supplies.
    The selection only compares them, so the embedding takes them through an
    interface: the scalars with their [>] test, the two arithmetic
    expressions the code evaluates, and the rows with their cosine
    similarity.  Scalars are finite (scikit-learn rejects NaN and infinity),
    so [>] is a strict weak order. *)

Class Numeric : Type := {
  float : Type;
  gt : float -> float -> bool;
  minus_one : float;
  combined : float -> float -> float;
  vector : Type;
  cosine : vector -> vector -> float
}.

Class FiniteOrder (N : Numeric) : Prop := {
  gt_irrefl : forall x, gt x x = false;
  gt_trans : forall x y z, gt x y = true -> gt y z = true -> gt x z = true;
  gt_incomparable :
    forall x y z, gt x y = false -> gt y z = false -> gt x z = false
}.

(** Exact rationals as scalars, and rational unit vectors as rows, whose
    cosine similarity is their dot product. *)
Fixpoint dot (u v : list Q) : Q :=
  match u, v with
  | a :: u', b :: v' => (a * b + dot u' v')%Q
  | _, _ => 0%Q
  end.

Definition Qgt_bool (a b : Q) : bool := negb (Qle_bool a b).

#[export] Instance rational : Numeric := {|
  float := Q;
  gt := Qgt_bool;
  minus_one := (-1)%Q;
  combined := fun relevance max_similarity =>
                (relevance - (3 # 10) * max_similarity)%Q;
  vector := list Q;
  cosine := dot
|}.

(** ** Generic list operations of the summariser *)

Fixpoint map_result {A B : Type} (f : A -> result B) (l : list A)
    : result (list B) :=
  match l with
  | [] => Ok []
  | x :: rest => y <- f x ;; ys <- map_result f rest ;; Ok (y :: ys)
  end.

(** [l[i]] for [i >= 0]. *)
Definition item {A : Type} (l : list A) (i : nat) : result A :=
  match nth_error l i with
  | Some a => Ok a
  | None => Raise IndexError
  end.

(** [l.remove(x)]: the first occurrence goes. *)
Fixpoint list_remove (x : nat) (l : list nat) : result (list nat) :=
  match l with
  | [] => Raise (ValueError "list.remove(x): x not in list")
  | y :: rest =>
      if Nat.eqb x y then Ok rest
      else rest' <- list_remove x rest ;; Ok (y :: rest')
  end.

Definition enumerate {A : Type} (l : list A) : list (nat * A) :=
  combine (seq 0 (List.length l)) l.

(** [sorted(l, key=...)] on elements that carry their key: a stable
    insertion sort. *)
Definition key_le (a b : nat * nat) : bool :=
  (Nat.ltb (fst a) (fst b)
   || (Nat.eqb (fst a) (fst b) && Nat.leb (snd a) (snd b)))%bool.

Fixpoint insert_by_key {A : Type} (x : (nat * nat) * A)
    (l : list ((nat * nat) * A)) : list ((nat * nat) * A) :=
  match l with
  | [] => [x]
  | y :: rest =>
      if key_le (fst x) (fst y) then x :: l else y :: insert_by_key x rest
  end.

Fixpoint sorted_by_key {A : Type} (l : list ((nat * nat) * A))
    : list ((nat * nat) * A) :=
  match l with
  | [] => []
  | x :: rest => insert_by_key x (sorted_by_key rest)
  end.

(** ** [ExtractiveSummarizer] *)

(** What a call asks of the embedding provider, in order, and what it does
    with each answer. *)
Inductive asking (V A : Type) : Type :=
| Return (a : A)
| EmbedText (text : str) (k : result V -> asking V A)
| EmbedBatch (texts : list str) (k : result (list V) -> asking V A).

Arguments Return {V A} a.
Arguments EmbedText {V A} text k.
Arguments EmbedBatch {V A} texts k.

(** Running a call against a provider. *)
Fixpoint answer {V A : Type} (embed_text : str -> result V)
    (embed_batch : list str -> result (list V)) (c : asking V A) : A :=
  match c with
  | Return a => a
  | EmbedText text k => answer embed_text embed_batch (k (embed_text text))
  | EmbedBatch texts k =>
      answer embed_text embed_batch (k (embed_batch texts))
  end.

Module ExtractiveSummarizer.
Section WithNumbers.

Context {N : Numeric}.

Record t : Type := { max_sentences : Z; diversity_threshold : float }.

Record source : Type := { s_text : str; chunk_idx : nat; sent_idx : nat }.

Definition no_content : str := lit "No relevant content found.".

Definition no_sentences : str :=
  lit "No suitable sentences found for summarization.".

Definition _extract_sentences (text : str) : list str :=
  Py.strip_nonblank (Py.sentence_pattern_split text).

(** The sentences of all texts that are longer than 20 characters, each
    with the position it comes from. *)
Definition sentences_with_source (retrieved_texts : list str)
    : list source :=
  flat_map
    (fun ct =>
       flat_map
         (fun ss =>
            if 20 <? len (Py.strip (snd ss))
            then [{| s_text := snd ss; chunk_idx := fst ct;
                     sent_idx := fst ss |}]
            else [])
         (enumerate (_extract_sentences (snd ct))))
    (enumerate retrieved_texts).

(** [np.argmax]: the first index of the largest element. *)
Fixpoint argmax_from (best_idx : nat) (best : float) (i : nat)
    (l : list float) : nat :=
  match l with
  | [] => best_idx
  | x :: rest =>
      if gt x best then argmax_from i x (S i) rest
      else argmax_from best_idx best (S i) rest
  end.

Definition np_argmax (l : list float) : result nat :=
  match l with
  | [] => Raise (ValueError "attempt to get argmax of an empty sequence")
  | x :: rest => Ok (argmax_from 0%nat x 1%nat rest)
  end.

(** [np.max]. *)
Definition np_max (l : list float) : result float :=
  match l with
  | [] => Raise (ValueError "zero-size array to reduction operation")
  | x :: rest => Ok (fold_left (fun m y => if gt y m then y else m) rest x)
  end.

(** The largest similarity of candidate [idx] to the selected rows. *)
Definition max_similarity (embeddings : list vector) (selected : list nat)
    (idx : nat) : result float :=
  selected_embeddings <- map_result (item embeddings) selected ;;
  e <- item embeddings idx ;;
  np_max (map (cosine e) selected_embeddings).

(** The body of [for idx in remaining], on [(best_score, best_idx)]. *)
Definition scan (self : t) (scores : list float)
    (embeddings : list vector) (selected : list nat)
    (best : float * option nat) (idx : nat) : result (float * option nat) :=
  relevance <- item scores idx ;;
  max_sim <- max_similarity embeddings selected idx ;;
  if gt max_sim (diversity_threshold self) then Ok best
  else
    let combined_score := combined relevance max_sim in
    if gt combined_score (fst best) then Ok (combined_score, Some idx)
    else Ok best.

(** [max(remaining, key=lambda i: scores[i])]: the first largest. *)
Fixpoint max_by_from (scores : list float) (best : nat) (best_key : float)
    (rest : list nat) : result nat :=
  match rest with
  | [] => Ok best
  | i :: rest' =>
      k <- item scores i ;;
      if gt k best_key then max_by_from scores i k rest'
      else max_by_from scores best best_key rest'
  end.

Definition max_by_score (scores : list float) (remaining : list nat)
    : result nat :=
  match remaining with
  | [] => Raise (ValueError "max() arg is an empty sequence")
  | i :: rest => k <- item scores i ;; max_by_from scores i k rest
  end.

(** One round of the [while] loop, on [(selected, remaining)]. *)
Definition round (self : t) (scores : list float)
    (embeddings : list vector) (selected remaining : list nat)
    : result (list nat * list nat) :=
  best <- for_each (scan self scores embeddings selected) remaining
            (minus_one, None) ;;
  match snd best with
  | Some best_idx =>
      remaining' <- list_remove best_idx remaining ;;
      Ok (selected ++ [best_idx], remaining')
  | None =>
      if Py.truthy remaining then
        best_idx <- max_by_score scores remaining ;;
        remaining' <- list_remove best_idx remaining ;;
        Ok (selected ++ [best_idx], remaining')
      else Ok (selected, remaining)
  end.

Fixpoint select_loop (fuel : nat) (self : t) (scores : list float)
    (embeddings : list vector) (max_sentences : Z)
    (selected remaining : list nat) : option (result (list nat)) :=
  if ((len selected <? max_sentences) && Py.truthy remaining)%bool then
    match fuel with
    | O => None
    | S fuel' =>
        match round self scores embeddings selected remaining with
        | Raise e => Some (Raise e)
        | Ok (selected', remaining') =>
            select_loop fuel' self scores embeddings max_sentences
              selected' remaining'
        end
    end
  else Some (Ok selected).

Definition _select_diverse_sentences (fuel : nat) (self : t)
    (scores : list float) (embeddings : list vector) (max_sentences : Z)
    : option (result (list nat)) :=
  match
    (best_idx <- np_argmax scores ;;
     remaining <- list_remove best_idx (seq 0 (List.length scores)) ;;
     Ok (best_idx, remaining))
  with
  | Raise e => Some (Raise e)
  | Ok (best_idx, remaining) =>
      select_loop fuel self scores embeddings max_sentences
        [best_idx] remaining
  end.

(** The end of [summarize]: order the selection by source position and
    join the sentences. *)
Definition assemble (sentences : list source) (selected_indices : list nat)
    : result str :=
  keyed <- map_result
             (fun i => e <- item sentences i ;;
                       Ok ((chunk_idx e, sent_idx e), i))
             selected_indices ;;
  let selected_indices := map snd (sorted_by_key keyed) in
  summary_sentences <- map_result
                         (fun i => e <- item sentences i ;; Ok (s_text e))
                         selected_indices ;;
  Ok (Py.join (lit " ") summary_sentences).

Definition rank_and_assemble (fuel : nat) (self : t)
    (sentences : list source) (query_embedding : vector)
    (sentence_embeddings : list vector) (max_sentences : Z)
    : option (result str) :=
  let scores :=
    map (fun e => cosine e query_embedding) sentence_embeddings in
  match _select_diverse_sentences fuel self scores sentence_embeddings
          max_sentences with
  | None => None
  | Some (Raise e) => Some (Raise e)
  | Some (Ok selected_indices) =>
      Some (assemble sentences selected_indices)
  end.

Definition summarize (fuel : nat) (self : t) (query : str)
    (retrieved_texts : list str) (max_sentences_arg : option Z)
    : asking vector (option (result str)) :=
  let max_sentences :=
    match max_sentences_arg with
    | None | Some 0 => max_sentences self
    | Some m => m
    end in
  if negb (Py.truthy retrieved_texts) then Return (Some (Ok no_content))
  else
    let sentences := sentences_with_source retrieved_texts in
    if negb (Py.truthy sentences) then Return (Some (Ok no_sentences))
    else
      let fallback :=
        Py.join (lit " ")
          (map s_text (Py.slice sentences 0 max_sentences)) in
      EmbedText query (fun r1 =>
        match r1 with
        | Raise _ => Return (Some (Ok fallback))
        | Ok query_embedding =>
            EmbedBatch (map s_text sentences) (fun r2 =>
              match r2 with
              | Raise _ => Return (Some (Ok fallback))
              | Ok sentence_embeddings =>
                  Return (rank_and_assemble fuel self sentences
                            query_embedding sentence_embeddings
                            max_sentences)
              end)
        end).

End WithNumbers.
End ExtractiveSummarizer.

(** ** Inputs and vocabulary of the properties *)

(** The portions of consecutive chunks by their offsets: the first chunk
    whole, and of every later chunk what lies beyond the end offset of the
    chunk before it. *)
Fixpoint portions_from (prev_end : Z) (chunks : list DocumentChunk)
    : list str :=
  match chunks with
  | [] => []
  | c :: rest =>
      skipn (Z.to_nat (prev_end - start_char c)) (text c)
        :: portions_from (end_char c) rest
  end.

Definition portions (chunks : list DocumentChunk) : list str :=
  match chunks with
  | [] => []
  | c :: rest => text c :: portions_from (end_char c) rest
  end.

(** The portions put end to end. *)
Definition reconstruct (chunks : list DocumentChunk) : str :=
  List.concat (portions chunks).

(** The overlap text a chunk of [SemanticChunker] was seeded with, read off
    the chunk before it: [start_char] of the chunk is [end_char] of the
    chunk before it less the length of the overlap text, and the overlap
    text is the end of the text of that chunk. *)
Definition carried_text (prev c : DocumentChunk) : str :=
  skipn (List.length (text prev) - Z.to_nat (end_char prev - start_char c))
        (text prev).

(** The sentences the buffer of the chunk was seeded with,
    [[s for s in overlap_text.split('. ') if s.strip()]], and the
    carried-overlap prefix they make in the text of the chunk. *)
Definition carried_pieces (prev c : DocumentChunk) : list str :=
  filter (fun p => Py.truthy (Py.strip p))
         (Py.split (lit ". ") (carried_text prev c)).

Definition carried_prefix (prev c : DocumentChunk) : str :=
  Py.join (lit " ") (carried_pieces prev c).

(** The text of a chunk with its carried-overlap prefix removed. *)
Definition without_carry (prev c : DocumentChunk) : str :=
  skipn (List.length (carried_prefix prev c)) (text c).

Fixpoint fresh_from (prev : DocumentChunk) (rest : list DocumentChunk)
    : list str :=
  match rest with
  | [] => []
  | c :: rest' => without_carry prev c :: fresh_from c rest'
  end.

(** The first chunk whole and every later chunk without its carried-overlap
    prefix, put end to end. *)
Definition reconstruct_fresh (chunks : list DocumentChunk) : str :=
  match chunks with
  | [] => []
  | c :: rest => text c ++ List.concat (fresh_from c rest)
  end.

(** The same, with a space put before every chunk that carries nothing. *)
Definition after_space (prev c : DocumentChunk) : str :=
  if Py.truthy (carried_prefix prev c) then without_carry prev c
  else lit " " ++ text c.

Fixpoint spaced_from (prev : DocumentChunk) (rest : list DocumentChunk)
    : str :=
  match rest with
  | [] => []
  | c :: rest' => after_space prev c ++ spaced_from c rest'
  end.

Definition reconstruct_fresh_spaced (chunks : list DocumentChunk) : str :=
  match chunks with
  | [] => []
  | c :: rest => text c ++ spaced_from c rest
  end.

(** Every chunk after the first carries some overlap. *)
Fixpoint carrying_from (prev : DocumentChunk) (rest : list DocumentChunk)
    : bool :=
  match rest with
  | [] => true
  | c :: rest' =>
      (Py.truthy (carried_prefix prev c) && carrying_from c rest')%bool
  end.

Definition every_chunk_carries (chunks : list DocumentChunk) : bool :=
  match chunks with
  | [] => true
  | c :: rest => carrying_from c rest
  end.

(** Every chunk after the first begins with its carried-overlap prefix. *)
Fixpoint begins_from (prev : DocumentChunk) (rest : list DocumentChunk)
    : Prop :=
  match rest with
  | [] => True
  | c :: rest' =>
      firstn (List.length (carried_prefix prev c)) (text c)
      = carried_prefix prev c
      /\ begins_from c rest'
  end.

Definition begins_with_carry (chunks : list DocumentChunk) : Prop :=
  match chunks with
  | [] => True
  | c :: rest => begins_from c rest
  end.

Definition is_suffix (suffix t : str) : Prop := exists pre, t = pre ++ suffix.

(** The default configuration of [app/config.py]. *)
Definition default_semantic : SemanticChunker.t :=
  {| SemanticChunker.chunk_size := 512; SemanticChunker.overlap := 128 |}.

(** 77 sentences of 12 characters, 1000 characters with the spaces. *)
Definition short_sentences_1000 : str :=
  Py.join (lit " ") (repeat (lit "aaaaaaaaaaa.") 77).

(** Two sentences of 499 and 500 characters, 1000 characters with the
    space. *)
Definition two_long_sentences : str :=
  repeat "a"%char 498 ++ lit ". " ++ repeat "b"%char 499 ++ lit ".".

(** The document of the scenario of the specification. *)
Definition three_sentences : str :=
  lit "This is sentence one. This is sentence two. This is sentence three.".

Definition scenario_chunker : SemanticChunker.t :=
  {| SemanticChunker.chunk_size := 40; SemanticChunker.overlap := 10 |}.

Definition stuck_chunker : FixedSizeChunker.t :=
  {| FixedSizeChunker.chunk_size := 10; FixedSizeChunker.overlap := 10 |}.

Definition window_chunker : FixedSizeChunker.t :=
  {| FixedSizeChunker.chunk_size := 50; FixedSizeChunker.overlap := 10 |}.

Definition two_hundred_A : str := repeat "A"%char 200.

Definition q_self : @ExtractiveSummarizer.t rational :=
  {| ExtractiveSummarizer.max_sentences := 3;
     ExtractiveSummarizer.diversity_threshold := (8 # 10)%Q |}.

(** Three unit vectors in the half-plane opposite to the query [(1, 0)],
    and their relevance to it. *)
Definition far_embeddings : list (list Q) :=
  [[(-3 # 5); (4 # 5)]; [-1; 0]; [(-4 # 5); (3 # 5)]]%Q.

Definition far_scores : list Q := [(-3 # 5); -1; (-4 # 5)]%Q.

(** ** Predicates of the chunking properties *)

Definition nonempty (p : str) : Prop := p <> [].

(** A string has a character that is not whitespace. *)
Definition has_ink (t : str) : bool :=
  existsb (fun c => negb (Py.is_space c)) t.

(** What the loop records in a chunk cut from [t]. *)
Definition window_of (self : FixedSizeChunker.t) (t : str)
    (c : DocumentChunk) : Prop :=
  end_char c - start_char c = FixedSizeChunker.chunk_size self
  /\ 0 <= start_char c < len t
  /\ text c = Py.slice t (start_char c) (end_char c).

(** How a chunk and the start offset that follows it are linked: some
    sentence of the document closes the chunk, and the next start offset lies
    before the end of the chunk if that sentence fits in the overlap window,
    at the end of the chunk if it does not. *)
Definition carry_link (self : SemanticChunker.t) (all : list str)
    (c1 : DocumentChunk) (start2 : Z) : Prop :=
  exists p,
    In p all /\ is_suffix p (text c1)
    /\ start2 <= end_char c1
    /\ (len p + 1 <= SemanticChunker.overlap self -> start2 < end_char c1)
    /\ (SemanticChunker.overlap self < len p + 1 -> start2 = end_char c1).

Definition numbered (chunks : list DocumentChunk) : Prop :=
  map chunk_index chunks = map Z.of_nat (seq 0 (List.length chunks)).

Definition linked (self : SemanticChunker.t) (all : list str)
    (chunks : list DocumentChunk) : Prop :=
  forall i c1 c2,
    nth_error chunks i = Some c1 -> nth_error chunks (S i) = Some c2 ->
    carry_link self all c1 (start_char c2).

Record chunking_inv (self : SemanticChunker.t) (all : list str)
    (st : SemanticChunker.locals) : Prop := {
  inv_start : 0 <= SemanticChunker.start_char st;
  inv_buffer : Forall nonempty (SemanticChunker.current_chunk st);
  inv_index : SemanticChunker.chunk_index st = len (SemanticChunker.chunks st);
  inv_numbered : numbered (SemanticChunker.chunks st);
  inv_linked : linked self all (SemanticChunker.chunks st);
  inv_last : forall l c, SemanticChunker.chunks st = l ++ [c] ->
             carry_link self all c (SemanticChunker.start_char st)
}.

(** Between two iterations the buffer, unless empty, ends with a sentence of
    the document. *)
Definition closes_with_sentence (all : list str)
    (st : SemanticChunker.locals) : Prop :=
  SemanticChunker.current_chunk st = []
  \/ exists pre p, SemanticChunker.current_chunk st = pre ++ [p] /\ In p all.

(** ** Predicates of the selection and assembly properties *)

(** Index [i] holds the largest score, and is the lowest such index. *)
Definition first_argmax {N : Numeric} (scores : list float) (i : nat) : Prop :=
  exists x,
    nth_error scores i = Some x
    /\ (forall j y, nth_error scores j = Some y -> gt y x = false)
    /\ (forall j y, (j < i)%nat -> nth_error scores j = Some y ->
                    gt x y = true).

(** Indices below the number of scores. *)
Definition in_range {N : Numeric} (scores : list float) (l : list nat)
    : Prop :=
  Forall (fun i => (i < List.length scores)%nat) l.

(** Candidate [idx] is not skipped: its largest similarity [m] to the
    selected sentences is not above the threshold. *)
Definition diverse {N : Numeric} (self : ExtractiveSummarizer.t)
    (embeddings : list vector) (selected : list nat) (idx : nat)
    (m : float) : Prop :=
  ExtractiveSummarizer.max_similarity embeddings selected idx = Ok m
  /\ gt m (ExtractiveSummarizer.diversity_threshold self) = false.

(** Candidate [i] has the highest combined score among the candidates that
    are not skipped, and is the lowest such index. *)
Definition best_diverse {N : Numeric} (self : ExtractiveSummarizer.t)
    (scores : list float) (embeddings : list vector)
    (selected remaining : list nat) (i : nat) : Prop :=
  In i remaining
  /\ exists r m,
       item scores i = Ok r /\ diverse self embeddings selected i m
       /\ forall j rj mj,
            In j remaining -> item scores j = Ok rj ->
            diverse self embeddings selected j mj ->
            gt (combined rj mj) (combined r m) = false
            /\ ((j < i)%nat -> gt (combined r m) (combined rj mj) = true).

Definition by_key {A : Type} (a b : (nat * nat) * A) : Prop :=
  key_le (fst a) (fst b) = true.

Definition key_of (e : ExtractiveSummarizer.source) : nat * nat :=
  (ExtractiveSummarizer.chunk_idx e, ExtractiveSummarizer.sent_idx e).

(** Source positions in reading order. *)
Definition source_le (a b : ExtractiveSummarizer.source) : Prop :=
  (ExtractiveSummarizer.chunk_idx a < ExtractiveSummarizer.chunk_idx b)%nat
  \/ (ExtractiveSummarizer.chunk_idx a = ExtractiveSummarizer.chunk_idx b
      /\ (ExtractiveSummarizer.sent_idx a
          <= ExtractiveSummarizer.sent_idx b)%nat).

(** A pair of a key and an index that holds the key of the sentence at
    that index. *)
Definition keyed_right (sentences : list ExtractiveSummarizer.source)
    (ki : (nat * nat) * nat) : Prop :=
  exists e, nth_error sentences (snd ki) = Some e /\ fst ki = key_of e.

(** What [(best_score, best_idx)] holds after the candidates [done] of a
    round: nothing while no candidate that is not skipped has scored above
    -1, else the first candidate with the highest combined score. *)
Definition scanned {N : Numeric} (self : ExtractiveSummarizer.t)
    (scores : list float) (embeddings : list vector)
    (selected done : list nat) (best : float * option nat) : Prop :=
  match snd best with
  | None =>
      fst best = minus_one
      /\ forall j rj mj,
           In j done -> item scores j = Ok rj ->
           diverse self embeddings selected j mj ->
           gt (combined rj mj) minus_one = false
  | Some i =>
      In i done /\ gt (fst best) minus_one = true
      /\ exists r m,
           item scores i = Ok r /\ diverse self embeddings selected i m
           /\ fst best = combined r m
           /\ forall j rj mj,
                In j done -> item scores j = Ok rj ->
                diverse self embeddings selected j mj ->
                gt (combined rj mj) (fst best) = false
                /\ ((j < i)%nat -> gt (fst best) (combined rj mj) = true)
  end.

(** ** Further inputs *)

Definition carrying_chunker : SemanticChunker.t :=
  {| SemanticChunker.chunk_size := 40; SemanticChunker.overlap := 25 |}.

Definition reading_texts : list str :=
  [lit "Vector search ranks passages by similarity. Chunks overlap to keep context.";
   lit "Summaries keep the sentences in reading order."].

Definition short_texts : list str := [lit "Too short. Tiny one."].

(** A provider that answers with fixed unit vectors. *)
Definition fixed_query (_ : str) : result (list Q) := Ok [1; 0]%Q.

Definition fixed_batch (_ : list str) : result (list (list Q)) :=
  Ok [[(-4 # 5); (3 # 5)]; [-1; 0]; [(-3 # 5); (4 # 5)]]%Q.

(** ** Shape of normalized text *)

(** The first character, if any, is not whitespace. *)
Definition no_space_first (t : str) : bool :=
  match t with
  | c :: _ => negb (Py.is_space c)
  | [] => true
  end.

(** A whitespace character is the plain space. *)
Definition plain_space (c : ascii) : bool :=
  implb (Py.is_space c) (Ascii.eqb c " ").

(** [R] holds of every two neighbouring characters. *)
Fixpoint pairwise (R : ascii -> ascii -> bool) (t : str) : bool :=
  match t with
  | [] => true
  | c :: rest =>
      (match rest with d :: _ => R c d | [] => true end && pairwise R rest)%bool
  end.

Definition not_two_spaces (c d : ascii) : bool :=
  negb (Py.is_space c && Py.is_space d).

Definition not_end_then_capital (c d : ascii) : bool :=
  negb (Py.is_end_punct c && Py.is_AZ d).

(** Text as [_normalize_text] leaves it: single plain spaces only, none at
    either end, and no sentence end directly before a capital letter. *)
Definition normalized (t : str) : bool :=
  (forallb plain_space t && pairwise not_two_spaces t
   && pairwise not_end_then_capital t
   && no_space_first t && no_space_first (rev t))%bool.

(** [space_after_end] puts a space between [c] and the text [rest]. *)
Definition gap (c : ascii) (rest : str) : bool :=
  match rest with
  | d :: _ => (Py.is_end_punct c && Py.is_AZ d)%bool
  | [] => false
  end.

(** A piece of text that [strip] leaves alone and that is not empty. *)
Definition trimmed (p : str) : Prop :=
  p <> [] /\ no_space_first p = true /\ no_space_first (rev p) = true.

(** How [pattern_split] stands between two characters: with an empty piece
    no boundary can follow, otherwise the character last read closes the
    piece. *)
Definition piece_in_step (before piece : str) : Prop :=
  match piece with
  | [] => Py.behind_end before = false
  | p :: _ => hd_error before = Some p
  end.

(** Text with whitespace to fold and a space to insert. *)
Definition untidy_text : str :=
  lit "  Chunks overlap.Sentences   stay whole!  Mr. Smith agrees.  ".

(** The sum over the sentences of their length plus one, as
    [_get_overlap_text] and [chunk_text] count it. *)
Fixpoint counted (sentences : list str) : Z :=
  match sentences with
  | [] => 0
  | p :: rest => len p + 1 + counted rest
  end.

(** What [chunk_text] records in a chunk of document [doc]. *)
Definition chunk_record (doc : str) (c : DocumentChunk) : Prop :=
  document_id c = doc
  /\ 0 <= chunk_index c
  /\ 0 <= start_char c
  /\ end_char c = start_char c + len (text c)
  /\ has_ink (text c) = true.

Definition no_overlap_chunker : SemanticChunker.t :=
  {| SemanticChunker.chunk_size := 40; SemanticChunker.overlap := 0 |}.

(** The chunks hold, group by group, the sentences read so far, and the
    buffer holds the rest of them. *)
Definition grouped (consumed : list str) (st : SemanticChunker.locals)
    : Prop :=
  exists groups,
    map text (SemanticChunker.chunks st) = map (Py.join (lit " ")) groups
    /\ Forall (fun g => g <> []) groups
    /\ List.concat groups ++ SemanticChunker.current_chunk st = consumed.

(** ** The round trip of [SemanticChunker] *)

(** The chunk the buffer would be closed as. *)
Definition pending (doc : str) (st : SemanticChunker.locals)
    : DocumentChunk :=
  let chunk_text := Py.join (lit " ") (SemanticChunker.current_chunk st) in
  {| document_id := doc;
     chunk_index := SemanticChunker.chunk_index st;
     text := chunk_text;
     start_char := SemanticChunker.start_char st;
     end_char := SemanticChunker.start_char st + len chunk_text |}.

(** The buffer is the sentences it was seeded with and then the sentences
    [added] since; the chunks so far, without their carried-overlap
    prefixes, and the added sentences are the sentences read so far. *)
Definition rejoining (doc : str) (consumed : list str)
    (st : SemanticChunker.locals) : Prop :=
  exists seed added,
    SemanticChunker.current_chunk st = seed ++ added
    /\ Forall nonempty seed
    /\ match SemanticChunker.chunks st with
       | [] => seed = [] /\ added = consumed
       | c :: rest =>
           seed = carried_pieces (last rest c) (pending doc st)
           /\ added <> []
           /\ begins_from c rest
           /\ (text c ++ spaced_from c rest)
                ++ lit " " ++ Py.join (lit " ") added
              = Py.join (lit " ") consumed
       end.

(** ** Windows of [FixedSizeChunker] *)

(** The advance of the start offset from one window to the next. *)
Definition stride (self : FixedSizeChunker.t) : Z :=
  FixedSizeChunker.chunk_size self - FixedSizeChunker.overlap self.

(** The chunk of the window number [i] over the trimmed text [t]. *)
Definition window_chunk (self : FixedSizeChunker.t) (t doc : str) (i : nat)
    : DocumentChunk :=
  {| document_id := doc;
     chunk_index := Z.of_nat i;
     text := Py.slice t (Z.of_nat i * stride self)
               (Z.of_nat i * stride self + FixedSizeChunker.chunk_size self);
     start_char := Z.of_nat i * stride self;
     end_char := Z.of_nat i * stride self + FixedSizeChunker.chunk_size self |}.

(** The number of windows: the length of the text divided by the stride,
    rounded up. *)
Definition window_count (self : FixedSizeChunker.t) (t : str) : nat :=
  Z.to_nat ((len t + stride self - 1) / stride self).

Definition reversed_chunker : FixedSizeChunker.t :=
  {| FixedSizeChunker.chunk_size := 10; FixedSizeChunker.overlap := 15 |}.

(** ** [SemanticChunker.get_chunk_stats]

    The dictionary of statistics, or the dictionary with the key [error].
    The average is the quotient of the total by the count, which Python
    rounds to a double. *)

Record chunk_stats : Type := {
  total_chunks : Z;
  avg_chunk_length : Q;
  min_chunk_length : Z;
  max_chunk_length : Z;
  total_characters : Z
}.

Inductive stats_dict : Type :=
| StatsError (error : string)
| Stats (s : chunk_stats).

(** [min(l)], [max(l)] and [sum(l)] on a list with first element [x]. *)
Definition py_min (x : Z) (rest : list Z) : Z := fold_left Z.min rest x.

Definition py_max (x : Z) (rest : list Z) : Z := fold_left Z.max rest x.

Definition py_sum (l : list Z) : Z := fold_left Z.add l 0.

Definition get_chunk_stats (chunks : list DocumentChunk) : stats_dict :=
  match map (fun c => len (text c)) chunks with
  | [] => StatsError "No chunks provided"
  | (x :: rest) as lengths =>
      Stats {| total_chunks := len chunks;
               avg_chunk_length :=
                 Qmake (py_sum lengths) (Pos.of_nat (List.length lengths));
               min_chunk_length := py_min x rest;
               max_chunk_length := py_max x rest;
               total_characters := py_sum lengths |}
  end.

(** The chunks of the scenario of the specification. *)
Definition scenario_chunks : list DocumentChunk :=
  match SemanticChunker.chunk_text scenario_chunker three_sentences
          (lit "doc1") with
  | Ok chunks => chunks
  | Raise _ => []
  end.

(** ** Candidate sentences of [summarize] *)

(** Source positions strictly in reading order. *)
Definition source_lt (a b : ExtractiveSummarizer.source) : Prop :=
  (ExtractiveSummarizer.chunk_idx a < ExtractiveSummarizer.chunk_idx b)%nat
  \/ (ExtractiveSummarizer.chunk_idx a = ExtractiveSummarizer.chunk_idx b
      /\ (ExtractiveSummarizer.sent_idx a
          < ExtractiveSummarizer.sent_idx b)%nat).

(** An entry that holds a sentence of more than 20 characters of one of the
    texts, at the position it has there. *)
Definition candidate_of (texts : list str)
    (e : ExtractiveSummarizer.source) : Prop :=
  exists t,
    nth_error texts (ExtractiveSummarizer.chunk_idx e) = Some t
    /\ nth_error (ExtractiveSummarizer._extract_sentences t)
         (ExtractiveSummarizer.sent_idx e)
       = Some (ExtractiveSummarizer.s_text e)
    /\ 20 < len (ExtractiveSummarizer.s_text e).

(** [max_sentences or self.max_sentences]. *)
Definition requested {N : Numeric} (self : ExtractiveSummarizer.t)
    (max_sentences_arg : option Z) : Z :=
  match max_sentences_arg with
  | None | Some 0 => ExtractiveSummarizer.max_sentences self
  | Some m => m
  end.

(** The elements of [all] at the strictly ascending positions [order]. *)
Definition taken_in_order {A : Type} (all : list A) (order : list nat)
    (picked : list A) : Prop :=
  StronglySorted lt order /\ map_result (item all) order = Ok picked.

(** A provider that fails on the query. *)
Definition failing_query (_ : str) : result (list Q) :=
  Raise (ValueError "Cannot embed empty text").

(** A provider that answers every text of a batch with the same unit
    vector. *)
Definition unit_batch (texts : list str) : result (list (list Q)) :=
  Ok (map (fun _ => [1; 0]%Q) texts).

(** ** The argument check of [cosine_similarity]

    scikit-learn's [cosine_similarity] checks its two arrays before it
    computes: each needs at least one row and one column and finite
    entries, and both the same number of columns; otherwise it raises a
    [ValueError].  The rows come with their width and with whether their
    entries are finite, and the message with the arrays. *)

Class Arrays (N : Numeric) : Type := {
  width : vector -> nat;
  all_finite : vector -> bool;
  complaint : list vector -> vector -> string
}.

Definition accepted {N : Numeric} {A : Arrays N} (X : list vector)
    (y : vector) : bool :=
  (Py.truthy X
   && forallb (fun e => all_finite e && Nat.leb 1 (width e)
                        && Nat.eqb (width e) (width y)) X
   && all_finite y && Nat.leb 1 (width y))%bool.

(** [cosine_similarity(X, y.reshape(1, -1)).flatten()]. *)
Definition cosine_similarity {N : Numeric} {A : Arrays N}
    (X : list vector) (y : vector) : result (list float) :=
  if accepted X y then Ok (map (fun e => cosine e y) X)
  else Raise (ValueError (complaint X y)).

(** [summarize] with that check.  The call that scores the sentences
    stands after the [try], so its [ValueError] is not caught.  Once the
    rows are accepted against the query they are accepted against one
    another, and the selection and the assembly go as in
    [ExtractiveSummarizer.rank_and_assemble], which computes the same
    scores. *)
Definition summarize_checking_arrays {N : Numeric} {A : Arrays N}
    (fuel : nat) (self : ExtractiveSummarizer.t) (query : str)
    (retrieved_texts : list str) (max_sentences_arg : option Z)
    : asking vector (option (result str)) :=
  let max_sentences := requested self max_sentences_arg in
  if negb (Py.truthy retrieved_texts)
  then Return (Some (Ok ExtractiveSummarizer.no_content))
  else
    let sentences :=
      ExtractiveSummarizer.sentences_with_source retrieved_texts in
    if negb (Py.truthy sentences)
    then Return (Some (Ok ExtractiveSummarizer.no_sentences))
    else
      let fallback :=
        Py.join (lit " ")
          (map ExtractiveSummarizer.s_text
             (Py.slice sentences 0 max_sentences)) in
      EmbedText query (fun r1 =>
        match r1 with
        | Raise _ => Return (Some (Ok fallback))
        | Ok query_embedding =>
            EmbedBatch (map ExtractiveSummarizer.s_text sentences) (fun r2 =>
              match r2 with
              | Raise _ => Return (Some (Ok fallback))
              | Ok sentence_embeddings =>
                  Return
                    (match cosine_similarity sentence_embeddings
                             query_embedding with
                     | Raise e => Some (Raise e)
                     | Ok _ =>
                         ExtractiveSummarizer.rank_and_assemble fuel self
                           sentences query_embedding sentence_embeddings
                           max_sentences
                     end)
              end)
        end).

(** The rational rows: all finite, as wide as they are long. *)
#[export] Instance rational_arrays : Arrays rational :=
  @Build_Arrays rational (@List.length Q) (fun _ => true)
    (fun _ _ => "Incompatible dimension for X and Y matrices"%string).

(** A provider that answers every text of a batch with a row of three
    entries. *)
Definition wide_batch (texts : list str) : result (list (list Q)) :=
  Ok (map (fun _ => [1; 0; 0]%Q) texts).

(** ** The embedding generator of [app/core/embedding.py]

    What the service layer raises: an exception of the core, the exception
    of a library, or [RuntimeError(f"{context}: {cause}")], whose message
    is kept as its two parts. *)

Inductive failure (E : Type) : Type :=
| Core (e : exn)
| External (e : E)
| RuntimeError (context : string) (cause : failure E).

Arguments Core {E} e.
Arguments External {E} e.
Arguments RuntimeError {E} context cause.

Inductive outcome (E A : Type) : Type :=
| Done (a : A)
| Failed (f : failure E).

Arguments Done {E A} a.
Arguments Failed {E A} f.

Definition of_result {E A : Type} (r : result A) : outcome E A :=
  match r with
  | Ok a => Done a
  | Raise e => Failed (Core e)
  end.

Definition and_then {E A B : Type} (o : outcome E A)
    (k : A -> outcome E B) : outcome E B :=
  match o with
  | Done a => k a
  | Failed f => Failed f
  end.

(** [try: ... except Exception as e: raise RuntimeError(f"{context}: {e}")]. *)
Definition wrapping {E A : Type} (context : string) (o : outcome E A)
    : outcome E A :=
  match o with
  | Done a => Done a
  | Failed f => Failed (RuntimeError context f)
  end.

Module EmbeddingGenerator.
Section WithModel.

(** The rows of the model and the exceptions of its library;
    [self._model.encode] with the batch size and the flags it is given. *)
Context {V E : Type}.
Variable encode : list str -> outcome E (list V).

(** [not t or not t.strip()]. *)
Definition blank (t : str) : bool :=
  (negb (Py.truthy t) || negb (Py.truthy (Py.strip t)))%bool.

Definition embed_batch (texts : list str) : outcome E (list V) :=
  if negb (Py.truthy texts)
  then Failed (Core (ValueError "Cannot embed empty text list"))
  else if existsb blank texts
  then Failed (Core (ValueError "Text list contains empty strings"))
  else wrapping "Failed to generate embeddings" (encode texts).

Definition embed_text (text : str) : outcome E V :=
  if blank text then Failed (Core (ValueError "Cannot embed empty text"))
  else and_then (embed_batch [text]) (fun rows => of_result (item rows 0)).

End WithModel.
End EmbeddingGenerator.

(** ** The document service of [app/services/document_service.py] *)

Record DocumentIngestRequest : Type := { content : str; filename : str }.

(** [len(t.encode('utf-8'))]: one byte below code point 128, else two. *)
Definition utf8_len (t : str) : Z :=
  fold_right (fun c n => (if Nat.ltb (Py.code c) 128 then 1 else 2) + n) 0 t.

(** [str.isalnum] on one character. *)
Definition is_alnum (c : ascii) : bool :=
  let n := Py.code c in
  (Py.between 48 57 n || Py.between 65 90 n || Py.between 97 122 n
   || Nat.eqb n 170 || Py.between 178 179 n || Nat.eqb n 181
   || Py.between 185 186 n || Py.between 188 190 n || Py.between 192 214 n
   || Py.between 216 246 n || Py.between 248 255 n)%bool.

(** [c.isalnum() or c in "._-"]. *)
Definition is_safe (c : ascii) : bool :=
  (is_alnum c || existsb (Ascii.eqb c) (lit "._-"))%bool.

Module DocumentService.
Section WithEnvironment.

Context {V E : Type}.
Variable encode : list str -> outcome E (list V).

(** [settings.max_file_size_mb] and the message about the size, which
    formats a float. *)
Variable max_file_size_mb : Z.
Variable too_large : Z -> Z -> string.

(** [self.chunker], and the clock and the random identifier of
    [_generate_document_id]. *)
Variable chunker : SemanticChunker.t.
Variable timestamp unique_id : str.

(** The size in bytes is divided by [1024 * 1024], a power of two, and the
    quotient compared with the limit: the comparison of the integers. *)
Definition _validate_document (request : DocumentIngestRequest)
    : result unit :=
  let size := utf8_len (content request) in
  if max_file_size_mb * 1048576 <? size
  then Raise (ValueError (too_large size max_file_size_mb))
  else if negb (Py.truthy (Py.strip (content request)))
  then Raise (ValueError "Document content cannot be empty")
  else if (negb (Py.truthy (filename request))
           || (255 <? len (filename request)))%bool
  then Raise (ValueError "Invalid filename")
  else Ok tt.

Definition safe_filename (name : str) : str :=
  Py.slice (filter is_safe name) 0 50.

Definition _generate_document_id (name : str) : str :=
  timestamp ++ lit "_" ++ safe_filename name ++ lit "_" ++ unique_id.

(** The statistics of the chunks are computed for the log only, and the
    log line about the embeddings reads the first row. *)
Definition ingest_document (request : DocumentIngestRequest)
    : outcome E (str * list DocumentChunk * list V) :=
  and_then (of_result (_validate_document request)) (fun _ =>
  let document_id := _generate_document_id (filename request) in
  wrapping "Failed to process document"
    (and_then
       (of_result
          (SemanticChunker.chunk_text chunker (content request) document_id))
       (fun chunks =>
        let chunk_texts := map text chunks in
        and_then (EmbeddingGenerator.embed_batch encode chunk_texts)
          (fun embeddings =>
           and_then (of_result (item embeddings 0)) (fun _ =>
           Done (document_id, chunks, embeddings)))))).

End WithEnvironment.
End DocumentService.

(** A model that answers every text with the same row, and one that
    fails. *)
Definition constant_model (texts : list str) : outcome string (list (list Q)) :=
  Done (map (fun _ => [1; 0]%Q) texts).

Definition broken_model (_ : list str) : outcome string (list (list Q)) :=
  Failed (External "out of memory"%string).

Definition sample_request : DocumentIngestRequest :=
  {| content := three_sentences; filename := lit "my notes (v2).txt" |}.

Definition sample_size_message (size limit : Z) : string :=
  "Document too large"%string.

Definition blank_request : DocumentIngestRequest :=
  {| content := lit "   "; filename := lit "empty.txt" |}.

(** ** The PDF processor of [app/utils/pdf_processor.py]

    What [PdfReader] gives: the pages, each with the text its
    [extract_text] returns, or nothing when that raises; or the text of
    the exception when the file cannot be read. *)

Inductive reader : Type :=
| Pages (pages : list (option str))
| Unreadable (description : string).

Module PDFProcessor.

(** The texts of the pages that are not blank; a page that raises is
    skipped. *)
Definition text_parts (pages : list (option str)) : list str :=
  flat_map
    (fun page =>
       match page with
       | Some text => if Py.truthy (Py.strip text) then [text] else []
       | None => []
       end)
    pages.

(** [except Exception as e: raise ValueError(f"Failed to process PDF: {e}")]. *)
Definition failed (description : string) : result str :=
  Raise (ValueError ("Failed to process PDF: " ++ description)).

Definition paragraph_break : str := ["010"%char; "010"%char].

Definition extract_text (r : reader) : result str :=
  match r with
  | Unreadable description => failed description
  | Pages pages =>
      if len pages =? 0 then failed "PDF has no pages"
      else
        let text_parts := text_parts pages in
        if negb (Py.truthy text_parts)
        then failed "No text could be extracted from PDF"
        else Ok (Py.join paragraph_break text_parts)
  end.

Definition extract_text_from_bytes (r : reader) : result str :=
  match r with
  | Unreadable description => failed description
  | Pages pages =>
      let text_parts := text_parts pages in
      if negb (Py.truthy text_parts)
      then failed "No text could be extracted from PDF"
      else Ok (Py.join paragraph_break text_parts)
  end.

End PDFProcessor.

(** A page has text that is not blank. *)
Definition page_has_text (page : option str) : bool :=
  match page with
  | Some text => has_ink text
  | None => false
  end.

(** A PDF of three pages: one that cannot be extracted, a blank one and
    one with text. *)
Definition sample_pdf : reader :=
  Pages [None; Some (lit "   "); Some three_sentences].

(** ** The size of the chunks of [SemanticChunker] *)

(** What a chunk can hold when no sentence is longer than [longest]: one
    character more than [chunk_size], or the overlap and one sentence. *)
Definition size_bound (self : SemanticChunker.t) (longest : Z) : Z :=
  Z.max (SemanticChunker.chunk_size self + 1)
        (Z.max 0 (SemanticChunker.overlap self) + longest).

(** The chunks so far and the buffer are within the bound, and the buffer
    joined is not longer than the length the loop counts for it. *)
Definition sized (bound : Z) (st : SemanticChunker.locals) : Prop :=
  Forall (fun c => len (text c) <= bound) (SemanticChunker.chunks st)
  /\ len (Py.join (lit " ") (SemanticChunker.current_chunk st)) <= bound
  /\ len (Py.join (lit " ") (SemanticChunker.current_chunk st))
     <= SemanticChunker.current_length st.

(** ** The file type of an upload, in [app/api/routes/ingest.py] *)

(** [str.lower] on one character. *)
Definition lower_char (c : ascii) : ascii :=
  let n := Py.code c in
  if (Py.between 65 90 n || Py.between 192 214 n || Py.between 216 222 n)%bool
  then ascii_of_nat (n + 32)
  else c.

Definition lower (t : str) : str := map lower_char t.

Definition str_eqb (a b : str) : bool :=
  if list_eq_dec ascii_dec a b then true else false.

(** What [ingest_file] does with an upload: extract the text of a PDF,
    decode a text file, or answer 400 for an unsupported type. *)
Inductive file_kind : Type := PdfFile | TextFile | Unsupported.

Module IngestRoute.

Definition allowed_extensions : list str :=
  [lit ".txt"; lit ".md"; lit ".pdf"].

(** ['.' + file.filename.split('.')[-1].lower()], or [None] without a file
    name. *)
Definition file_extension (filename : str) : option str :=
  if Py.truthy filename
  then Some (lit "." ++ lower (last (Py.split (lit ".") filename) []))
  else None.

Definition kind_of (filename : str) : file_kind :=
  match file_extension filename with
  | None => Unsupported
  | Some file_extension =>
      if negb (existsb (str_eqb file_extension) allowed_extensions)
      then Unsupported
      else if str_eqb file_extension (lit ".pdf") then PdfFile
      else TextFile
  end.

End IngestRoute.

(** * Properties *)

(** ** The chunk constructor *)

Lemma new_DocumentChunk_Ok doc i t a b c :
  new_DocumentChunk doc i t a b = Ok c ->
  c = {| document_id := doc; chunk_index := i; text := t;
         start_char := a; end_char := b |}
  /\ 0 <= i /\ 1 <= len t /\ 0 <= a /\ a < b.
Proof.
  unfold new_DocumentChunk.
  destruct (0 <=? i) eqn:Hi; simpl; [|discriminate].
  destruct (1 <=? len t) eqn:Ht; simpl; [|discriminate].
  destruct (0 <=? a) eqn:Ha; simpl; [|discriminate].
  destruct (1 <=? b) eqn:Hb; simpl; [|discriminate].
  destruct (b <=? a) eqn:Hab; [discriminate|].
  intros E. inversion E. repeat split; lia.
Qed.

Lemma new_DocumentChunk_valid doc i t a b :
  0 <= i -> 1 <= len t -> 0 <= a -> a < b ->
  new_DocumentChunk doc i t a b =
  Ok {| document_id := doc; chunk_index := i; text := t;
        start_char := a; end_char := b |}.
Proof.
  intros Hi Ht Ha Hab. unfold new_DocumentChunk.
  destruct (0 <=? i) eqn:E1; [|lia]. simpl.
  destruct (1 <=? len t) eqn:E2; [|lia]. simpl.
  destruct (0 <=? a) eqn:E3; [|lia]. simpl.
  destruct (1 <=? b) eqn:E4; [|lia]. simpl.
  destruct (b <=? a) eqn:E5; [lia|]. reflexivity.
Qed.

(** ** Construction of the chunkers *)

Lemma SemanticChunker_init_rejects chunk_size overlap :
  chunk_size <= overlap ->
  SemanticChunker.init chunk_size overlap =
  Raise (ValueError "Overlap must be smaller than chunk_size").
Proof.
  intros H. unfold SemanticChunker.init.
  destruct (overlap >=? chunk_size) eqn:E; [reflexivity|lia].
Qed.

Lemma SemanticChunker_init_accepts chunk_size overlap :
  overlap < chunk_size ->
  SemanticChunker.init chunk_size overlap =
  Ok {| SemanticChunker.chunk_size := chunk_size;
        SemanticChunker.overlap := overlap |}.
Proof.
  intros H. unfold SemanticChunker.init.
  destruct (overlap >=? chunk_size) eqn:E; [lia|reflexivity].
Qed.

(** C2. Construction with [overlap >= chunk_size] is to fail for both
    chunkers.  [SemanticChunker] rejects [overlap = chunk_size = 10], while
    [FixedSizeChunker] accepts it, as it accepts every pair. *)
Theorem FixedSizeChunker_init_accepts_overlap_equal_to_chunk_size :
  SemanticChunker.init 10 10 =
    Raise (ValueError "Overlap must be smaller than chunk_size")
  /\ FixedSizeChunker.init 10 10 = Ok stuck_chunker
  /\ forall chunk_size overlap,
       FixedSizeChunker.init chunk_size overlap =
       Ok {| FixedSizeChunker.chunk_size := chunk_size;
             FixedSizeChunker.overlap := overlap |}.
Proof.
  split; [|split].
  - apply SemanticChunker_init_rejects. lia.
  - reflexivity.
  - reflexivity.
Qed.

(** ** The fixed-size loop *)

Lemma stuck_loop_never_returns fuel :
  forall chunk_index chunks doc,
    0 <= chunk_index ->
    FixedSizeChunker.loop fuel stuck_chunker (lit "a") doc 0 chunk_index chunks
    = None.
Proof.
  induction fuel as [|fuel IH]; intros chunk_index chunks doc Hi.
  - reflexivity.
  - cbn [FixedSizeChunker.loop].
    change (0 <? len (lit "a")) with true. cbv iota.
    change (Py.slice (lit "a") 0
              (0 + FixedSizeChunker.chunk_size stuck_chunker))
      with (lit "a").
    change (0 + FixedSizeChunker.chunk_size stuck_chunker) with 10.
    rewrite new_DocumentChunk_valid
      by (try assumption; try reflexivity; cbn; lia).
    change (0 + (FixedSizeChunker.chunk_size stuck_chunker
                 - FixedSizeChunker.overlap stuck_chunker)) with 0.
    apply IH. lia.
Qed.

(** C3. [chunk_text] is to terminate for every instance the constructor
    accepts.  The constructor accepts [chunk_size = overlap = 10]; on the
    text ["a"] the start offset stays 0 and no amount of fuel lets the loop
    return or raise. *)
Theorem FixedSizeChunker_chunk_text_diverges_on_equal_overlap :
  FixedSizeChunker.init 10 10 = Ok stuck_chunker
  /\ Py.strip (lit "a") = lit "a"
  /\ forall fuel doc,
       FixedSizeChunker.chunk_text fuel stuck_chunker (lit "a") doc = None.
Proof.
  split; [reflexivity|]. split; [reflexivity|].
  intros fuel doc. unfold FixedSizeChunker.chunk_text.
  change (Py.strip (lit "a")) with (lit "a").
  cbn [Py.truthy lit list_ascii_of_string negb orb].
  apply stuck_loop_never_returns. lia.
Qed.

Lemma FixedSizeChunker_loop_terminates self text doc :
  FixedSizeChunker.overlap self < FixedSizeChunker.chunk_size self ->
  forall fuel start chunk_index chunks,
    len text - start <= Z.of_nat fuel ->
    FixedSizeChunker.loop fuel self text doc start chunk_index chunks <> None.
Proof.
  intros Hstep fuel.
  induction fuel as [|fuel IH]; intros start chunk_index chunks Hfuel;
    cbn [FixedSizeChunker.loop];
    destruct (start <? len text) eqn:Hlt; try discriminate.
  - lia.
  - destruct (new_DocumentChunk _ _ _ _ _); [|discriminate].
    apply IH. lia.
Qed.

(** With [overlap < chunk_size] the fixed-size chunker returns or raises. *)
Lemma FixedSizeChunker_chunk_text_terminates self text doc :
  FixedSizeChunker.overlap self < FixedSizeChunker.chunk_size self ->
  exists fuel, FixedSizeChunker.chunk_text fuel self text doc <> None.
Proof.
  intros Hstep. exists (Z.to_nat (len (Py.strip text))).
  unfold FixedSizeChunker.chunk_text.
  destruct (negb (Py.truthy text) || negb (Py.truthy (Py.strip text)))%bool;
    [discriminate|].
  apply FixedSizeChunker_loop_terminates; [assumption|].
  unfold len. lia.
Qed.

Lemma FixedSizeChunker_loop_windows self t doc fuel :
  forall start chunk_index chunks res,
    Forall (window_of self t) chunks ->
    FixedSizeChunker.loop fuel self t doc start chunk_index chunks
    = Some (Ok res) ->
    Forall (window_of self t) res.
Proof.
  induction fuel as [|fuel IH]; intros start chunk_index chunks res Hacc;
    cbn [FixedSizeChunker.loop];
    destruct (start <? len t) eqn:Hlt; try discriminate;
    try (intros E; inversion E; subst; assumption).
  destruct (new_DocumentChunk _ _ _ _ _) as [c|e] eqn:Hc; [|discriminate].
  apply IH. apply Forall_app. split; [assumption|].
  constructor; [|constructor].
  apply new_DocumentChunk_Ok in Hc. destruct Hc as (-> & _ & _ & Hs & _).
  unfold window_of; cbn. repeat split; lia.
Qed.

Lemma len_nonneg {A : Type} (l : list A) : 0 <= len l.
Proof. unfold len. lia. Qed.

Lemma clamp_inside n i : 0 <= i <= n -> Py.clamp n i = i.
Proof.
  intros H. unfold Py.clamp.
  destruct (Z.ltb_spec i 0); [lia|]. cbv zeta.
  destruct (Z.ltb_spec i 0); [lia|].
  destruct (Z.ltb_spec n i); lia.
Qed.

Lemma clamp_beyond n i : 0 <= n < i -> Py.clamp n i = n.
Proof.
  intros H. unfold Py.clamp.
  destruct (Z.ltb_spec i 0); [lia|]. cbv zeta.
  destruct (Z.ltb_spec i 0); [lia|].
  destruct (Z.ltb_spec n i); lia.
Qed.

Lemma slice_past_end {A : Type} (l : list A) a b :
  0 <= a < len l -> len l < b -> len (Py.slice l a b) = len l - a.
Proof.
  intros Ha Hb. unfold Py.slice.
  rewrite (clamp_inside (len l) a), (clamp_beyond (len l) b) by lia.
  unfold len in *. rewrite length_firstn, length_skipn. lia.
Qed.

(** C9. Every chunk of [FixedSizeChunker.chunk_text] records
    [end_char - start_char = chunk_size]; its text is the slice of the
    trimmed input between the two offsets, so for a chunk whose [end_char]
    lies beyond the trimmed text, [end_char] differs from
    [start_char + len(text)]. *)
Theorem FixedSizeChunker_span_is_chunk_size fuel self t doc chunks :
  FixedSizeChunker.chunk_text fuel self t doc = Some (Ok chunks) ->
  Forall (fun c =>
            end_char c - start_char c = FixedSizeChunker.chunk_size self
            /\ text c = Py.slice (Py.strip t) (start_char c) (end_char c)
            /\ (len (Py.strip t) < end_char c ->
                end_char c <> start_char c + len (text c)))
         chunks.
Proof.
  unfold FixedSizeChunker.chunk_text.
  destruct (negb (Py.truthy t) || negb (Py.truthy (Py.strip t)))%bool;
    [discriminate|].
  intros H. apply FixedSizeChunker_loop_windows in H; [|constructor].
  eapply Forall_impl; [|exact H].
  intros c (Hspan & Hstart & Htext). repeat split; try assumption.
  intros Hpast. rewrite Htext, slice_past_end by lia. lia.
Qed.

(** The window chunker on 200 characters: five chunks, the last one from
    160 to 210, with 40 characters of text. *)
Lemma FixedSizeChunker_span_is_chunk_size_witness :
  exists chunks c,
    FixedSizeChunker.chunk_text 5 window_chunker two_hundred_A (lit "doc")
    = Some (Ok chunks)
    /\ List.length chunks = 5%nat
    /\ nth_error chunks 4 = Some c
    /\ len (Py.strip two_hundred_A) < end_char c
    /\ len (text c) = 40
    /\ Forall (fun c =>
                 end_char c - start_char c = 50
                 /\ text c = Py.slice (Py.strip two_hundred_A)
                               (start_char c) (end_char c)
                 /\ (len (Py.strip two_hundred_A) < end_char c ->
                     end_char c <> start_char c + len (text c)))
              chunks.
Proof.
  eexists. eexists.
  split; [vm_compute; reflexivity|].
  split; [reflexivity|].
  split; [reflexivity|].
  split; [vm_compute; reflexivity|].
  split; [vm_compute; reflexivity|].
  apply (FixedSizeChunker_span_is_chunk_size 5 window_chunker two_hundred_A
           (lit "doc")).
  vm_compute. reflexivity.
Defined.

(** ** Strings: joined lengths, blank tests *)

Lemma join_cons2 sep p q rest :
  Py.join sep (p :: q :: rest) = p ++ sep ++ Py.join sep (q :: rest).
Proof. reflexivity. Qed.

Lemma len_app {A : Type} (l1 l2 : list A) : len (l1 ++ l2) = len l1 + len l2.
Proof. unfold len. rewrite length_app. lia. Qed.

Lemma len_join_cons sep p rest :
  len (Py.join sep rest) <= len (Py.join sep (p :: rest)).
Proof.
  destruct rest as [|q rest].
  - cbn [Py.join]. pose proof (len_nonneg p). unfold len at 1. simpl. lia.
  - rewrite join_cons2, !len_app.
    pose proof (len_nonneg p). pose proof (len_nonneg sep). lia.
Qed.

Lemma len_join_suffix sep pre suf :
  len (Py.join sep suf) <= len (Py.join sep (pre ++ suf)).
Proof.
  induction pre as [|p pre IH]; [simpl; lia|].
  simpl app. pose proof (len_join_cons sep p (pre ++ suf)). lia.
Qed.

Lemma len_join_last sep pre p :
  len p <= len (Py.join sep (pre ++ [p])).
Proof. apply (len_join_suffix sep pre [p]). Qed.

Lemma join_snoc_suffix sep pre p : is_suffix p (Py.join sep (pre ++ [p])).
Proof.
  induction pre as [|q pre IH].
  - exists []. reflexivity.
  - destruct IH as [w Hw]. simpl app.
    destruct (pre ++ [p]) as [|r rest] eqn:E.
    + destruct pre; discriminate.
    + rewrite join_cons2, Hw. exists (q ++ sep ++ w).
      now rewrite <- !app_assoc.
Qed.

Lemma len_pos_nonempty (p : str) : nonempty p -> 1 <= len p.
Proof.
  destruct p; [intros H; now elim H|].
  intros _. unfold len. simpl. lia.
Qed.

Lemma truthy_true {A : Type} (l : list A) : Py.truthy l = true <-> l <> [].
Proof. destruct l; simpl; split; intros H; congruence. Qed.

Lemma truthy_false {A : Type} (l : list A) : Py.truthy l = false <-> l = [].
Proof. destruct l; simpl; split; intros H; congruence. Qed.

Lemma lstrip_ink t : has_ink (Py.lstrip t) = has_ink t.
Proof.
  induction t as [|c t IH]; [reflexivity|].
  simpl. destruct (Py.is_space c) eqn:E; simpl; [assumption|].
  now rewrite E.
Qed.

Lemma lstrip_nonempty t : Py.lstrip t <> [] <-> has_ink t = true.
Proof.
  induction t as [|c t IH]; simpl.
  - split; [intros H; now elim H|discriminate].
  - destruct (Py.is_space c) eqn:E; simpl; [assumption|].
    split; [reflexivity|discriminate].
Qed.

Lemma has_ink_rev t : has_ink (rev t) = has_ink t.
Proof.
  unfold has_ink. induction t as [|c t IH]; [reflexivity|].
  simpl. rewrite existsb_app, IH. simpl.
  rewrite orb_false_r. apply orb_comm.
Qed.

Lemma strip_nonempty t : Py.strip t <> [] <-> has_ink t = true.
Proof.
  unfold Py.strip, Py.rstrip.
  rewrite <- (lstrip_ink t), <- (has_ink_rev (Py.lstrip t)).
  rewrite <- lstrip_nonempty.
  split; intros H E.
  - rewrite E in H. now apply H.
  - apply H. apply (f_equal (@rev ascii)) in E.
    now rewrite rev_involutive in E.
Qed.

Lemma collapse_ws_ink t : forall b, has_ink (Py.collapse_ws b t) = has_ink t.
Proof.
  induction t as [|c t IH]; intros b; [reflexivity|].
  simpl. destruct (Py.is_space c) eqn:E; simpl.
  - destruct b; simpl; apply IH.
  - rewrite E. reflexivity.
Qed.

Lemma space_after_end_step c d t :
  Py.space_after_end (c :: d :: t) =
  if (Py.is_end_punct c && Py.is_AZ d)%bool
  then c :: " "%char :: d :: Py.space_after_end t
  else c :: Py.space_after_end (d :: t).
Proof. reflexivity. Qed.

Lemma has_ink_cons c t :
  has_ink (c :: t) = (negb (Py.is_space c) || has_ink t)%bool.
Proof. reflexivity. Qed.

Lemma space_after_end_ink t :
  has_ink (Py.space_after_end t) = has_ink t
  /\ forall c, has_ink (Py.space_after_end (c :: t)) = has_ink (c :: t).
Proof.
  induction t as [|d t [IH1 IH2]].
  - split; [reflexivity|]. intros c. reflexivity.
  - split; [apply IH2|]. intros c.
    rewrite space_after_end_step.
    destruct (Py.is_end_punct c && Py.is_AZ d)%bool.
    + rewrite !has_ink_cons, IH1. reflexivity.
    + rewrite !has_ink_cons, IH2, has_ink_cons. reflexivity.
Qed.

Lemma normalize_nonempty t :
  Py.strip t <> [] -> SemanticChunker._normalize_text t <> [].
Proof.
  intros H. unfold SemanticChunker._normalize_text.
  apply strip_nonempty. apply strip_nonempty in H.
  rewrite (proj1 (space_after_end_ink _)), collapse_ws_ink. exact H.
Qed.

Lemma strip_nonblank_nonempty pieces :
  Forall nonempty (Py.strip_nonblank pieces).
Proof.
  unfold Py.strip_nonblank. apply Forall_forall. intros p Hp.
  apply in_map_iff in Hp. destruct Hp as (q & <- & Hq).
  apply filter_In in Hq. destruct Hq as [_ Hq].
  now apply truthy_true.
Qed.

Lemma sentences_of_nonempty t :
  Py.strip t <> [] ->
  SemanticChunker.sentences_of t <> []
  /\ Forall nonempty (SemanticChunker.sentences_of t).
Proof.
  intros H. unfold SemanticChunker.sentences_of.
  destruct (Py.truthy (Py.strip_nonblank _)) eqn:E.
  - split; [now apply truthy_true|apply strip_nonblank_nonempty].
  - split; [discriminate|].
    constructor; [|constructor]. now apply normalize_nonempty.
Qed.

(** ** The overlap carried into the next chunk *)

Lemma overlap_scan_shape self reversed :
  forall acc n, exists taken rest,
    reversed = taken ++ rest
    /\ SemanticChunker.overlap_scan self reversed acc n = rev taken ++ acc.
Proof.
  induction reversed as [|p reversed IH]; intros acc n.
  - exists [], []. split; reflexivity.
  - cbn [SemanticChunker.overlap_scan].
    destruct (n + (len p + 1) >? SemanticChunker.overlap self).
    + exists [], (p :: reversed). split; reflexivity.
    + destruct (IH (p :: acc) (n + (len p + 1))) as (taken & rest & -> & E).
      exists (p :: taken), rest. split; [reflexivity|].
      rewrite E. simpl. now rewrite <- app_assoc.
Qed.

Lemma overlap_text_is_joined_suffix self sentences :
  exists pre suf,
    sentences = pre ++ suf
    /\ SemanticChunker._get_overlap_text self sentences
       = Py.join (lit " ") suf.
Proof.
  unfold SemanticChunker._get_overlap_text.
  destruct (overlap_scan_shape self (rev sentences) [] 0)
    as (taken & rest & E & ->).
  exists (rev rest), (rev taken). rewrite app_nil_r. split; [|reflexivity].
  rewrite <- rev_app_distr, <- E. now rewrite rev_involutive.
Qed.

Lemma overlap_text_shorter self sentences :
  len (SemanticChunker._get_overlap_text self sentences)
  <= len (Py.join (lit " ") sentences).
Proof.
  destruct (overlap_text_is_joined_suffix self sentences)
    as (pre & suf & -> & ->).
  apply len_join_suffix.
Qed.

Lemma overlap_scan_cons self p rest acc n :
  SemanticChunker.overlap_scan self (p :: rest) acc n =
  if n + (len p + 1) >? SemanticChunker.overlap self then acc
  else SemanticChunker.overlap_scan self rest (p :: acc) (n + (len p + 1)).
Proof. reflexivity. Qed.

Lemma overlap_text_when_last_fits self pre p :
  len p + 1 <= SemanticChunker.overlap self ->
  len p <= len (SemanticChunker._get_overlap_text self (pre ++ [p])).
Proof.
  intros Hfit. unfold SemanticChunker._get_overlap_text.
  rewrite rev_app_distr. simpl rev. simpl app. rewrite overlap_scan_cons.
  destruct (Z.gtb_spec (0 + (len p + 1)) (SemanticChunker.overlap self));
    [lia|].
  destruct (overlap_scan_shape self (rev pre) [p] (0 + (len p + 1)))
    as (taken & rest & _ & ->).
  apply len_join_last.
Qed.

Lemma overlap_text_when_last_too_long self pre p :
  SemanticChunker.overlap self < len p + 1 ->
  SemanticChunker._get_overlap_text self (pre ++ [p]) = [].
Proof.
  intros Hlong. unfold SemanticChunker._get_overlap_text.
  rewrite rev_app_distr. simpl rev. simpl app. rewrite overlap_scan_cons.
  destruct (Z.gtb_spec (0 + (len p + 1)) (SemanticChunker.overlap self));
    [reflexivity|lia].
Qed.

Lemma resplit_nonempty t :
  Forall nonempty
    (filter (fun p => Py.truthy (Py.strip p)) (Py.split (lit ". ") t)).
Proof.
  apply Forall_forall. intros p Hp. apply filter_In in Hp.
  destruct Hp as [_ Hp]. intros ->. discriminate.
Qed.

(** ** The loop of [SemanticChunker.chunk_text] *)

Lemma numbered_snoc chunks c :
  numbered chunks -> chunk_index c = len chunks -> numbered (chunks ++ [c]).
Proof.
  unfold numbered. intros H Hc.
  rewrite map_app, length_app, Nat.add_1_r, seq_S, map_app, H.
  simpl. now rewrite Hc.
Qed.

Lemma nth_error_last_snoc {A : Type} (l : list A) a :
  nth_error l (pred (List.length l)) = Some a -> exists l', l = l' ++ [a].
Proof.
  destruct l as [|x l] using rev_ind; [discriminate|].
  rewrite length_app, Nat.add_1_r. simpl.
  rewrite nth_error_app2, Nat.sub_diag by lia. simpl.
  intros E. inversion E. now exists l.
Qed.

Lemma linked_snoc self all chunks c :
  linked self all chunks ->
  (forall l c0, chunks = l ++ [c0] -> carry_link self all c0 (start_char c)) ->
  linked self all (chunks ++ [c]).
Proof.
  intros Hin Hlast i c1 c2 H1 H2.
  destruct (Nat.lt_trichotomy (S i) (List.length chunks)) as [Hlt|[Heq|Hgt]].
  - rewrite nth_error_app1 in H1, H2 by lia. eapply Hin; eassumption.
  - rewrite nth_error_app1 in H1 by lia.
    rewrite nth_error_app2, <- Heq, Nat.sub_diag in H2 by lia.
    simpl in H2. inversion H2; subst c2.
    replace i with (pred (List.length chunks)) in H1 by lia.
    apply nth_error_last_snoc in H1. destruct H1 as [l' Hl'].
    eapply Hlast; eassumption.
  - assert (Hnone : nth_error (chunks ++ [c]) (S i) = None).
    { apply nth_error_None. rewrite length_app. simpl. lia. }
    congruence.
Qed.

Lemma finalize_preserves self doc all st pre p :
  chunking_inv self all st ->
  SemanticChunker.current_chunk st = pre ++ [p] -> In p all ->
  exists st',
    SemanticChunker.finalize self doc st = Ok st' /\ chunking_inv self all st'.
Proof.
  intros [Hstart Hbuf Hidx Hnum Hlink Hlast] Hcur Hp.
  unfold SemanticChunker.finalize. rewrite Hcur.
  set (chunk_text := Py.join (lit " ") (pre ++ [p])).
  set (ov := SemanticChunker._get_overlap_text self (pre ++ [p])).
  assert (Hpne : 1 <= len p).
  { apply len_pos_nonempty. rewrite Hcur in Hbuf.
    apply Forall_app in Hbuf. destruct Hbuf as [_ Hb]. now inversion Hb. }
  assert (Hp_le : len p <= len chunk_text) by apply len_join_last.
  assert (Hov_le : len ov <= len chunk_text) by apply overlap_text_shorter.
  assert (Hov_ge : 0 <= len ov) by apply len_nonneg.
  rewrite new_DocumentChunk_valid
    by (try lia; rewrite Hidx; apply len_nonneg).
  cbn [bind].
  eexists. split; [reflexivity|].
  assert (Hnew : forall start2,
            start2 = SemanticChunker.start_char st + len chunk_text - len ov ->
            carry_link self all
              {| document_id := doc;
                 chunk_index := SemanticChunker.chunk_index st;
                 text := chunk_text;
                 start_char := SemanticChunker.start_char st;
                 end_char := SemanticChunker.start_char st + len chunk_text |}
              start2).
  { intros start2 ->. exists p. cbn.
    split; [assumption|]. split; [apply join_snoc_suffix|].
    split; [lia|]. split.
    - intros Hfit.
      pose proof (overlap_text_when_last_fits self pre p Hfit). fold ov in H.
      lia.
    - intros Hlong. unfold ov.
      rewrite (overlap_text_when_last_too_long self pre p Hlong).
      unfold len at 2. simpl. lia. }
  constructor; cbn.
  - lia.
  - apply resplit_nonempty.
  - rewrite len_app, Hidx. reflexivity.
  - apply numbered_snoc; [assumption|]. cbn. assumption.
  - apply linked_snoc; [assumption|]. cbn. assumption.
  - intros l c E. apply app_inj_tail in E. destruct E as [_ <-].
    apply Hnew. reflexivity.
Qed.

Lemma body_preserves self doc all st x :
  chunking_inv self all st -> closes_with_sentence all st ->
  In x all -> nonempty x ->
  exists st',
    SemanticChunker.body self doc st x = Ok st'
    /\ chunking_inv self all st' /\ closes_with_sentence all st'
    /\ SemanticChunker.current_chunk st' <> [].
Proof.
  intros Hinv Htail Hx Hne. unfold SemanticChunker.body.
  assert (Hstep : exists st1,
            (if (Py.truthy (SemanticChunker.current_chunk st)
                 && (SemanticChunker.current_length st + len x
                     >? SemanticChunker.chunk_size self))%bool
             then SemanticChunker.finalize self doc st else Ok st) = Ok st1
            /\ chunking_inv self all st1).
  { destruct (Py.truthy (SemanticChunker.current_chunk st)
              && _)%bool eqn:E; [|now exists st].
    apply andb_prop in E. destruct E as [E _]. apply truthy_true in E.
    destruct Htail as [Hnil|(pre & p & Hcur & Hp)]; [contradiction|].
    eapply finalize_preserves; eassumption. }
  destruct Hstep as (st1 & -> & [Hstart Hbuf Hidx Hnum Hlink Hlast]).
  cbn [bind]. eexists. split; [reflexivity|].
  split; [|split].
  - constructor; cbn; try assumption.
    apply Forall_app. split; [assumption|]. now constructor.
  - right. cbn. eauto.
  - cbn. intros E. now apply app_eq_nil in E.
Qed.

Lemma for_each_preserves self doc all xs :
  Forall nonempty all -> incl xs all ->
  forall st,
    chunking_inv self all st -> closes_with_sentence all st ->
    exists st',
      for_each (SemanticChunker.body self doc) xs st = Ok st'
      /\ chunking_inv self all st'
      /\ (xs <> [] -> SemanticChunker.current_chunk st' <> []).
Proof.
  intros Hall. induction xs as [|x xs IH]; intros Hincl st Hinv Htail.
  - exists st. split; [reflexivity|]. split; [assumption|]. congruence.
  - assert (Hx : In x all) by (apply Hincl; now left).
    destruct (body_preserves self doc all st x Hinv Htail Hx)
      as (st1 & E1 & Hinv1 & Htail1 & Hne1).
    { rewrite Forall_forall in Hall. now apply Hall. }
    cbn [for_each]. rewrite E1. cbn [bind].
    destruct xs as [|y xs].
    + exists st1. split; [reflexivity|]. split; [assumption|]. auto.
    + destruct (IH (fun a Ha => Hincl a (or_intror Ha)) st1 Hinv1 Htail1)
        as (st' & E' & Hinv' & Hne').
      exists st'. split; [assumption|]. split; [assumption|].
      intros _. apply Hne'. discriminate.
Qed.

Lemma initial_inv self all :
  chunking_inv self all SemanticChunker.initial
  /\ closes_with_sentence all SemanticChunker.initial.
Proof.
  split; [|now left].
  constructor; cbn; try reflexivity; try lia; try constructor.
  - intros i c1 c2 H. destruct i; discriminate.
  - intros l c E. destruct l; discriminate.
Qed.

(** What [chunk_text] returns on text that is not blank. *)
Lemma SemanticChunker_chunk_text_returns self t doc :
  Py.strip t <> [] ->
  exists chunks,
    SemanticChunker.chunk_text self t doc = Ok chunks
    /\ chunks <> [] /\ numbered chunks
    /\ linked self (SemanticChunker.sentences_of t) chunks.
Proof.
  intros Hink. unfold SemanticChunker.chunk_text.
  assert (Ht : Py.truthy t = true).
  { destruct t; [now elim Hink|reflexivity]. }
  apply truthy_true in Hink as Hs. rewrite Ht, Hs. cbn [negb orb].
  destruct (sentences_of_nonempty t Hink) as [Hne Hall].
  destruct (initial_inv self (SemanticChunker.sentences_of t)) as [Hi0 Ht0].
  destruct (for_each_preserves self doc _ _ Hall (incl_refl _) _ Hi0 Ht0)
    as (st & -> & [Hstart Hbuf Hidx Hnum Hlink Hlast] & Hcur).
  cbn [bind]. specialize (Hcur Hne).
  apply truthy_true in Hcur as Hcur'. rewrite Hcur'.
  assert (Hlen : 1 <= len (Py.join (lit " ")
                            (SemanticChunker.current_chunk st))).
  { destruct (SemanticChunker.current_chunk st) as [|p rest] using rev_ind;
      [now elim Hcur|].
    apply Forall_app in Hbuf. destruct Hbuf as [_ Hp]. inversion Hp; subst.
    pose proof (len_pos_nonempty p H1).
    pose proof (len_join_last (lit " ") rest p). lia. }
  rewrite new_DocumentChunk_valid
    by (try lia; rewrite Hidx; apply len_nonneg).
  cbn [bind]. eexists. split; [reflexivity|].
  split; [now destruct (SemanticChunker.chunks st)|].
  split.
  - apply numbered_snoc; [assumption|]. cbn. assumption.
  - apply linked_snoc; [assumption|]. cbn. assumption.
Qed.

Lemma SemanticChunker_chunk_text_Ok_ink self t doc chunks :
  SemanticChunker.chunk_text self t doc = Ok chunks -> Py.strip t <> [].
Proof.
  unfold SemanticChunker.chunk_text.
  destruct (Py.truthy t) eqn:Ht; [|discriminate].
  destruct (Py.truthy (Py.strip t)) eqn:Hs; [|discriminate].
  intros _. now apply truthy_true.
Qed.

(** C7. On text that is not blank, [SemanticChunker.chunk_text] returns at
    least one chunk, and the chunk indices are 0, 1, ..., N-1 in order. *)
Theorem SemanticChunker_indices_sequential self t doc :
  Py.strip t <> [] ->
  exists chunks,
    SemanticChunker.chunk_text self t doc = Ok chunks
    /\ (1 <= List.length chunks)%nat
    /\ map chunk_index chunks = map Z.of_nat (seq 0 (List.length chunks)).
Proof.
  intros Hink.
  destruct (SemanticChunker_chunk_text_returns self t doc Hink)
    as (chunks & E & Hne & Hnum & _).
  exists chunks. split; [assumption|]. split; [|exact Hnum].
  destruct chunks; [now elim Hne|simpl; lia].
Qed.

Lemma SemanticChunker_indices_sequential_witness :
  exists chunks,
    SemanticChunker.chunk_text scenario_chunker three_sentences (lit "doc1")
    = Ok chunks
    /\ (1 <= List.length chunks)%nat
    /\ map chunk_index chunks = map Z.of_nat (seq 0 (List.length chunks)).
Proof.
  apply (SemanticChunker_indices_sequential scenario_chunker three_sentences
           (lit "doc1")).
  vm_compute. discriminate.
Defined.

(** C6, as the code has it.  A chunk after the first never starts beyond the
    end of the chunk before it.  It starts strictly before that end when the
    sentence that closes the previous chunk fits in the overlap window
    ([len + 1 <= overlap]), and exactly at that end when the sentence is
    longer, since the carried overlap is then empty. *)
Theorem SemanticChunker_start_not_after_previous_end self t doc chunks :
  SemanticChunker.chunk_text self t doc = Ok chunks ->
  forall i c1 c2,
    nth_error chunks i = Some c1 -> nth_error chunks (S i) = Some c2 ->
    exists p,
      In p (SemanticChunker.sentences_of t) /\ is_suffix p (text c1)
      /\ start_char c2 <= end_char c1
      /\ (len p + 1 <= SemanticChunker.overlap self ->
          start_char c2 < end_char c1)
      /\ (SemanticChunker.overlap self < len p + 1 ->
          start_char c2 = end_char c1).
Proof.
  intros E. pose proof (SemanticChunker_chunk_text_Ok_ink _ _ _ _ E) as Hink.
  destruct (SemanticChunker_chunk_text_returns self t doc Hink)
    as (chunks' & E' & _ & _ & Hlink).
  rewrite E in E'. inversion E'; subst chunks'. exact Hlink.
Qed.

(** C6 as stated fails on the scenario of the specification: with
    [chunk_size = 40] and [overlap = 10 > 0] no sentence fits in the overlap
    window, and the second chunk starts exactly where the first one ends. *)
Lemma SemanticChunker_strict_overlap_counterexample :
  exists chunks c1 c2,
    0 < SemanticChunker.overlap scenario_chunker
    /\ SemanticChunker.chunk_text scenario_chunker three_sentences (lit "doc1")
       = Ok chunks
    /\ (2 <= List.length chunks)%nat
    /\ nth_error chunks 0 = Some c1 /\ nth_error chunks 1 = Some c2
    /\ end_char c1 = 21 /\ start_char c2 = 21
    /\ ~ start_char c2 < end_char c1.
Proof.
  eexists. eexists. eexists.
  split; [reflexivity|].
  split; [vm_compute; reflexivity|].
  split; [simpl; lia|].
  split; [reflexivity|]. split; [reflexivity|].
  split; [reflexivity|]. split; [reflexivity|].
  cbn. lia.
Qed.

(** With [overlap = 25] the sentences of the scenario fit in the window:
    the second chunk spans 0 to 43 and the third starts at 22. *)
Lemma SemanticChunker_start_not_after_previous_end_witness :
  exists chunks c1 c2,
    SemanticChunker.chunk_text carrying_chunker three_sentences (lit "doc1")
    = Ok chunks
    /\ nth_error chunks 1 = Some c1 /\ nth_error chunks 2 = Some c2
    /\ end_char c1 = 43 /\ start_char c2 = 22
    /\ exists p,
         In p (SemanticChunker.sentences_of three_sentences)
         /\ is_suffix p (text c1)
         /\ start_char c2 <= end_char c1
         /\ (len p + 1 <= SemanticChunker.overlap carrying_chunker ->
             start_char c2 < end_char c1)
         /\ (SemanticChunker.overlap carrying_chunker < len p + 1 ->
             start_char c2 = end_char c1).
Proof.
  eexists. eexists. eexists.
  split; [vm_compute; reflexivity|].
  split; [reflexivity|]. split; [reflexivity|].
  split; [reflexivity|]. split; [reflexivity|].
  refine (SemanticChunker_start_not_after_previous_end carrying_chunker
            three_sentences (lit "doc1") _ _ 1%nat _ _ _ _);
    [vm_compute; reflexivity|reflexivity|reflexivity].
Defined.

(** ** Selection of diverse sentences *)

Lemma item_Ok {A : Type} (l : list A) i :
  (i < List.length l)%nat ->
  exists a, item l i = Ok a /\ nth_error l i = Some a.
Proof.
  intros H. unfold item. destruct (nth_error l i) as [a|] eqn:E.
  - now exists a.
  - apply nth_error_None in E. lia.
Qed.

Lemma map_result_item {A : Type} (l : list A) idxs :
  Forall (fun i => (i < List.length l)%nat) idxs ->
  exists es, map_result (item l) idxs = Ok es
             /\ List.length es = List.length idxs.
Proof.
  induction 1 as [|i idxs Hi _ (es & E & Hlen)].
  - now exists [].
  - destruct (item_Ok l i Hi) as (a & Ea & _).
    exists (a :: es). cbn [map_result]. rewrite Ea, E. cbn.
    split; [reflexivity|]. now rewrite Hlen.
Qed.

Lemma list_remove_In x l :
  In x l -> exists l', list_remove x l = Ok l' /\ Permutation l (x :: l').
Proof.
  induction l as [|y l IH]; [intros []|].
  intros Hin. cbn [list_remove].
  destruct (Nat.eqb_spec x y) as [->|Hne].
  - now exists l.
  - destruct Hin as [Heq|Hin]; [congruence|].
    destruct (IH Hin) as (l' & -> & Hperm).
    exists (y :: l'). split; [reflexivity|].
    rewrite Hperm. apply perm_swap.
Qed.

Section Selection.

Context {N : Numeric} {O : FiniteOrder N}.

Lemma gt_asym x y : gt x y = true -> gt y x = false.
Proof.
  intros H. destruct (gt y x) eqn:E; [|reflexivity].
  pose proof (gt_trans x y x H E) as C. rewrite gt_irrefl in C.
  discriminate.
Qed.

Lemma argmax_from_first l :
  forall prefix best_idx best,
    nth_error (prefix ++ l) best_idx = Some best ->
    (best_idx < List.length prefix)%nat ->
    (forall j y, (j < List.length prefix)%nat ->
                 nth_error (prefix ++ l) j = Some y -> gt y best = false) ->
    (forall j y, (j < best_idx)%nat ->
                 nth_error (prefix ++ l) j = Some y -> gt best y = true) ->
    first_argmax (prefix ++ l)
      (ExtractiveSummarizer.argmax_from best_idx best
         (List.length prefix) l).
Proof.
  induction l as [|x l IH]; intros prefix best_idx best Hbest Hlt Hmax Hlow.
  - exists best. split; [assumption|]. split; [|assumption].
    intros j y Hj. apply (Hmax j); [|assumption].
    apply nth_error_Some. rewrite app_nil_r in *. congruence.
  - cbn [ExtractiveSummarizer.argmax_from].
    assert (Hx : nth_error (prefix ++ x :: l) (List.length prefix) = Some x).
    { rewrite nth_error_app2, Nat.sub_diag by lia. reflexivity. }
    replace (prefix ++ x :: l) with ((prefix ++ [x]) ++ l) in *
      by (now rewrite <- app_assoc).
    replace (S (List.length prefix)) with (List.length (prefix ++ [x]))
      by (rewrite length_app; simpl; lia).
    destruct (gt x best) eqn:Hgt.
    + apply IH.
      * assumption.
      * rewrite length_app. simpl. lia.
      * intros j y Hj Hy. rewrite length_app in Hj. simpl in Hj.
        destruct (Nat.eq_dec j (List.length prefix)) as [->|Hne].
        -- rewrite Hx in Hy. inversion Hy; subst. apply gt_irrefl.
        -- apply (gt_incomparable y best x).
           ++ apply (Hmax j); [lia|assumption].
           ++ now apply gt_asym.
      * intros j y Hj Hy.
        destruct (gt x y) eqn:Hxy; [reflexivity|].
        assert (Hyb : gt y best = false) by (apply (Hmax j); [lia|assumption]).
        pose proof (gt_incomparable x y best Hxy Hyb). congruence.
    + apply IH.
      * assumption.
      * rewrite length_app. simpl. lia.
      * intros j y Hj Hy. rewrite length_app in Hj. simpl in Hj.
        destruct (Nat.eq_dec j (List.length prefix)) as [->|Hne].
        -- rewrite Hx in Hy. now inversion Hy; subst.
        -- apply (Hmax j); [lia|assumption].
      * assumption.
Qed.

Lemma np_argmax_first scores :
  scores <> [] ->
  exists i, ExtractiveSummarizer.np_argmax scores = Ok i
            /\ first_argmax scores i.
Proof.
  destruct scores as [|x rest]; [intros H; now elim H|]. intros _.
  eexists. split; [reflexivity|].
  apply (argmax_from_first rest [x] 0%nat x).
  - reflexivity.
  - simpl. lia.
  - intros j y Hj. simpl in Hj. destruct j; [|lia].
    simpl. intros E. inversion E; subst. apply gt_irrefl.
  - intros j y Hj. lia.
Qed.

Variable self : ExtractiveSummarizer.t.
Variable scores : list float.
Variable embeddings : list vector.
Hypothesis matching : List.length embeddings = List.length scores.

Lemma max_similarity_Ok selected idx :
  selected <> [] -> in_range scores selected ->
  (idx < List.length scores)%nat ->
  exists m,
    ExtractiveSummarizer.max_similarity embeddings selected idx = Ok m.
Proof.
  intros Hne Hsel Hidx. unfold ExtractiveSummarizer.max_similarity.
  unfold in_range in Hsel. rewrite <- matching in Hsel, Hidx.
  destruct (map_result_item embeddings selected Hsel) as (es & -> & Hlen).
  destruct (item_Ok embeddings idx Hidx) as (e & -> & _).
  cbn [bind]. unfold ExtractiveSummarizer.np_max.
  destruct es as [|e0 es].
  - destruct selected; [now elim Hne|discriminate].
  - cbn [map]. eexists. reflexivity.
Qed.

Lemma scan_Ok selected best idx :
  selected <> [] -> in_range scores selected ->
  (idx < List.length scores)%nat ->
  exists best',
    ExtractiveSummarizer.scan self scores embeddings selected best idx
    = Ok best'
    /\ (best' = best \/ snd best' = Some idx).
Proof.
  intros Hne Hsel Hidx. unfold ExtractiveSummarizer.scan.
  destruct (item_Ok scores idx Hidx) as (r & -> & _).
  destruct (max_similarity_Ok selected idx Hne Hsel Hidx) as (m & ->).
  cbn [bind].
  destruct (gt m _); [eauto|].
  destruct (gt _ (fst best)); eauto.
Qed.

Lemma scan_all_Ok selected remaining :
  selected <> [] -> in_range scores selected -> in_range scores remaining ->
  forall best,
  exists best',
    for_each (ExtractiveSummarizer.scan self scores embeddings selected)
      remaining best = Ok best'
    /\ (snd best' = snd best \/ exists i, snd best' = Some i /\ In i remaining).
Proof.
  intros Hne Hsel. induction 1 as [|idx rest Hidx _ IH]; intros best.
  - exists best. split; [reflexivity|now left].
  - destruct (scan_Ok selected best idx Hne Hsel Hidx) as (b1 & E1 & H1).
    destruct (IH b1) as (b2 & E2 & H2).
    exists b2. cbn [for_each]. rewrite E1. cbn [bind].
    split; [assumption|].
    destruct H2 as [H2|(i & H2 & Hin)].
    + destruct H1 as [->|H1]; [now left|].
      right. exists idx. split; [congruence|now left].
    + right. exists i. split; [assumption|now right].
Qed.

Lemma max_by_from_In rest :
  in_range scores rest ->
  forall best best_key,
  exists i, ExtractiveSummarizer.max_by_from scores best best_key rest = Ok i
            /\ (i = best \/ In i rest).
Proof.
  induction 1 as [|j rest Hj _ IH]; intros best best_key.
  - exists best. split; [reflexivity|now left].
  - cbn [ExtractiveSummarizer.max_by_from].
    destruct (item_Ok scores j Hj) as (k & -> & _). cbn [bind].
    destruct (gt k best_key).
    + destruct (IH j k) as (i & -> & [->|Hi]); eexists;
        (split; [reflexivity|]); right; [now left|now right].
    + destruct (IH best best_key) as (i & -> & [->|Hi]); eexists;
        (split; [reflexivity|]); [now left|right; now right].
Qed.

Lemma max_by_score_In remaining :
  remaining <> [] -> in_range scores remaining ->
  exists i, ExtractiveSummarizer.max_by_score scores remaining = Ok i
            /\ In i remaining.
Proof.
  intros Hne Hr. destruct Hr as [|j rest Hj Hrest]; [now elim Hne|].
  cbn [ExtractiveSummarizer.max_by_score].
  destruct (item_Ok scores j Hj) as (k & -> & _). cbn [bind].
  destruct (max_by_from_In rest Hrest j k) as (i & -> & [->|Hi]);
    eexists; (split; [reflexivity|]); [now left|now right].
Qed.

(** A round with candidates left appends one of them. *)
Lemma round_appends selected remaining :
  selected <> [] -> in_range scores selected ->
  remaining <> [] -> in_range scores remaining ->
  exists x remaining',
    ExtractiveSummarizer.round self scores embeddings selected remaining
    = Ok (selected ++ [x], remaining')
    /\ Permutation remaining (x :: remaining').
Proof.
  intros Hne Hsel Hrem Hr. unfold ExtractiveSummarizer.round.
  destruct (scan_all_Ok selected remaining Hne Hsel Hr (minus_one, None))
    as (best & -> & Hbest).
  cbn [bind].
  destruct (snd best) as [best_idx|] eqn:Eb.
  - destruct Hbest as [Hb|(i & Hb & Hin)]; [discriminate|].
    inversion Hb; subst i.
    destruct (list_remove_In best_idx remaining Hin) as (r' & -> & Hperm).
    cbn [bind]. eauto.
  - apply truthy_true in Hrem as Ht. rewrite Ht.
    destruct (max_by_score_In remaining Hrem Hr) as (i & -> & Hin).
    cbn [bind].
    destruct (list_remove_In i remaining Hin) as (r' & -> & Hperm).
    cbn [bind]. eauto.
Qed.

Lemma gt_above x y z : gt x y = true -> gt z y = false -> gt x z = true.
Proof.
  intros Hxy Hzy. destruct (gt x z) eqn:E; [reflexivity|].
  pose proof (gt_incomparable x z y E Hzy). congruence.
Qed.

Lemma gt_not_above x y z : gt x y = true -> gt z y = false -> gt z x = false.
Proof.
  intros Hxy Hzy. apply (gt_incomparable z y x Hzy). now apply gt_asym.
Qed.

Lemma scan_cases selected best idx :
  selected <> [] -> in_range scores selected ->
  (idx < List.length scores)%nat ->
  exists r m,
    item scores idx = Ok r
    /\ ExtractiveSummarizer.max_similarity embeddings selected idx = Ok m
    /\ ExtractiveSummarizer.scan self scores embeddings selected best idx
       = Ok (if gt m (ExtractiveSummarizer.diversity_threshold self)
             then best
             else if gt (combined r m) (fst best)
                  then (combined r m, Some idx) else best).
Proof.
  intros Hne Hsel Hidx. unfold ExtractiveSummarizer.scan.
  destruct (item_Ok scores idx Hidx) as (r & Er & _).
  destruct (max_similarity_Ok selected idx Hne Hsel Hidx) as (m & Em).
  exists r, m. rewrite Er, Em. cbn [bind].
  split; [reflexivity|]. split; [reflexivity|].
  destruct (gt m _); [reflexivity|].
  destruct (gt _ (fst best)); reflexivity.
Qed.

Lemma scanned_step selected done best idx :
  selected <> [] -> in_range scores selected ->
  (idx < List.length scores)%nat ->
  (forall j, In j done -> (j < idx)%nat) ->
  scanned self scores embeddings selected done best ->
  exists best',
    ExtractiveSummarizer.scan self scores embeddings selected best idx
    = Ok best'
    /\ scanned self scores embeddings selected (done ++ [idx]) best'.
Proof.
  intros Hne Hsel Hidx Hbefore Hs.
  destruct (scan_cases selected best idx Hne Hsel Hidx)
    as (r & m & Er & Em & ->).
  eexists. split; [reflexivity|].
  destruct (gt m (ExtractiveSummarizer.diversity_threshold self)) eqn:Hskip.
  - (* skipped *)
    unfold scanned in *. destruct (snd best) as [i|].
    + destruct Hs as (Hi & Hgt & r0 & m0 & Er0 & Hd0 & Hb & Hall).
      split; [apply in_or_app; now left|]. split; [assumption|].
      exists r0, m0. repeat (split; [assumption|]).
      intros j rj mj Hj Hrj Hdj. apply in_app_or in Hj.
      destruct Hj as [Hj|[<-|[]]]; [now apply Hall|].
      destruct Hdj as [Hmj Hdj]. rewrite Em in Hmj. inversion Hmj; subst.
      congruence.
    + destruct Hs as (Hb & Hall). split; [assumption|].
      intros j rj mj Hj Hrj Hdj. apply in_app_or in Hj.
      destruct Hj as [Hj|[<-|[]]]; [now apply (Hall j)|].
      destruct Hdj as [Hmj Hdj]. rewrite Em in Hmj. inversion Hmj; subst.
      congruence.
  - destruct (gt (combined r m) (fst best)) eqn:Hbetter.
    + (* the candidate becomes the best *)
      unfold scanned in *. cbn [fst snd].
      assert (Hdone : forall j rj mj,
                 In j done -> item scores j = Ok rj ->
                 diverse self embeddings selected j mj ->
                 gt (combined rj mj) (fst best) = false).
      { destruct (snd best) as [i|].
        - destruct Hs as (_ & _ & r0 & m0 & _ & _ & _ & Hall).
          intros j rj mj Hj Hrj Hdj. now apply (Hall j rj mj).
        - destruct Hs as (Hb & Hall). rewrite Hb.
          intros j rj mj Hj Hrj Hdj. now apply (Hall j rj mj). }
      assert (Hfloor : gt (combined r m) minus_one = true).
      { destruct (snd best) as [i|].
        - destruct Hs as (_ & Hgt & _). eapply gt_trans; eassumption.
        - destruct Hs as (Hb & _). now rewrite <- Hb. }
      split; [apply in_or_app; right; now left|]. split; [assumption|].
      exists r, m. split; [assumption|]. split; [now split|].
      split; [reflexivity|].
      intros j rj mj Hj Hrj Hdj. apply in_app_or in Hj.
      destruct Hj as [Hj|[<-|[]]].
      * pose proof (Hdone j rj mj Hj Hrj Hdj) as Hle. split.
        -- exact (gt_not_above _ _ _ Hbetter Hle).
        -- intros _. exact (gt_above _ _ _ Hbetter Hle).
      * destruct Hdj as [Hmj _]. rewrite Em in Hmj. rewrite Er in Hrj.
        inversion Hmj; inversion Hrj; subst.
        split; [apply gt_irrefl|lia].
    + (* the best stays *)
      unfold scanned in *. destruct (snd best) as [i|].
      * destruct Hs as (Hi & Hgt & r0 & m0 & Er0 & Hd0 & Hb & Hall).
        split; [apply in_or_app; now left|]. split; [assumption|].
        exists r0, m0. repeat (split; [assumption|]).
        intros j rj mj Hj Hrj Hdj. apply in_app_or in Hj.
        destruct Hj as [Hj|[<-|[]]]; [now apply Hall|].
        destruct Hdj as [Hmj _]. rewrite Em in Hmj. rewrite Er in Hrj.
        inversion Hmj; inversion Hrj; subst.
        split; [assumption|]. specialize (Hbefore i Hi). lia.
      * destruct Hs as (Hb & Hall). split; [assumption|].
        intros j rj mj Hj Hrj Hdj. apply in_app_or in Hj.
        destruct Hj as [Hj|[<-|[]]]; [now apply (Hall j)|].
        destruct Hdj as [Hmj _]. rewrite Em in Hmj. rewrite Er in Hrj.
        inversion Hmj; inversion Hrj; subst. now rewrite <- Hb.
Qed.

Lemma scanned_all selected rest :
  selected <> [] -> in_range scores selected ->
  StronglySorted lt rest -> in_range scores rest ->
  forall done best,
    (forall j k, In j done -> In k rest -> (j < k)%nat) ->
    scanned self scores embeddings selected done best ->
    exists best',
      for_each (ExtractiveSummarizer.scan self scores embeddings selected)
        rest best = Ok best'
      /\ scanned self scores embeddings selected (done ++ rest) best'.
Proof.
  intros Hne Hsel Hsorted. induction Hsorted as [|idx rest Hs IH Hlt];
    intros Hr done best Hbefore Hscanned.
  - exists best. rewrite app_nil_r. now split.
  - inversion Hr as [|? ? Hidx Hr']; subst.
    destruct (scanned_step selected done best idx Hne Hsel Hidx)
      as (b1 & E1 & H1); [|assumption|].
    { intros j Hj. apply Hbefore; [assumption|now left]. }
    destruct (IH Hr' (done ++ [idx]) b1) as (b2 & E2 & H2);
      [|assumption|].
    { intros j k Hj Hk. apply in_app_or in Hj.
      destruct Hj as [Hj|[<-|[]]].
      - apply Hbefore; [assumption|now right].
      - rewrite Forall_forall in Hlt. now apply Hlt. }
    exists b2. cbn [for_each]. rewrite E1. cbn [bind].
    split; [assumption|]. now rewrite <- app_assoc in H2.
Qed.

(** A round in which a candidate that is not skipped has a combined score
    above -1 appends the best candidate among those not skipped. *)
Lemma round_appends_best_diverse selected remaining i r m :
  selected <> [] -> in_range scores selected ->
  StronglySorted lt remaining -> in_range scores remaining ->
  In i remaining -> item scores i = Ok r ->
  diverse self embeddings selected i m ->
  gt (combined r m) minus_one = true ->
  exists x remaining',
    ExtractiveSummarizer.round self scores embeddings selected remaining
    = Ok (selected ++ [x], remaining')
    /\ best_diverse self scores embeddings selected remaining x.
Proof.
  intros Hne Hsel Hsorted Hr Hi Hri Hdi Habove.
  unfold ExtractiveSummarizer.round.
  destruct (scanned_all selected remaining Hne Hsel Hsorted Hr []
              (minus_one, None)) as (best & -> & Hbest).
  - intros j k [].
  - split; [reflexivity|]. intros j rj mj [].
  - cbn [bind]. cbn [app] in Hbest. unfold scanned in Hbest.
    destruct (snd best) as [x|].
    + destruct Hbest as (Hx & _ & rx & mx & Erx & Hdx & Hb & Hall).
      destruct (list_remove_In x remaining Hx) as (r' & -> & _).
      cbn [bind]. exists x, r'. split; [reflexivity|].
      split; [assumption|]. exists rx, mx.
      split; [assumption|]. split; [assumption|].
      intros j rj mj Hj Hrj Hdj. rewrite <- Hb. now apply Hall.
    + destruct Hbest as (_ & Hall).
      pose proof (Hall i r m Hi Hri Hdi). congruence.
Qed.

Lemma select_loop_returns max_count fuel :
  forall selected remaining,
    (List.length remaining <= fuel)%nat ->
    selected <> [] ->
    Permutation (selected ++ remaining) (seq 0 (List.length scores)) ->
    exists res tail rest,
      ExtractiveSummarizer.select_loop fuel self scores embeddings
        max_count selected remaining = Some (Ok res)
      /\ res = selected ++ tail
      /\ Permutation (res ++ rest) (seq 0 (List.length scores))
      /\ len res <= Z.max (len selected) max_count.
Proof.
  induction fuel as [|fuel IH]; intros selected remaining Hfuel Hne Hperm;
    cbn [ExtractiveSummarizer.select_loop];
    destruct (Z.ltb_spec (len selected) max_count) as [Hlt|Hge];
    destruct (Py.truthy remaining) eqn:Hrem; cbn [andb];
    try (exists selected, [], remaining; rewrite app_nil_r;
         repeat split; try assumption; lia).
  - apply truthy_true in Hrem. destruct remaining; [now elim Hrem|].
    simpl in Hfuel. lia.
  - apply truthy_true in Hrem.
    assert (Hall : in_range scores (selected ++ remaining)).
    { unfold in_range. eapply Permutation_Forall;
        [apply Permutation_sym; exact Hperm|].
      apply Forall_forall. intros i Hi. apply in_seq in Hi. lia. }
    apply Forall_app in Hall. destruct Hall as [Hsel Hr].
    destruct (round_appends selected remaining Hne Hsel Hrem Hr)
      as (x & r' & -> & Hp).
    destruct (IH (selected ++ [x]) r') as (res & tail & rest & E & -> & P & L).
    + apply Permutation_length in Hp. simpl in Hp. lia.
    + intros C. now apply app_eq_nil in C.
    + rewrite <- Hperm, <- app_assoc. simpl.
      apply Permutation_app_head. now apply Permutation_sym.
    + exists ((selected ++ [x]) ++ tail), ([x] ++ tail), rest.
      split; [assumption|]. split; [now rewrite <- app_assoc|].
      split; [assumption|].
      assert (Hx : len (selected ++ [x]) = len selected + 1)
        by (rewrite len_app; reflexivity).
      lia.
Qed.

(** The selection on scores that are not empty, with enough fuel. *)
Lemma select_diverse_returns max_count fuel :
  scores <> [] -> (List.length scores <= fuel)%nat ->
  exists selected first,
    ExtractiveSummarizer._select_diverse_sentences fuel self scores
      embeddings max_count = Some (Ok selected)
    /\ hd_error selected = Some first /\ first_argmax scores first
    /\ NoDup selected /\ in_range scores selected
    /\ 1 <= len selected <= Z.max 1 max_count.
Proof.
  intros Hne Hfuel. unfold ExtractiveSummarizer._select_diverse_sentences.
  destruct (np_argmax_first scores Hne) as (b & -> & Hb). cbn [bind].
  assert (Hin : In b (seq 0 (List.length scores))).
  { destruct Hb as (x & Hx & _). apply in_seq. split; [lia|]. simpl.
    apply nth_error_Some. congruence. }
  destruct (list_remove_In b _ Hin) as (rem & -> & Hperm). cbn [bind].
  destruct (select_loop_returns max_count fuel [b] rem)
    as (res & tail & rest & E & -> & P & L).
  - apply Permutation_length in Hperm. rewrite length_seq in Hperm.
    simpl in Hperm. lia.
  - discriminate.
  - now apply Permutation_sym.
  - exists ([b] ++ tail), b. split; [assumption|].
    split; [reflexivity|]. split; [assumption|].
    assert (Hnd : NoDup (([b] ++ tail) ++ rest)).
    { eapply Permutation_NoDup; [apply Permutation_sym; exact P|].
      apply seq_NoDup. }
    split; [now apply NoDup_app_remove_r in Hnd|].
    split.
    + assert (Hall : in_range scores (([b] ++ tail) ++ rest)).
      { unfold in_range. eapply Permutation_Forall;
          [apply Permutation_sym; exact P|].
        apply Forall_forall. intros i Hi. apply in_seq in Hi. lia. }
      now apply Forall_app in Hall.
    + unfold len in *. simpl in *. lia.
Qed.

End Selection.

(** The rationals are a finite order. *)
Lemma Qgt_bool_lt a b : Qgt_bool a b = true <-> (b < a)%Q.
Proof.
  unfold Qgt_bool. rewrite negb_true_iff.
  split; intros H.
  - apply Qnot_le_lt. intros C. apply Qle_bool_iff in C. congruence.
  - destruct (Qle_bool a b) eqn:E; [|reflexivity].
    apply Qle_bool_iff in E. apply Qlt_not_le in H. contradiction.
Qed.

Lemma Qgt_bool_le a b : Qgt_bool a b = false <-> (a <= b)%Q.
Proof.
  unfold Qgt_bool. rewrite negb_false_iff. apply Qle_bool_iff.
Qed.

#[export] Instance rational_order : FiniteOrder rational.
Proof.
  constructor; cbn [gt rational float].
  - intros x. apply Qgt_bool_le. apply Qle_refl.
  - intros x y z H1 H2. apply Qgt_bool_lt in H1, H2. apply Qgt_bool_lt.
    eapply Qlt_trans; eassumption.
  - intros x y z H1 H2. apply Qgt_bool_le in H1, H2. apply Qgt_bool_le.
    eapply Qle_trans; eassumption.
Qed.

(** C4, as the code has it.  On scores that are not empty, with matching
    embeddings, the selection returns at least one index and at most
    [max(1, max_count)] of them: the highest-scoring sentence is always
    selected, also when [max_count] is 0.  The indices are pairwise
    distinct, and the first one is the lowest index that holds the largest
    score. *)
Theorem select_diverse_bounded_distinct_argmax_first
    {N : Numeric} {O : FiniteOrder N}
    (self : ExtractiveSummarizer.t) (scores : list float)
    (embeddings : list vector) (max_count : Z) (fuel : nat) :
  scores <> [] ->
  List.length embeddings = List.length scores ->
  (List.length scores <= fuel)%nat ->
  exists selected first,
    ExtractiveSummarizer._select_diverse_sentences fuel self scores
      embeddings max_count = Some (Ok selected)
    /\ 1 <= len selected <= Z.max 1 max_count
    /\ NoDup selected
    /\ hd_error selected = Some first /\ first_argmax scores first.
Proof.
  intros Hne Hmatch Hfuel.
  destruct (select_diverse_returns self scores embeddings Hmatch max_count
              fuel Hne Hfuel)
    as (selected & first & E & Hhd & Harg & Hnd & _ & Hlen).
  exists selected, first. repeat split; try assumption; lia.
Qed.

Lemma select_diverse_bounded_distinct_argmax_first_witness :
  exists selected first,
    ExtractiveSummarizer._select_diverse_sentences 3 q_self far_scores
      far_embeddings 2 = Some (Ok selected)
    /\ 1 <= len selected <= Z.max 1 2
    /\ NoDup selected
    /\ hd_error selected = Some first /\ first_argmax far_scores first.
Proof.
  apply (select_diverse_bounded_distinct_argmax_first q_self far_scores
           far_embeddings 2 3).
  - discriminate.
  - reflexivity.
  - simpl. lia.
Defined.

(** C4 as stated fails for [max_count = 0]: one index is returned. *)
Lemma select_diverse_max_count_zero_counterexample :
  exists selected,
    far_scores <> []
    /\ List.length far_embeddings = List.length far_scores
    /\ 0 <= 0
    /\ ExtractiveSummarizer._select_diverse_sentences 3 q_self far_scores
         far_embeddings 0 = Some (Ok selected)
    /\ selected = [0%nat]
    /\ ~ len selected <= 0.
Proof.
  eexists.
  split; [discriminate|]. split; [reflexivity|]. split; [lia|].
  split; [vm_compute; reflexivity|]. split; [reflexivity|].
  unfold len. simpl. lia.
Qed.

(** ** One round of the selection *)

(** C5. In a round with a candidate that is not skipped, the candidate
    with the highest combined score among those not skipped is to be
    appended.  With sentence 0 selected, candidate 1 is not skipped
    (similarity 3/5) and candidate 2 is (similarity 24/25), so candidate 1
    is the best one not skipped; its combined score, -59/50, is not above
    the initial [best_score = -1], and the round appends candidate 2. *)
Theorem round_appends_skipped_candidate :
  Forall2 Qeq far_scores (map (fun e => dot e [1; 0]%Q) far_embeddings)
  /\ (exists m, ExtractiveSummarizer.max_similarity far_embeddings [0%nat]
                  1%nat = Ok m /\ (m == 3 # 5)%Q)
  /\ (exists m, ExtractiveSummarizer.max_similarity far_embeddings [0%nat]
                  2%nat = Ok m /\ (m == 24 # 25)%Q)
  /\ (combined (-1)%Q (3 # 5)%Q == -59 # 50)%Q
  /\ best_diverse q_self far_scores far_embeddings [0%nat] [1%nat; 2%nat]
       1%nat
  /\ ExtractiveSummarizer.round q_self far_scores far_embeddings
       [0%nat] [1%nat; 2%nat] = Ok ([0%nat; 2%nat], [1%nat])
  /\ ExtractiveSummarizer._select_diverse_sentences 3 q_self far_scores
       far_embeddings 2 = Some (Ok [0%nat; 2%nat]).
Proof.
  split; [repeat constructor|].
  split; [eexists; split; [vm_compute; reflexivity|reflexivity]|].
  split; [eexists; split; [vm_compute; reflexivity|reflexivity]|].
  split; [reflexivity|].
  split; [|split; vm_compute; reflexivity].
  split; [now left|].
  eexists. eexists.
  split; [vm_compute; reflexivity|].
  split; [split; vm_compute; reflexivity|].
  intros j rj mj [<-|[<-|[]]] Hr [Hm Hd].
  - vm_compute in Hr, Hm. inversion Hr; inversion Hm; subst.
    split; [reflexivity|lia].
  - vm_compute in Hm. inversion Hm; subst. vm_compute in Hd. discriminate.
Qed.

(** ** Assembly of the summary *)

Lemma key_le_iff a b :
  key_le a b = true <->
  (fst a < fst b)%nat \/ (fst a = fst b /\ (snd a <= snd b)%nat).
Proof.
  unfold key_le.
  rewrite orb_true_iff, andb_true_iff, Nat.ltb_lt, Nat.eqb_eq, Nat.leb_le.
  reflexivity.
Qed.

Lemma key_le_total a b : key_le a b = false -> key_le b a = true.
Proof.
  intros H. apply key_le_iff.
  destruct (key_le b a) eqn:E; [apply key_le_iff in E; assumption|].
  assert (Ha : ~ ((fst a < fst b)%nat
                  \/ (fst a = fst b /\ (snd a <= snd b)%nat))).
  { intros C. apply key_le_iff in C. congruence. }
  lia.
Qed.

Lemma key_le_trans a b c :
  key_le a b = true -> key_le b c = true -> key_le a c = true.
Proof. rewrite !key_le_iff. lia. Qed.

Lemma insert_by_key_perm {A : Type} (x : (nat * nat) * A) l :
  Permutation (x :: l) (insert_by_key x l).
Proof.
  induction l as [|y l IH]; [reflexivity|].
  cbn [insert_by_key]. destruct (key_le (fst x) (fst y)); [reflexivity|].
  rewrite perm_swap. now apply perm_skip.
Qed.

Lemma insert_by_key_sorted {A : Type} (x : (nat * nat) * A) l :
  StronglySorted by_key l -> StronglySorted by_key (insert_by_key x l).
Proof.
  induction 1 as [|y l Hs IH Hy]; [repeat constructor|].
  cbn [insert_by_key]. destruct (key_le (fst x) (fst y)) eqn:E.
  - constructor; [now constructor|].
    constructor; [exact E|].
    eapply Forall_impl; [|exact Hy].
    intros z Hz. eapply key_le_trans; eassumption.
  - constructor; [assumption|].
    eapply Permutation_Forall; [apply insert_by_key_perm|].
    constructor; [|assumption]. now apply key_le_total.
Qed.

Lemma sorted_by_key_perm {A : Type} (l : list ((nat * nat) * A)) :
  Permutation l (sorted_by_key l).
Proof.
  induction l as [|x l IH]; [reflexivity|].
  cbn [sorted_by_key]. rewrite <- insert_by_key_perm. now apply perm_skip.
Qed.

Lemma sorted_by_key_sorted {A : Type} (l : list ((nat * nat) * A)) :
  StronglySorted by_key (sorted_by_key l).
Proof.
  induction l as [|x l IH]; [constructor|].
  cbn [sorted_by_key]. now apply insert_by_key_sorted.
Qed.

Section Assembly.

Variable sentences : list ExtractiveSummarizer.source.

Lemma keys_Ok selected :
  Forall (fun i => (i < List.length sentences)%nat) selected ->
  exists keyed,
    map_result
      (fun i => e <- item sentences i ;;
                Ok ((ExtractiveSummarizer.chunk_idx e,
                     ExtractiveSummarizer.sent_idx e), i))
      selected = Ok keyed
    /\ map snd keyed = selected /\ Forall (keyed_right sentences) keyed.
Proof.
  induction 1 as [|i selected Hi _ (keyed & E & Hsnd & Hk)].
  - exists []. repeat split. constructor.
  - destruct (item_Ok sentences i Hi) as (e & Ee & Hn).
    exists ((key_of e, i) :: keyed). cbn [map_result].
    rewrite Ee. cbn [bind]. rewrite E. cbn [bind].
    split; [reflexivity|]. split; [cbn; now rewrite Hsnd|].
    constructor; [|assumption]. exists e. now split.
Qed.

Lemma texts_Ok keyed :
  Forall (keyed_right sentences) keyed -> StronglySorted by_key keyed ->
  exists picked,
    map_result (item sentences) (map snd keyed) = Ok picked
    /\ map_result
         (fun i => e <- item sentences i ;;
                   Ok (ExtractiveSummarizer.s_text e))
         (map snd keyed) = Ok (map ExtractiveSummarizer.s_text picked)
    /\ map key_of picked = map fst keyed
    /\ StronglySorted source_le picked.
Proof.
  intros Hk Hs. induction Hs as [|ki keyed Hs IH Hall].
  - exists []. repeat split; constructor.
  - inversion Hk as [|? ? (e & Hn & Hkey) Hk']; subst.
    destruct (IH Hk') as (picked & E1 & E2 & Hkeys & Hsorted).
    exists (e :: picked). cbn [map map_result]. unfold item at 1 3.
    rewrite Hn. cbn [bind]. rewrite E1, E2. cbn [bind].
    split; [reflexivity|]. split; [reflexivity|].
    split; [cbn; now rewrite Hkey, Hkeys|].
    constructor; [assumption|].
    assert (Hfst : Forall (fun k => key_le (fst ki) k = true)
                     (map fst keyed)).
    { apply Forall_map. exact Hall. }
    rewrite <- Hkeys in Hfst. apply Forall_map in Hfst.
    eapply Forall_impl; [|exact Hfst].
    intros e' He'. rewrite Hkey in He'. apply key_le_iff in He'.
    exact He'.
Qed.

(** The summary joins the selected sentences in reading order. *)
Lemma assemble_in_reading_order selected :
  Forall (fun i => (i < List.length sentences)%nat) selected ->
  exists order picked,
    ExtractiveSummarizer.assemble sentences selected
    = Ok (Py.join (lit " ") (map ExtractiveSummarizer.s_text picked))
    /\ Permutation order selected
    /\ map_result (item sentences) order = Ok picked
    /\ StronglySorted source_le picked.
Proof.
  intros Hsel. unfold ExtractiveSummarizer.assemble.
  destruct (keys_Ok selected Hsel) as (keyed & -> & Hsnd & Hk).
  cbn [bind].
  pose proof (sorted_by_key_perm keyed) as Hperm.
  destruct (texts_Ok (sorted_by_key keyed)) as (picked & E1 & -> & _ & Hs).
  - eapply Permutation_Forall; eassumption.
  - apply sorted_by_key_sorted.
  - cbn [bind]. exists (map snd (sorted_by_key keyed)), picked.
    split; [reflexivity|]. split; [|split; assumption].
    rewrite <- Hsnd. apply Permutation_map. now apply Permutation_sym.
Qed.

End Assembly.

(** ** [summarize] *)

(** C8. When both calls to the embedding provider succeed, with a row for
    some of the sentences and no row beyond them, the summary is the
    selected sentences joined with single spaces, taken in ascending order
    of (chunk index, sentence index within the chunk), whatever the order
    of selection. *)
Theorem summarize_joins_in_reading_order
    {N : Numeric} {O : FiniteOrder N}
    (fuel : nat) (self : ExtractiveSummarizer.t) (query : str)
    (retrieved_texts : list str) (max_sentences_arg : option Z)
    (embed_text : str -> result vector)
    (embed_batch : list str -> result (list vector))
    (query_embedding : vector) (sentence_embeddings : list vector) :
  let sentences := ExtractiveSummarizer.sentences_with_source retrieved_texts in
  sentences <> [] ->
  embed_text query = Ok query_embedding ->
  embed_batch (map ExtractiveSummarizer.s_text sentences)
    = Ok sentence_embeddings ->
  sentence_embeddings <> [] ->
  (List.length sentence_embeddings <= List.length sentences)%nat ->
  (List.length sentences <= fuel)%nat ->
  exists max_count selected order picked,
    ExtractiveSummarizer._select_diverse_sentences fuel self
      (map (fun e => cosine e query_embedding) sentence_embeddings)
      sentence_embeddings max_count = Some (Ok selected)
    /\ Permutation order selected
    /\ map_result (item sentences) order = Ok picked
    /\ StronglySorted source_le picked
    /\ answer embed_text embed_batch
         (ExtractiveSummarizer.summarize fuel self query retrieved_texts
            max_sentences_arg)
       = Some (Ok (Py.join (lit " ")
                     (map ExtractiveSummarizer.s_text picked))).
Proof.
  intros sentences Hne Hq Hb Hrows Hlen Hfuel.
  unfold ExtractiveSummarizer.summarize.
  assert (Htexts : Py.truthy retrieved_texts = true).
  { destruct retrieved_texts; [now elim Hne|reflexivity]. }
  rewrite Htexts. cbn [negb].
  fold sentences. apply truthy_true in Hne as Hs. rewrite Hs. cbn [negb].
  cbn [answer]. rewrite Hq. cbn [answer]. rewrite Hb. cbn [answer].
  unfold ExtractiveSummarizer.rank_and_assemble.
  set (max_count := match max_sentences_arg with
                    | Some 0 | None => ExtractiveSummarizer.max_sentences self
                    | Some m => m
                    end).
  set (scores := map (fun e => cosine e query_embedding) sentence_embeddings).
  assert (Hscores : List.length scores = List.length sentence_embeddings)
    by (unfold scores; now rewrite length_map).
  destruct (select_diverse_returns self scores sentence_embeddings)
    with (max_count := max_count) (fuel := fuel)
    as (selected & first & E & _ & _ & _ & Hrange & _).
  - now rewrite Hscores.
  - intros C. rewrite C in Hscores. destruct sentence_embeddings;
      [now elim Hrows|discriminate].
  - lia.
  - rewrite E.
    assert (Hin : Forall (fun i => (i < List.length sentences)%nat) selected).
    { eapply Forall_impl; [|exact Hrange]. cbn beta. intros i Hi. lia. }
    destruct (assemble_in_reading_order sentences selected Hin)
      as (order & picked & Ea & Hperm & Hpick & Hsorted).
    exists max_count, selected, order, picked.
    rewrite Ea. repeat split; assumption.
Qed.

(** The best sentence is the third one and the next one is the first: the
    summary has them in reading order. *)
Lemma summarize_joins_in_reading_order_witness :
  ExtractiveSummarizer._select_diverse_sentences 3 q_self
    [(-4 # 5); -1; (-3 # 5)]%Q
    [[(-4 # 5); (3 # 5)]; [-1; 0]; [(-3 # 5); (4 # 5)]]%Q 2
    = Some (Ok [2%nat; 0%nat])
  /\ answer fixed_query fixed_batch
       (ExtractiveSummarizer.summarize 3 q_self (lit "How are passages ranked?")
          reading_texts (Some 2))
     = Some (Ok (lit "Vector search ranks passages by similarity. Summaries keep the sentences in reading order."))
  /\ exists max_count selected order picked,
       ExtractiveSummarizer._select_diverse_sentences 3 q_self
         (map (fun e => cosine e [1; 0]%Q)
              [[(-4 # 5); (3 # 5)]; [-1; 0]; [(-3 # 5); (4 # 5)]]%Q)
         [[(-4 # 5); (3 # 5)]; [-1; 0]; [(-3 # 5); (4 # 5)]]%Q max_count
       = Some (Ok selected)
       /\ Permutation order selected
       /\ map_result
            (item (ExtractiveSummarizer.sentences_with_source reading_texts))
            order = Ok picked
       /\ StronglySorted source_le picked
       /\ answer fixed_query fixed_batch
            (ExtractiveSummarizer.summarize 3 q_self
               (lit "How are passages ranked?") reading_texts (Some 2))
          = Some (Ok (Py.join (lit " ")
                        (map ExtractiveSummarizer.s_text picked))).
Proof.
  split; [vm_compute; reflexivity|].
  split; [vm_compute; reflexivity|].
  apply (summarize_joins_in_reading_order 3 q_self
           (lit "How are passages ranked?") reading_texts (Some 2)
           fixed_query fixed_batch [1; 0]%Q
           [[(-4 # 5); (3 # 5)]; [-1; 0]; [(-3 # 5); (4 # 5)]]%Q).
  - vm_compute. discriminate.
  - reflexivity.
  - reflexivity.
  - discriminate.
  - vm_compute. lia.
  - vm_compute. lia.
Defined.

Lemma flat_map_all_nil {A B : Type} (f : A -> list B) l :
  (forall x, In x l -> f x = []) -> flat_map f l = [].
Proof.
  induction l as [|x l IH]; intros H; [reflexivity|].
  cbn [flat_map]. rewrite (H x (or_introl eq_refl)), IH; [reflexivity|].
  intros y Hy. apply H. now right.
Qed.

Lemma enumerate_In {A : Type} (l : list A) i x :
  In (i, x) (enumerate l) -> In x l.
Proof. unfold enumerate. apply in_combine_r. Qed.

(** C10. When the retrieved texts are not empty and every sentence
    extracted from them has at most 20 characters once stripped,
    [summarize] returns the fixed string "No suitable sentences found for
    summarization.", which is not the string returned for no texts; it asks
    nothing of the embedding provider and raises nothing. *)
Theorem summarize_without_suitable_sentences
    {N : Numeric} (fuel : nat) (self : ExtractiveSummarizer.t) (query : str)
    (retrieved_texts : list str) (max_sentences_arg : option Z) :
  retrieved_texts <> [] ->
  (forall t p, In t retrieved_texts ->
               In p (ExtractiveSummarizer._extract_sentences t) ->
               len (Py.strip p) <= 20) ->
  ExtractiveSummarizer.summarize fuel self query retrieved_texts
    max_sentences_arg
  = Return (Some (Ok (lit "No suitable sentences found for summarization.")))
  /\ ExtractiveSummarizer.no_sentences <> ExtractiveSummarizer.no_content.
Proof.
  intros Hne Hshort. split; [|discriminate].
  unfold ExtractiveSummarizer.summarize.
  apply truthy_true in Hne. rewrite Hne. cbn [negb].
  assert (E : ExtractiveSummarizer.sentences_with_source retrieved_texts = []).
  { unfold ExtractiveSummarizer.sentences_with_source.
    apply flat_map_all_nil. intros [i t] Hit. apply enumerate_In in Hit.
    apply flat_map_all_nil. intros [j p] Hjp. apply enumerate_In in Hjp.
    cbn [fst snd]. specialize (Hshort t p Hit Hjp).
    destruct (Z.ltb_spec 20 (len (Py.strip p))); [lia|reflexivity]. }
  rewrite E. reflexivity.
Qed.

Lemma summarize_without_suitable_sentences_witness :
  ExtractiveSummarizer.summarize 3 q_self (lit "Anything?") short_texts None
  = Return (Some (Ok (lit "No suitable sentences found for summarization.")))
  /\ ExtractiveSummarizer.no_sentences <> ExtractiveSummarizer.no_content.
Proof.
  apply (summarize_without_suitable_sentences 3 q_self (lit "Anything?")
           short_texts None).
  - discriminate.
  - intros t p [<-|[]] Hp. vm_compute in Hp.
    destruct Hp as [<-|[<-|[]]]; vm_compute; discriminate.
Defined.

(** * Further properties of the code *)

(** ** Character classes *)

Lemma end_punct_cases c :
  Py.is_end_punct c = true -> c = "."%char \/ c = "!"%char \/ c = "?"%char.
Proof.
  unfold Py.is_end_punct. rewrite !orb_true_iff, !Ascii.eqb_eq. tauto.
Qed.

Lemma end_punct_not_space c :
  Py.is_end_punct c = true -> Py.is_space c = false.
Proof.
  intros H. destruct (end_punct_cases c H) as [E | [E | E]]; subst c;
    reflexivity.
Qed.

Lemma end_punct_not_AZ c : Py.is_end_punct c = true -> Py.is_AZ c = false.
Proof.
  intros H. destruct (end_punct_cases c H) as [E | [E | E]]; subst c;
    reflexivity.
Qed.

Lemma AZ_not_space c : Py.is_AZ c = true -> Py.is_space c = false.
Proof.
  unfold Py.is_AZ, Py.is_space, Py.between.
  rewrite andb_true_iff, !Nat.leb_le. intros [H1 H2].
  repeat rewrite orb_false_iff. repeat rewrite andb_false_iff.
  rewrite !Nat.leb_gt, !Nat.eqb_neq. lia.
Qed.

(** ** Neighbouring characters *)

Lemma pairwise_cons R c rest :
  pairwise R (c :: rest) =
  (match rest with d :: _ => R c d | [] => true end && pairwise R rest)%bool.
Proof. reflexivity. Qed.

Lemma pairwise_app R a b :
  pairwise R (a ++ b) = true -> pairwise R a = true /\ pairwise R b = true.
Proof.
  induction a as [|c a IH]; [now split|].
  simpl app. rewrite !pairwise_cons, !andb_true_iff. intros [H1 H2].
  destruct (IH H2) as [Ha Hb]. split; [|assumption]. split; [|assumption].
  destruct a; [reflexivity|exact H1].
Qed.

Lemma forallb_app_true {A : Type} (f : A -> bool) a b :
  forallb f (a ++ b) = true -> forallb f a = true /\ forallb f b = true.
Proof. rewrite forallb_app, andb_true_iff. tauto. Qed.

Lemma no_space_first_app a b :
  a <> [] -> no_space_first (a ++ b) = no_space_first a.
Proof. destruct a; [intros H; now elim H|reflexivity]. Qed.

(** ** The stages of [_normalize_text] *)

Lemma collapse_ws_shape t :
  forall b,
    forallb plain_space (Py.collapse_ws b t) = true
    /\ pairwise not_two_spaces (Py.collapse_ws b t) = true
    /\ (b = true -> no_space_first (Py.collapse_ws b t) = true).
Proof.
  induction t as [|c t IH]; intros b; [now repeat split|].
  cbn [Py.collapse_ws]. destruct (Py.is_space c) eqn:E.
  - destruct b; [apply IH|].
    destruct (IH true) as (H1 & H2 & H3). specialize (H3 eq_refl).
    split; [|split; [|discriminate]].
    + cbn [forallb]. now rewrite H1.
    + rewrite pairwise_cons, H2, andb_true_r.
      destruct (Py.collapse_ws true t) as [|d rest]; [reflexivity|].
      cbn [no_space_first] in H3. unfold not_two_spaces.
      apply negb_true_iff in H3. now rewrite H3, andb_false_r.
  - destruct (IH false) as (H1 & H2 & _).
    split; [|split].
    + cbn [forallb]. unfold plain_space at 1. now rewrite E, H1.
    + rewrite pairwise_cons, H2, andb_true_r.
      destruct (Py.collapse_ws false t); [reflexivity|].
      unfold not_two_spaces. now rewrite E.
    + intros _. cbn [no_space_first]. now rewrite E.
Qed.

Lemma space_after_end_cons c rest :
  Py.space_after_end (c :: rest) =
  c :: (if gap c rest then " "%char :: Py.space_after_end rest
        else Py.space_after_end rest).
Proof.
  destruct rest as [|d rest]; [reflexivity|].
  rewrite space_after_end_step. unfold gap.
  destruct (Py.is_end_punct c && Py.is_AZ d)%bool eqn:E; [|reflexivity].
  apply andb_prop in E. destruct E as [_ Hd].
  destruct rest as [|e rest]; [reflexivity|].
  rewrite space_after_end_step.
  destruct (Py.is_end_punct d) eqn:Hp; [|reflexivity].
  apply end_punct_not_AZ in Hp. congruence.
Qed.

Lemma space_after_end_plain t :
  forallb plain_space t = true ->
  forallb plain_space (Py.space_after_end t) = true.
Proof.
  induction t as [|c t IH]; [reflexivity|].
  rewrite space_after_end_cons. cbn [forallb].
  rewrite andb_true_iff. intros [Hc Ht]. rewrite Hc. cbn [andb].
  destruct (gap c t); [cbn [forallb]|]; now rewrite IH.
Qed.

Lemma space_after_end_head d t :
  exists tail, Py.space_after_end (d :: t) = d :: tail.
Proof. rewrite space_after_end_cons. eauto. Qed.

Lemma space_after_end_spaced t :
  pairwise not_two_spaces t = true ->
  pairwise not_two_spaces (Py.space_after_end t) = true.
Proof.
  induction t as [|c t IH]; [reflexivity|].
  rewrite pairwise_cons, andb_true_iff. intros [Hc Ht].
  specialize (IH Ht). rewrite space_after_end_cons.
  destruct t as [|d t]; [reflexivity|].
  destruct (space_after_end_head d t) as [tail Et]. rewrite Et in *.
  cbn [gap].
  destruct (Py.is_end_punct c && Py.is_AZ d)%bool eqn:E.
  - apply andb_prop in E. destruct E as [Hp Hd].
    rewrite (pairwise_cons _ c), (pairwise_cons _ " "%char), IH.
    unfold not_two_spaces.
    rewrite (end_punct_not_space c Hp), (AZ_not_space d Hd).
    now rewrite andb_false_r.
  - rewrite (pairwise_cons _ c), IH, Hc. reflexivity.
Qed.

Lemma space_after_end_gapped t :
  pairwise not_end_then_capital (Py.space_after_end t) = true.
Proof.
  induction t as [|c t IH]; [reflexivity|].
  rewrite space_after_end_cons.
  destruct t as [|d t]; [reflexivity|].
  destruct (space_after_end_head d t) as [tail Et]. rewrite Et in *.
  cbn [gap].
  destruct (Py.is_end_punct c && Py.is_AZ d)%bool eqn:E.
  - rewrite (pairwise_cons _ c), (pairwise_cons _ " "%char), IH.
    unfold not_end_then_capital.
    change (Py.is_AZ " ") with false. change (Py.is_end_punct " ") with false.
    now rewrite andb_false_r.
  - rewrite (pairwise_cons _ c), IH. unfold not_end_then_capital.
    now rewrite E.
Qed.

Lemma lstrip_split t :
  exists sp, t = sp ++ Py.lstrip t /\ no_space_first (Py.lstrip t) = true.
Proof.
  induction t as [|c t (sp & E & H)]; [now exists []|].
  cbn [Py.lstrip]. destruct (Py.is_space c) eqn:Hc.
  - exists (c :: sp). split; [simpl; now rewrite <- E|assumption].
  - exists []. split; [reflexivity|]. cbn. now rewrite Hc.
Qed.

Lemma rstrip_split t :
  exists sp,
    t = Py.rstrip t ++ sp /\ no_space_first (rev (Py.rstrip t)) = true.
Proof.
  unfold Py.rstrip. destruct (lstrip_split (rev t)) as (sp & E & H).
  exists (rev sp). rewrite rev_involutive. split; [|assumption].
  rewrite <- rev_app_distr, <- E. now rewrite rev_involutive.
Qed.

Lemma rstrip_keeps_first t :
  no_space_first t = true -> no_space_first (Py.rstrip t) = true.
Proof.
  intros H. destruct (rstrip_split t) as (sp & E & _).
  destruct (Py.rstrip t) as [|c r] eqn:Er; [reflexivity|].
  rewrite E in H. exact H.
Qed.

Lemma strip_split t :
  exists sp1 sp2,
    t = sp1 ++ Py.strip t ++ sp2
    /\ no_space_first (Py.strip t) = true
    /\ no_space_first (rev (Py.strip t)) = true.
Proof.
  unfold Py.strip.
  destruct (lstrip_split t) as (sp1 & E1 & H1).
  destruct (rstrip_split (Py.lstrip t)) as (sp2 & E2 & H2).
  exists sp1, sp2. split; [now rewrite <- E2|].
  split; [now apply rstrip_keeps_first|assumption].
Qed.

Lemma lstrip_fixed t : no_space_first t = true -> Py.lstrip t = t.
Proof.
  destruct t as [|c t]; [reflexivity|]. cbn. intros H.
  apply negb_true_iff in H. now rewrite H.
Qed.

Lemma strip_fixed t :
  no_space_first t = true -> no_space_first (rev t) = true -> Py.strip t = t.
Proof.
  intros H1 H2. unfold Py.strip, Py.rstrip.
  rewrite (lstrip_fixed t H1), (lstrip_fixed (rev t) H2).
  apply rev_involutive.
Qed.

Lemma collapse_ws_fixed t :
  forall b,
    forallb plain_space t = true -> pairwise not_two_spaces t = true ->
    (b = true -> no_space_first t = true) ->
    Py.collapse_ws b t = t.
Proof.
  induction t as [|c t IH]; intros b Hp Hs Hb; [reflexivity|].
  cbn [forallb] in Hp. apply andb_prop in Hp. destruct Hp as [Hc Hp].
  rewrite pairwise_cons in Hs. apply andb_prop in Hs. destruct Hs as [Hd Hs].
  cbn [Py.collapse_ws]. destruct (Py.is_space c) eqn:E.
  - destruct b.
    + specialize (Hb eq_refl). cbn in Hb. rewrite E in Hb. discriminate.
    + unfold plain_space in Hc. rewrite E in Hc. cbn in Hc.
      apply Ascii.eqb_eq in Hc. subst c. f_equal.
      apply IH; try assumption. intros _.
      destruct t as [|d t]; [reflexivity|]. cbn.
      unfold not_two_spaces in Hd. rewrite E in Hd. cbn in Hd. exact Hd.
  - f_equal. apply IH; try assumption. discriminate.
Qed.

Lemma space_after_end_fixed t :
  pairwise not_end_then_capital t = true -> Py.space_after_end t = t.
Proof.
  induction t as [|c t IH]; [reflexivity|].
  rewrite pairwise_cons, andb_true_iff. intros [Hc Ht].
  rewrite space_after_end_cons, (IH Ht).
  destruct t as [|d t]; [reflexivity|]. cbn [gap].
  unfold not_end_then_capital in Hc. apply negb_true_iff in Hc.
  now rewrite Hc.
Qed.

Lemma normalize_text_shape t :
  normalized (SemanticChunker._normalize_text t) = true.
Proof.
  unfold SemanticChunker._normalize_text.
  set (u := Py.space_after_end (Py.collapse_ws false t)).
  destruct (collapse_ws_shape t false) as (Hp & Hs & _).
  assert (Hup : forallb plain_space u = true)
    by now apply space_after_end_plain.
  assert (Hus : pairwise not_two_spaces u = true)
    by now apply space_after_end_spaced.
  assert (Hug : pairwise not_end_then_capital u = true)
    by apply space_after_end_gapped.
  destruct (strip_split u) as (sp1 & sp2 & E & Hf & Hl).
  rewrite E in Hup, Hus, Hug.
  apply forallb_app_true in Hup. destruct Hup as [_ Hup].
  apply forallb_app_true in Hup. destruct Hup as [Hup _].
  apply pairwise_app in Hus. destruct Hus as [_ Hus].
  apply pairwise_app in Hus. destruct Hus as [Hus _].
  apply pairwise_app in Hug. destruct Hug as [_ Hug].
  apply pairwise_app in Hug. destruct Hug as [Hug _].
  unfold normalized. now rewrite Hup, Hus, Hug, Hf, Hl.
Qed.

(** X1. Whatever the input, [_normalize_text] returns text whose only
    whitespace is single plain spaces, none of them at either end, and in
    which no [.], [!] or [?] stands directly before a capital letter. *)
Theorem normalize_text_is_normalized t :
  normalized (SemanticChunker._normalize_text t) = true.
Proof. apply normalize_text_shape. Qed.

Lemma normalized_fixed t :
  normalized t = true -> SemanticChunker._normalize_text t = t.
Proof.
  unfold normalized. rewrite !andb_true_iff.
  intros ((((Hp & Hs) & Hg) & Hf) & Hl).
  unfold SemanticChunker._normalize_text.
  rewrite collapse_ws_fixed by (try assumption; discriminate).
  rewrite space_after_end_fixed by assumption.
  now apply strip_fixed.
Qed.

(** X2. [_normalize_text] is idempotent: normalizing normalized text
    changes nothing. *)
Theorem normalize_text_idempotent t :
  SemanticChunker._normalize_text (SemanticChunker._normalize_text t)
  = SemanticChunker._normalize_text t.
Proof. apply normalized_fixed. apply normalize_text_shape. Qed.

(** ** Sentences of normalized text *)

Lemma join_cons_nonempty sep p rest :
  rest <> [] -> Py.join sep (p :: rest) = p ++ sep ++ Py.join sep rest.
Proof. destruct rest; [intros H; now elim H|reflexivity]. Qed.

Lemma pattern_split_nonempty t :
  forall before piece, Py.pattern_split before piece t <> [].
Proof.
  induction t as [|c t IH]; intros before piece; cbn [Py.pattern_split];
    [discriminate|].
  destruct (Py.sentence_boundary before c); [discriminate|apply IH].
Qed.

Lemma sentence_boundary_space before c :
  Py.sentence_boundary before c = true ->
  Py.is_space c = true /\ Py.behind_end before = true.
Proof.
  unfold Py.sentence_boundary. rewrite !andb_true_iff. tauto.
Qed.

(** Put together with spaces, the pieces are the text. *)
Lemma pattern_split_join t :
  forall before piece,
    forallb plain_space t = true ->
    Py.join (lit " ") (Py.pattern_split before piece t) = rev piece ++ t.
Proof.
  induction t as [|c t IH]; intros before piece Hp.
  - cbn. now rewrite app_nil_r.
  - cbn [forallb] in Hp. apply andb_prop in Hp. destruct Hp as [Hc Hp].
    cbn [Py.pattern_split].
    destruct (Py.sentence_boundary before c) eqn:Hb.
    + apply sentence_boundary_space in Hb. destruct Hb as [Hs _].
      unfold plain_space in Hc. rewrite Hs in Hc. cbn in Hc.
      apply Ascii.eqb_eq in Hc. subst c.
      rewrite join_cons_nonempty by apply pattern_split_nonempty.
      rewrite IH by assumption. reflexivity.
    + rewrite IH by assumption. cbn [rev]. now rewrite <- app_assoc.
Qed.

(** In text without doubled spaces and without a space at either end,
    every piece is trimmed. *)
Lemma pattern_split_trimmed t :
  forall before piece,
    rev piece ++ t <> [] ->
    pairwise not_two_spaces (rev piece ++ t) = true ->
    no_space_first (rev piece ++ t) = true ->
    no_space_first (rev t ++ piece) = true ->
    piece_in_step before piece ->
    Forall trimmed (Py.pattern_split before piece t).
Proof.
  induction t as [|c t IH]; intros before piece Hne Hs Hf Hl Hstep.
  - cbn [Py.pattern_split]. constructor; [|constructor].
    rewrite app_nil_r in *. cbn [rev app] in Hl.
    repeat split; [assumption|assumption|now rewrite rev_involutive].
  - cbn [Py.pattern_split].
    destruct (Py.sentence_boundary before c) eqn:Hb.
    + apply sentence_boundary_space in Hb. destruct Hb as [Hc Hend].
      destruct piece as [|p piece].
      { cbn in Hstep. congruence. }
      cbn in Hstep. destruct before as [|b before]; [discriminate|].
      cbn in Hstep. inversion Hstep; subst b. cbn in Hend.
      assert (Hrev : rev (p :: piece) <> []).
      { intros C. apply (f_equal (@rev ascii)) in C.
        rewrite rev_involutive in C. discriminate. }
      apply pairwise_app in Hs. destruct Hs as [_ Hs].
      rewrite pairwise_cons in Hs. apply andb_prop in Hs.
      destruct Hs as [Hcd Ht].
      destruct t as [|d t].
      { (* the text cannot end with the boundary space *)
        cbn in Hl. rewrite Hc in Hl. discriminate. }
      assert (Hd : Py.is_space d = false).
      { unfold not_two_spaces in Hcd. rewrite Hc in Hcd. cbn in Hcd.
        now apply negb_true_iff in Hcd. }
      constructor.
      * repeat split; [assumption| |].
        -- now rewrite no_space_first_app in Hf.
        -- rewrite rev_involutive. cbn.
           now rewrite (end_punct_not_space p Hend).
      * apply IH.
        -- discriminate.
        -- exact Ht.
        -- cbn. now rewrite Hd.
        -- rewrite app_nil_r.
           change (rev (c :: d :: t)) with (rev (d :: t) ++ [c]) in Hl.
           rewrite <- app_assoc in Hl.
           rewrite no_space_first_app in Hl; [assumption|].
           intros C. apply (f_equal (@rev ascii)) in C.
           rewrite rev_involutive in C. discriminate.
        -- cbn. destruct (Py.is_end_punct c) eqn:Hp; [|reflexivity].
           apply end_punct_not_space in Hp. congruence.
    + apply IH.
      * cbn [rev]. rewrite <- app_assoc. exact Hne.
      * cbn [rev]. rewrite <- app_assoc. exact Hs.
      * cbn [rev]. rewrite <- app_assoc. exact Hf.
      * cbn [rev] in Hl. rewrite <- app_assoc in Hl. exact Hl.
      * reflexivity.
Qed.

Lemma trimmed_strip p : trimmed p -> Py.strip p = p.
Proof. intros (_ & H1 & H2). now apply strip_fixed. Qed.

Lemma strip_nonblank_trimmed pieces :
  Forall trimmed pieces -> Py.strip_nonblank pieces = pieces.
Proof.
  unfold Py.strip_nonblank. induction 1 as [|p pieces Hp _ IH];
    [reflexivity|].
  cbn [filter]. rewrite (trimmed_strip p Hp).
  assert (Hne : Py.truthy p = true) by (apply truthy_true; apply Hp).
  rewrite Hne. cbn [map]. rewrite IH. f_equal.
  now apply trimmed_strip.
Qed.

Lemma normalize_trimmed t :
  Py.strip t <> [] -> trimmed (SemanticChunker._normalize_text t).
Proof.
  intros H. pose proof (normalize_text_shape t) as Hn.
  unfold normalized in Hn. rewrite !andb_true_iff in Hn.
  destruct Hn as ((((_ & _) & _) & Hf) & Hl).
  repeat split; try assumption. now apply normalize_nonempty.
Qed.

Lemma sentences_of_normalized t :
  Py.strip t <> [] ->
  SemanticChunker.sentences_of t
  = Py.sentence_pattern_split (SemanticChunker._normalize_text t)
  /\ Forall trimmed (SemanticChunker.sentences_of t)
  /\ Py.join (lit " ") (SemanticChunker.sentences_of t)
     = SemanticChunker._normalize_text t.
Proof.
  intros Hink. unfold SemanticChunker.sentences_of.
  set (n := SemanticChunker._normalize_text t).
  destruct (normalize_trimmed t Hink) as (Hne & Hf & Hl). fold n in Hne, Hf, Hl.
  pose proof (normalize_text_shape t) as Hn. fold n in Hn.
  unfold normalized in Hn. rewrite !andb_true_iff in Hn.
  destruct Hn as ((((Hp & Hs) & _) & _) & _).
  assert (Ht : Forall trimmed (Py.sentence_pattern_split n)).
  { unfold Py.sentence_pattern_split. apply pattern_split_trimmed;
      try assumption.
    - now rewrite app_nil_r.
    - reflexivity. }
  rewrite (strip_nonblank_trimmed _ Ht).
  assert (Hsome : Py.truthy (Py.sentence_pattern_split n) = true).
  { apply truthy_true. apply pattern_split_nonempty. }
  rewrite Hsome. split; [reflexivity|]. split; [assumption|].
  unfold Py.sentence_pattern_split. now rewrite pattern_split_join.
Qed.

(** X3. On text that is not blank, the sentences [chunk_text] iterates
    over are the pieces the sentence pattern cuts the normalized text into,
    each already free of surrounding whitespace and none empty (the
    fallback to the whole text is never taken), and put together with
    single spaces they are the normalized text again. *)
Theorem sentences_rejoin_to_normalized_text t :
  Py.strip t <> [] ->
  SemanticChunker.sentences_of t
  = Py.sentence_pattern_split (SemanticChunker._normalize_text t)
  /\ Forall (fun p => p <> [] /\ Py.strip p = p)
            (SemanticChunker.sentences_of t)
  /\ Py.join (lit " ") (SemanticChunker.sentences_of t)
     = SemanticChunker._normalize_text t.
Proof.
  intros Hink. destruct (sentences_of_normalized t Hink) as (E & Ht & Hj).
  split; [assumption|]. split; [|assumption].
  eapply Forall_impl; [|exact Ht].
  intros p Hp. split; [apply Hp|now apply trimmed_strip].
Qed.

Lemma sentences_rejoin_to_normalized_text_witness :
  SemanticChunker._normalize_text untidy_text
  = lit "Chunks overlap. Sentences stay whole! Mr. Smith agrees."
  /\ SemanticChunker.sentences_of untidy_text
     = [lit "Chunks overlap."; lit "Sentences stay whole!";
        lit "Mr. Smith agrees."]
  /\ SemanticChunker.sentences_of untidy_text
     = Py.sentence_pattern_split (SemanticChunker._normalize_text untidy_text)
  /\ Forall (fun p => p <> [] /\ Py.strip p = p)
            (SemanticChunker.sentences_of untidy_text)
  /\ Py.join (lit " ") (SemanticChunker.sentences_of untidy_text)
     = SemanticChunker._normalize_text untidy_text.
Proof.
  split; [vm_compute; reflexivity|].
  split; [vm_compute; reflexivity|].
  apply (sentences_rejoin_to_normalized_text untidy_text).
  vm_compute. discriminate.
Defined.

Lemma extract_sentences_shape t :
  Forall (fun p => p <> [] /\ Py.strip p = p
                   /\ no_space_first p = true
                   /\ no_space_first (rev p) = true)
         (ExtractiveSummarizer._extract_sentences t).
Proof.
  unfold ExtractiveSummarizer._extract_sentences, Py.strip_nonblank.
  apply Forall_forall. intros p Hp. apply in_map_iff in Hp.
  destruct Hp as (q & <- & Hq). apply filter_In in Hq.
  destruct Hq as [_ Hq]. apply truthy_true in Hq.
  destruct (strip_split q) as (_ & _ & _ & Hf & Hl).
  split; [assumption|]. split; [now apply strip_fixed|]. now split.
Qed.

(** X4. The sentences [_extract_sentences] returns, on any text, are not
    empty and carry no whitespace at either end. *)
Theorem extract_sentences_trimmed t :
  Forall (fun p => p <> [] /\ Py.strip p = p
                   /\ no_space_first p = true
                   /\ no_space_first (rev p) = true)
         (ExtractiveSummarizer._extract_sentences t).
Proof. apply extract_sentences_shape. Qed.

(** ** Errors and records of [SemanticChunker.chunk_text] *)

(** X5. [SemanticChunker.chunk_text] raises exactly on text that is empty
    or blank, and then [ValueError("Cannot chunk empty text")]: the
    validation of the chunk records never fails. *)
Theorem SemanticChunker_raises_only_on_blank self t doc :
  (Py.strip t = [] ->
   SemanticChunker.chunk_text self t doc
   = Raise (ValueError "Cannot chunk empty text"))
  /\ (forall e,
        SemanticChunker.chunk_text self t doc = Raise e ->
        Py.strip t = [] /\ e = ValueError "Cannot chunk empty text").
Proof.
  split.
  - intros H. unfold SemanticChunker.chunk_text. rewrite H. cbn.
    now rewrite orb_true_r.
  - intros e He. destruct (Py.strip t) as [|c s] eqn:Hs.
    + split; [reflexivity|]. unfold SemanticChunker.chunk_text in He.
      rewrite Hs in He. cbn in He. rewrite orb_true_r in He.
      now inversion He.
    + destruct (SemanticChunker_chunk_text_returns self t doc)
        as (chunks & E & _); [rewrite Hs; discriminate|congruence].
Qed.

Lemma has_ink_app a b : has_ink (a ++ b) = (has_ink a || has_ink b)%bool.
Proof. apply existsb_app. Qed.

Lemma has_ink_join sep parts :
  parts <> [] -> Forall (fun p => has_ink p = true) parts ->
  has_ink (Py.join sep parts) = true.
Proof.
  intros Hne Hall. destruct Hall as [|p rest Hp _]; [now elim Hne|].
  destruct rest; [exact Hp|].
  rewrite join_cons2, has_ink_app, Hp. reflexivity.
Qed.

Lemma trimmed_ink p : trimmed p -> has_ink p = true.
Proof.
  intros (Hne & Hf & _). destruct p as [|c p]; [now elim Hne|].
  cbn in *. now rewrite Hf.
Qed.

Lemma resplit_ink t :
  Forall (fun p => has_ink p = true)
    (filter (fun p => Py.truthy (Py.strip p)) (Py.split (lit ". ") t)).
Proof.
  apply Forall_forall. intros p Hp. apply filter_In in Hp.
  destruct Hp as [_ Hp]. apply truthy_true in Hp.
  now apply strip_nonempty.
Qed.

Lemma finalize_records self doc st st' :
  SemanticChunker.finalize self doc st = Ok st' ->
  SemanticChunker.current_chunk st <> [] ->
  Forall (chunk_record doc) (SemanticChunker.chunks st) ->
  Forall (fun p => has_ink p = true) (SemanticChunker.current_chunk st) ->
  Forall (chunk_record doc) (SemanticChunker.chunks st')
  /\ Forall (fun p => has_ink p = true) (SemanticChunker.current_chunk st').
Proof.
  unfold SemanticChunker.finalize. intros E Hne Hch Hcur.
  destruct (new_DocumentChunk _ _ _ _ _) as [c|e] eqn:Hc; [|discriminate].
  cbn [bind] in E. inversion E; subst st'; clear E. cbn.
  apply new_DocumentChunk_Ok in Hc. destruct Hc as (-> & Hi & _ & Hs & _).
  split; [|apply resplit_ink].
  apply Forall_app. split; [assumption|]. constructor; [|constructor].
  unfold chunk_record. cbn. repeat split; try assumption.
  now apply has_ink_join.
Qed.

Lemma body_records self doc st st' x :
  SemanticChunker.body self doc st x = Ok st' ->
  has_ink x = true ->
  Forall (chunk_record doc) (SemanticChunker.chunks st) ->
  Forall (fun p => has_ink p = true) (SemanticChunker.current_chunk st) ->
  Forall (chunk_record doc) (SemanticChunker.chunks st')
  /\ Forall (fun p => has_ink p = true) (SemanticChunker.current_chunk st').
Proof.
  unfold SemanticChunker.body. intros E Hx Hch Hcur.
  destruct (Py.truthy (SemanticChunker.current_chunk st) && _)%bool eqn:Hc.
  - destruct (SemanticChunker.finalize self doc st) as [st1|e] eqn:Hf;
      [|discriminate].
    cbn [bind] in E. inversion E; subst st'; clear E. cbn.
    apply andb_prop in Hc. destruct Hc as [Hc _]. apply truthy_true in Hc.
    destruct (finalize_records self doc st st1 Hf Hc Hch Hcur) as [H1 H2].
    split; [assumption|]. apply Forall_app. split; [assumption|].
    now constructor.
  - cbn [bind] in E. inversion E; subst st'; clear E. cbn.
    split; [assumption|]. apply Forall_app. split; [assumption|].
    now constructor.
Qed.

Lemma for_each_records self doc xs :
  Forall (fun p => has_ink p = true) xs ->
  forall st st',
    for_each (SemanticChunker.body self doc) xs st = Ok st' ->
    Forall (chunk_record doc) (SemanticChunker.chunks st) ->
    Forall (fun p => has_ink p = true) (SemanticChunker.current_chunk st) ->
    Forall (chunk_record doc) (SemanticChunker.chunks st')
    /\ Forall (fun p => has_ink p = true) (SemanticChunker.current_chunk st').
Proof.
  induction 1 as [|x xs Hx _ IH]; intros st st' E Hch Hcur.
  - cbn in E. inversion E; subst. now split.
  - cbn [for_each] in E.
    destruct (SemanticChunker.body self doc st x) as [st1|e] eqn:Hb;
      [|discriminate].
    cbn [bind] in E.
    destruct (body_records self doc st st1 x Hb Hx Hch Hcur) as [H1 H2].
    now apply (IH st1 st').
Qed.

Lemma chunk_text_records self t doc chunks :
  SemanticChunker.chunk_text self t doc = Ok chunks ->
  Forall (chunk_record doc) chunks.
Proof.
  intros E.
  pose proof (SemanticChunker_chunk_text_Ok_ink _ _ _ _ E) as Hink.
  unfold SemanticChunker.chunk_text in E.
  destruct (negb (Py.truthy t) || negb (Py.truthy (Py.strip t)))%bool;
    [discriminate|].
  destruct (for_each _ _ _) as [st|e] eqn:Hloop; [|discriminate].
  cbn [bind] in E.
  destruct (for_each_records self doc (SemanticChunker.sentences_of t))
    with (st := SemanticChunker.initial) (st' := st) as [Hch Hcur];
    try assumption; try constructor.
  { destruct (sentences_of_normalized t Hink) as (_ & Ht & _).
    eapply Forall_impl; [|exact Ht]. apply trimmed_ink. }
  destruct (Py.truthy (SemanticChunker.current_chunk st)) eqn:Hc.
  - destruct (new_DocumentChunk _ _ _ _ _) as [c|e] eqn:Hnew;
      [|discriminate].
    cbn [bind] in E. inversion E; subst chunks.
    apply new_DocumentChunk_Ok in Hnew.
    destruct Hnew as (-> & Hi & _ & Hs & _).
    apply Forall_app. split; [assumption|]. constructor; [|constructor].
    unfold chunk_record. cbn. repeat split; try assumption.
    apply has_ink_join; [now apply truthy_true|assumption].
  - inversion E; subst. assumption.
Qed.

(** X6. Every chunk [SemanticChunker.chunk_text] returns carries the
    document identifier it was given, an index and a start offset that are
    not negative, an end offset equal to the start offset plus the length
    of its text, and a text that is not blank. *)
Theorem SemanticChunker_chunk_records self t doc chunks :
  SemanticChunker.chunk_text self t doc = Ok chunks ->
  Forall (fun c =>
            document_id c = doc
            /\ 0 <= chunk_index c
            /\ 0 <= start_char c
            /\ end_char c = start_char c + len (text c)
            /\ Py.strip (text c) <> [])
         chunks.
Proof.
  intros E. pose proof (chunk_text_records self t doc chunks E) as Hrec.
  eapply Forall_impl; [|exact Hrec].
  intros c (H1 & H2 & H3 & H4 & H5). repeat split; try assumption.
  now apply strip_nonempty.
Qed.

Lemma SemanticChunker_chunk_records_witness :
  exists chunks,
    SemanticChunker.chunk_text scenario_chunker three_sentences (lit "doc1")
    = Ok chunks
    /\ List.length chunks = 3%nat
    /\ Forall (fun c =>
                 document_id c = lit "doc1"
                 /\ 0 <= chunk_index c
                 /\ 0 <= start_char c
                 /\ end_char c = start_char c + len (text c)
                 /\ Py.strip (text c) <> [])
              chunks.
Proof.
  eexists. split; [vm_compute; reflexivity|]. split; [reflexivity|].
  apply (SemanticChunker_chunk_records scenario_chunker three_sentences
           (lit "doc1")).
  vm_compute. reflexivity.
Defined.

(** ** Documents that fit in one chunk *)

Lemma counted_app a b : counted (a ++ b) = counted a + counted b.
Proof. induction a as [|p a IH]; simpl; [reflexivity|]. rewrite IH. lia. Qed.

Lemma counted_nonneg l : 0 <= counted l.
Proof.
  induction l as [|p l IH]; simpl; [lia|]. pose proof (len_nonneg p). lia.
Qed.

Lemma len_join_counted l :
  l <> [] -> len (Py.join (lit " ") l) = counted l - 1.
Proof.
  induction l as [|p l IH]; [intros H; now elim H|]. intros _.
  destruct l as [|q l].
  - cbn [Py.join counted]. lia.
  - rewrite join_cons2, !len_app, IH by discriminate.
    cbn [counted]. change (len (lit " ")) with 1. lia.
Qed.

Lemma for_each_without_finalize self doc xs :
  forall st,
    SemanticChunker.current_length st
    = counted (SemanticChunker.current_chunk st) ->
    counted (SemanticChunker.current_chunk st ++ xs)
    <= SemanticChunker.chunk_size self + 1 ->
    exists st',
      for_each (SemanticChunker.body self doc) xs st = Ok st'
      /\ SemanticChunker.chunks st' = SemanticChunker.chunks st
      /\ SemanticChunker.current_chunk st'
         = SemanticChunker.current_chunk st ++ xs
      /\ SemanticChunker.chunk_index st' = SemanticChunker.chunk_index st
      /\ SemanticChunker.start_char st' = SemanticChunker.start_char st.
Proof.
  induction xs as [|x xs IH]; intros st Hcl Hfit.
  - exists st. rewrite app_nil_r. now repeat split.
  - cbn [for_each]. unfold SemanticChunker.body at 1.
    assert (Hno : (Py.truthy (SemanticChunker.current_chunk st)
                   && (SemanticChunker.current_length st + len x
                       >? SemanticChunker.chunk_size self))%bool = false).
    { apply andb_false_iff. right. rewrite Z.gtb_ltb. apply Z.ltb_ge.
      rewrite Hcl. rewrite counted_app in Hfit. cbn [counted] in Hfit.
      pose proof (counted_nonneg xs). lia. }
    rewrite Hno. cbn [bind].
    match goal with |- context [for_each _ xs ?s] => set (st1 := s) end.
    destruct (IH st1) as (st' & E & H1 & H2 & H3 & H4).
    + unfold st1. cbn. rewrite counted_app, Hcl. cbn [counted]. lia.
    + unfold st1. cbn. now rewrite <- app_assoc.
    + exists st'. split; [assumption|]. unfold st1 in *. cbn in *.
      rewrite H1, H2, H3, H4, <- app_assoc. now repeat split.
Qed.

(** X7. A document whose normalized text has at most [chunk_size]
    characters comes back as one chunk: index 0, the normalized text,
    offsets 0 and the length of that text. *)
Theorem SemanticChunker_short_document_is_one_chunk self t doc :
  Py.strip t <> [] ->
  len (SemanticChunker._normalize_text t) <= SemanticChunker.chunk_size self ->
  SemanticChunker.chunk_text self t doc
  = Ok [ {| document_id := doc; chunk_index := 0;
            text := SemanticChunker._normalize_text t;
            start_char := 0;
            end_char := len (SemanticChunker._normalize_text t) |} ].
Proof.
  intros Hink Hfit. unfold SemanticChunker.chunk_text.
  assert (Ht : Py.truthy t = true).
  { destruct t; [now elim Hink|reflexivity]. }
  apply truthy_true in Hink as Hs. rewrite Ht, Hs. cbn [negb orb].
  destruct (sentences_of_normalized t Hink) as (_ & _ & Hjoin).
  destruct (sentences_of_nonempty t Hink) as [Hne _].
  destruct (for_each_without_finalize self doc
              (SemanticChunker.sentences_of t) SemanticChunker.initial)
    as (st & -> & H1 & H2 & H3 & H4).
  - reflexivity.
  - cbn [SemanticChunker.initial SemanticChunker.current_chunk app].
    pose proof (len_join_counted _ Hne) as Hc. rewrite Hjoin in Hc. lia.
  - cbn [bind]. cbn in H1, H2, H3, H4. rewrite H2.
    apply truthy_true in Hne as Hsome. rewrite Hsome, Hjoin, H1, H3, H4.
    rewrite new_DocumentChunk_valid; [reflexivity|lia| |lia|].
    + apply len_pos_nonempty. now apply normalize_nonempty.
    + pose proof (len_pos_nonempty _ (normalize_nonempty t Hink)). lia.
Qed.

Lemma SemanticChunker_short_document_is_one_chunk_witness :
  SemanticChunker.chunk_text default_semantic untidy_text (lit "doc")
  = Ok [ {| document_id := lit "doc"; chunk_index := 0;
            text := SemanticChunker._normalize_text untidy_text;
            start_char := 0;
            end_char := len (SemanticChunker._normalize_text untidy_text) |} ].
Proof.
  apply (SemanticChunker_short_document_is_one_chunk default_semantic
           untidy_text (lit "doc")).
  - vm_compute. discriminate.
  - vm_compute. discriminate.
Defined.

(** ** The overlap window *)

Lemma overlap_scan_window self reversed :
  forall acc,
    acc = [] \/ counted acc <= SemanticChunker.overlap self ->
    exists taken rest,
      reversed = taken ++ rest
      /\ SemanticChunker.overlap_scan self reversed acc (counted acc)
         = rev taken ++ acc
      /\ (rev taken ++ acc = []
          \/ counted (rev taken ++ acc) <= SemanticChunker.overlap self)
      /\ forall p rest', rest = p :: rest' ->
           SemanticChunker.overlap self < counted (p :: rev taken ++ acc).
Proof.
  induction reversed as [|p reversed IH]; intros acc Hacc.
  - exists [], []. repeat split; try assumption. intros p r C. discriminate.
  - rewrite overlap_scan_cons.
    destruct (Z.gtb_spec (counted acc + (len p + 1))
                (SemanticChunker.overlap self)) as [Hgt|Hle].
    + exists [], (p :: reversed). repeat split; try assumption.
      intros q r C. inversion C; subst. cbn [rev app counted]. lia.
    + replace (counted acc + (len p + 1)) with (counted (p :: acc))
        by (cbn [counted]; lia).
      destruct (IH (p :: acc)) as (taken & rest & -> & E & Hw & Hmax).
      { right. cbn [counted]. lia. }
      exists (p :: taken), rest. cbn [rev]. rewrite <- !app_assoc.
      repeat split; assumption.
Qed.

(** X8. The overlap text is the sentences of the longest end of the
    buffer that fits in the window, joined with spaces: it is empty or its
    length plus one is at most [overlap], and taking one more sentence
    would pass [overlap]. *)
Theorem overlap_text_is_longest_fitting_suffix self sentences :
  exists pre suf,
    sentences = pre ++ suf
    /\ SemanticChunker._get_overlap_text self sentences
       = Py.join (lit " ") suf
    /\ (suf = []
        \/ len (SemanticChunker._get_overlap_text self sentences) + 1
           <= SemanticChunker.overlap self)
    /\ forall pre' p, pre = pre' ++ [p] ->
         SemanticChunker.overlap self < counted (p :: suf).
Proof.
  unfold SemanticChunker._get_overlap_text.
  destruct (overlap_scan_window self (rev sentences) [])
    as (taken & rest & E & Hscan & Hw & Hmax); [now left|].
  cbn [counted] in Hscan. rewrite Hscan, app_nil_r in *.
  exists (rev rest), (rev taken).
  split.
  { rewrite <- rev_app_distr, <- E. now rewrite rev_involutive. }
  split; [reflexivity|]. split.
  - destruct Hw as [Hw|Hw]; [now left|].
    destruct (rev taken) as [|q l] eqn:Eq; [now left|]. right.
    rewrite len_join_counted by discriminate. lia.
  - intros pre' p Hp. apply (Hmax p (rev pre')).
    apply (f_equal (@rev str)) in Hp.
    rewrite rev_involutive, rev_app_distr in Hp. exact Hp.
Qed.

(** ** Chunking without overlap *)

Lemma join_app sep a b :
  a <> [] -> b <> [] ->
  Py.join sep (a ++ b) = Py.join sep a ++ sep ++ Py.join sep b.
Proof.
  intros Ha Hb. induction a as [|p a IH]; [now elim Ha|].
  destruct a as [|q a].
  - cbn [app]. now rewrite join_cons_nonempty.
  - change ((p :: q :: a) ++ b) with (p :: (q :: a) ++ b).
    rewrite (join_cons_nonempty sep p ((q :: a) ++ b)) by discriminate.
    rewrite IH by discriminate. rewrite join_cons2.
    now rewrite <- !app_assoc.
Qed.

Lemma join_concat sep groups :
  Forall (fun g => g <> []) groups ->
  Py.join sep (map (Py.join sep) groups) = Py.join sep (List.concat groups).
Proof.
  induction 1 as [|g groups Hg Hall IH]; [reflexivity|].
  destruct groups as [|h groups].
  - cbn. now rewrite app_nil_r.
  - change (map (Py.join sep) (g :: h :: groups))
      with (Py.join sep g :: map (Py.join sep) (h :: groups)).
    rewrite join_cons_nonempty by discriminate. rewrite IH.
    change (List.concat (g :: h :: groups))
      with (g ++ List.concat (h :: groups)).
    rewrite join_app; [reflexivity|assumption|].
    inversion Hall; subst. cbn. destruct h; [congruence|discriminate].
Qed.

Lemma overlap_text_without_window self sentences :
  SemanticChunker.overlap self <= 0 ->
  SemanticChunker._get_overlap_text self sentences = [].
Proof.
  intros H. unfold SemanticChunker._get_overlap_text.
  destruct (rev sentences) as [|p l]; [reflexivity|].
  rewrite overlap_scan_cons.
  destruct (Z.gtb_spec (0 + (len p + 1)) (SemanticChunker.overlap self));
    [reflexivity|]. pose proof (len_nonneg p). lia.
Qed.

Lemma body_grouped self doc consumed st st' x :
  SemanticChunker.overlap self <= 0 ->
  SemanticChunker.body self doc st x = Ok st' ->
  grouped consumed st -> grouped (consumed ++ [x]) st'.
Proof.
  intros Hov E (groups & Htext & Hne & Hcat).
  unfold SemanticChunker.body in E.
  destruct (Py.truthy (SemanticChunker.current_chunk st) && _)%bool eqn:Hc.
  - apply andb_prop in Hc. destruct Hc as [Hc _]. apply truthy_true in Hc.
    unfold SemanticChunker.finalize in E.
    destruct (new_DocumentChunk _ _ _ _ _) as [c|e] eqn:Hnew;
      [|discriminate].
    apply new_DocumentChunk_Ok in Hnew. destruct Hnew as (-> & _).
    rewrite overlap_text_without_window in E by assumption.
    cbn in E. inversion E; subst st'; clear E.
    exists (groups ++ [SemanticChunker.current_chunk st]). cbn.
    rewrite !map_app, Htext. cbn [map].
    split; [reflexivity|]. split.
    + apply Forall_app. split; [assumption|]. now constructor.
    + rewrite concat_app. cbn [List.concat]. rewrite app_nil_r.
      now rewrite Hcat.
  - cbn [bind] in E. inversion E; subst st'; clear E.
    exists groups. cbn. split; [assumption|]. split; [assumption|].
    now rewrite app_assoc, Hcat.
Qed.

Lemma for_each_grouped self doc xs :
  SemanticChunker.overlap self <= 0 ->
  forall consumed st st',
    for_each (SemanticChunker.body self doc) xs st = Ok st' ->
    grouped consumed st -> grouped (consumed ++ xs) st'.
Proof.
  intros Hov. induction xs as [|x xs IH]; intros consumed st st' E Hg.
  - cbn in E. inversion E; subst. now rewrite app_nil_r.
  - cbn [for_each] in E.
    destruct (SemanticChunker.body self doc st x) as [st1|e] eqn:Hb;
      [|discriminate].
    cbn [bind] in E.
    replace (consumed ++ x :: xs) with ((consumed ++ [x]) ++ xs)
      by now rewrite <- app_assoc.
    apply (IH _ st1 st' E). eapply body_grouped; eassumption.
Qed.

(** X9. With [overlap <= 0] nothing is carried from one chunk to the
    next: every chunk starts at the end offset of the chunk before it, and
    the texts of the chunks, put together with single spaces, are the
    normalized text. *)
Theorem SemanticChunker_without_overlap_partitions self t doc chunks :
  SemanticChunker.overlap self <= 0 ->
  SemanticChunker.chunk_text self t doc = Ok chunks ->
  Py.join (lit " ") (map text chunks) = SemanticChunker._normalize_text t
  /\ forall i c1 c2,
       nth_error chunks i = Some c1 -> nth_error chunks (S i) = Some c2 ->
       start_char c2 = end_char c1.
Proof.
  intros Hov E.
  pose proof (SemanticChunker_chunk_text_Ok_ink _ _ _ _ E) as Hink.
  split.
  - destruct (sentences_of_normalized t Hink) as (_ & _ & Hjoin).
    unfold SemanticChunker.chunk_text in E.
    destruct (negb (Py.truthy t) || negb (Py.truthy (Py.strip t)))%bool;
      [discriminate|].
    destruct (for_each _ _ _) as [st|e] eqn:Hloop; [|discriminate].
    cbn [bind] in E.
    destruct (for_each_grouped self doc (SemanticChunker.sentences_of t)
                Hov [] SemanticChunker.initial st Hloop)
      as (groups & Htext & Hne & Hcat).
    { exists []. repeat split. constructor. }
    cbn [app] in Hcat.
    destruct (Py.truthy (SemanticChunker.current_chunk st)) eqn:Hc.
    + destruct (new_DocumentChunk _ _ _ _ _) as [c|e] eqn:Hnew;
        [|discriminate].
      apply new_DocumentChunk_Ok in Hnew. destruct Hnew as (-> & _).
      cbn [bind] in E. inversion E; subst chunks. clear E.
      rewrite map_app, Htext. cbn [map text].
      change [Py.join [" "%char] (SemanticChunker.current_chunk st)]
        with (map (Py.join (lit " ")) [SemanticChunker.current_chunk st]).
      rewrite <- map_app, join_concat.
      * rewrite concat_app. cbn [List.concat]. rewrite app_nil_r.
        now rewrite Hcat.
      * apply Forall_app. split; [assumption|]. constructor; [|constructor].
        now apply truthy_true.
    + inversion E; subst chunks. clear E.
      apply truthy_false in Hc. rewrite Hc, app_nil_r in Hcat.
      rewrite Htext, join_concat by assumption. now rewrite Hcat.
  - destruct (SemanticChunker_chunk_text_returns self t doc Hink)
      as (chunks' & E' & _ & _ & Hlink).
    rewrite E in E'. inversion E'; subst chunks'.
    intros i c1 c2 H1 H2.
    destruct (Hlink i c1 c2 H1 H2) as (p & _ & _ & _ & _ & Heq).
    apply Heq. pose proof (len_nonneg p). lia.
Qed.

Lemma SemanticChunker_without_overlap_partitions_witness :
  exists chunks,
    SemanticChunker.chunk_text no_overlap_chunker three_sentences (lit "doc1")
    = Ok chunks
    /\ map (fun c => (start_char c, end_char c)) chunks
       = [(0, 21); (21, 42); (42, 65)]
    /\ Py.join (lit " ") (map text chunks)
       = SemanticChunker._normalize_text three_sentences
    /\ forall i c1 c2,
         nth_error chunks i = Some c1 -> nth_error chunks (S i) = Some c2 ->
         start_char c2 = end_char c1.
Proof.
  eexists. split; [vm_compute; reflexivity|].
  split; [reflexivity|].
  apply (SemanticChunker_without_overlap_partitions no_overlap_chunker
           three_sentences (lit "doc1")).
  - vm_compute. discriminate.
  - vm_compute. reflexivity.
Defined.

(** ** The round trip of [SemanticChunker] *)

Lemma last_default {A : Type} (l : list A) d d' :
  l <> [] -> last l d = last l d'.
Proof.
  induction l as [|a l IH]; [intros H; now elim H|]. intros _.
  destruct l as [|b l]; [reflexivity|].
  change (last (b :: l) d = last (b :: l) d'). apply IH. discriminate.
Qed.

Lemma last_cons_default {A : Type} (l : list A) a d :
  last (a :: l) d = last l a.
Proof.
  destruct l as [|b l]; [reflexivity|].
  change (last (b :: l) d = last (b :: l) a). apply last_default.
  discriminate.
Qed.

Lemma spaced_from_snoc rest :
  forall prev c,
    spaced_from prev (rest ++ [c])
    = spaced_from prev rest ++ after_space (last rest prev) c.
Proof.
  induction rest as [|a rest IH]; intros prev c.
  - cbn. now rewrite app_nil_r.
  - cbn [app spaced_from]. rewrite IH, last_cons_default.
    now rewrite app_assoc.
Qed.

Lemma begins_from_snoc rest :
  forall prev c,
    begins_from prev rest ->
    firstn (List.length (carried_prefix (last rest prev) c)) (text c)
    = carried_prefix (last rest prev) c ->
    begins_from prev (rest ++ [c]).
Proof.
  induction rest as [|a rest IH]; intros prev c Hb Hc.
  - cbn. now split.
  - cbn [app begins_from] in *. destruct Hb as [Ha Hb].
    split; [assumption|]. apply IH; [assumption|].
    now rewrite last_cons_default in Hc.
Qed.

Lemma carrying_fresh_spaced rest :
  forall prev,
    carrying_from prev rest = true ->
    List.concat (fresh_from prev rest) = spaced_from prev rest.
Proof.
  induction rest as [|c rest IH]; intros prev H; [reflexivity|].
  cbn [carrying_from] in H. apply andb_prop in H. destruct H as [Hc Hr].
  cbn [fresh_from List.concat spaced_from]. unfold after_space.
  now rewrite Hc, IH.
Qed.

Lemma join_snoc sep a s :
  a <> [] -> Py.join sep (a ++ [s]) = Py.join sep a ++ sep ++ s.
Proof. intros Ha. rewrite join_app by (assumption || discriminate). reflexivity. Qed.

Lemma join_suffix sep pre suf :
  exists head, Py.join sep (pre ++ suf) = head ++ Py.join sep suf.
Proof.
  induction pre as [|p pre (head & IH)]; [now exists []|].
  destruct (pre ++ suf) as [|q l] eqn:E.
  - apply app_eq_nil in E. destruct E as [-> ->]. exists p. cbn.
    now rewrite app_nil_r.
  - exists (p ++ sep ++ head). cbn [app]. rewrite E, join_cons2, IH.
    now rewrite <- !app_assoc.
Qed.

Lemma join_nonempty sep parts :
  parts <> [] -> Forall nonempty parts -> Py.join sep parts <> [].
Proof.
  intros Hne Hall. destruct Hall as [|p rest Hp _]; [now elim Hne|].
  destruct p as [|c p]; [now elim Hp|]. destruct rest; discriminate.
Qed.

(** The seed of the buffer is read back from the chunk just closed. *)
Lemma carried_pieces_seed self (c p : DocumentChunk) buffer :
  text c = Py.join (lit " ") buffer ->
  end_char c - start_char p
  = len (SemanticChunker._get_overlap_text self buffer) ->
  carried_pieces c p
  = filter (fun q => Py.truthy (Py.strip q))
      (Py.split (lit ". ") (SemanticChunker._get_overlap_text self buffer)).
Proof.
  intros Ht He. unfold carried_pieces, carried_text. rewrite He.
  destruct (overlap_text_is_joined_suffix self buffer)
    as (pre & suf & Eb & Eo).
  destruct (join_suffix (lit " ") pre suf) as (head & Eh).
  rewrite Ht, Eo. rewrite Eb at 1 2. rewrite Eh.
  unfold len. rewrite Nat2Z.id, length_app, Nat.add_sub.
  rewrite skipn_app, Nat.sub_diag, skipn_all. reflexivity.
Qed.

(** What a chunk made of its seed and of added sentences contributes. *)
Lemma seeded_chunk prev c added :
  added <> [] -> Forall nonempty (carried_pieces prev c) ->
  text c = Py.join (lit " ") (carried_pieces prev c ++ added) ->
  after_space prev c = lit " " ++ Py.join (lit " ") added
  /\ firstn (List.length (carried_prefix prev c)) (text c)
     = carried_prefix prev c.
Proof.
  intros Ha Hs Ht. unfold after_space, without_carry, carried_prefix.
  destruct (carried_pieces prev c) as [|q seed] eqn:Es.
  - cbn [app] in Ht. cbn. now rewrite Ht.
  - assert (Hj : Py.join (lit " ") (q :: seed) <> [])
      by (apply join_nonempty; [discriminate|assumption]).
    apply truthy_true in Hj as Htr. rewrite Htr.
    rewrite Ht, join_app by (assumption || discriminate).
    rewrite skipn_app, firstn_app, Nat.sub_diag, skipn_all, firstn_all.
    cbn [skipn firstn app]. now rewrite app_nil_r.
Qed.

Lemma rejoining_consumed doc consumed st :
  rejoining doc consumed st ->
  SemanticChunker.current_chunk st <> [] -> consumed <> [].
Proof.
  intros (seed & added & Hcc & _ & Hm) Hne C. subst consumed.
  destruct (SemanticChunker.chunks st) as [|c rest].
  - destruct Hm as [-> ->]. now rewrite Hcc in Hne.
  - destruct Hm as (_ & _ & _ & E). cbn [Py.join] in E.
    apply (f_equal (@List.length ascii)) in E.
    rewrite !length_app in E. cbn in E. lia.
Qed.

Lemma body_rejoining self doc consumed st st' s :
  SemanticChunker.body self doc st s = Ok st' ->
  rejoining doc consumed st ->
  rejoining doc (consumed ++ [s]) st'.
Proof.
  intros E Hinv. pose proof Hinv as (seed & added & Hcc & Hseed & Hm).
  unfold SemanticChunker.body in E.
  destruct (Py.truthy (SemanticChunker.current_chunk st)
            && (SemanticChunker.current_length st + len s
                >? SemanticChunker.chunk_size self))%bool eqn:Hc.
  - apply andb_prop in Hc. destruct Hc as [Hc _]. apply truthy_true in Hc.
    pose proof (rejoining_consumed doc consumed st Hinv Hc) as Hcons.
    unfold SemanticChunker.finalize in E.
    destruct (new_DocumentChunk _ _ _ _ _) as [c|e] eqn:Hnew;
      [|discriminate].
    apply new_DocumentChunk_Ok in Hnew. destruct Hnew as (Ec & _).
    assert (Epend : c = pending doc st) by (rewrite Ec; reflexivity).
    clear Ec. cbn [bind] in E.
    set (ot := SemanticChunker._get_overlap_text self
                 (SemanticChunker.current_chunk st)) in *.
    set (pieces := filter (fun p => Py.truthy (Py.strip p))
                     (Py.split (lit ". ") ot)) in *.
    inversion E as [E']; clear E.
    assert (Htext : text c
                    = Py.join (lit " ") (SemanticChunker.current_chunk st))
      by (rewrite Epend; reflexivity).
    assert (Hpieces : forall p,
               start_char p
               = SemanticChunker.start_char st
                 + len (Py.join (lit " ") (SemanticChunker.current_chunk st))
                 - len ot ->
               carried_pieces c p = pieces).
    { intros p Hp.
      apply (carried_pieces_seed self c p (SemanticChunker.current_chunk st));
        [assumption|].
      rewrite Epend, Hp. cbn [pending end_char]. fold ot. lia. }
    exists pieces, [s].
    cbn [SemanticChunker.current_chunk SemanticChunker.chunks].
    split; [reflexivity|]. split; [apply resplit_nonempty|].
    destruct (SemanticChunker.chunks st) as [|c0 rest] eqn:Echunks.
    + destruct Hm as [-> ->]. cbn [app] in Hcc. cbn [app last].
      split; [symmetry; apply Hpieces; reflexivity|].
      split; [discriminate|]. split; [exact I|].
      cbn [spaced_from Py.join]. rewrite app_nil_r, Htext, Hcc.
      now rewrite join_snoc.
    + destruct Hm as (Es & Ha & Hb & Eq).
      change ((c0 :: rest) ++ [c]) with (c0 :: (rest ++ [c])). cbn iota.
      rewrite last_last.
      split; [symmetry; apply Hpieces; reflexivity|].
      split; [discriminate|].
      assert (Hc' : text c
                    = Py.join (lit " ")
                        (carried_pieces (last rest c0) c ++ added)).
      { rewrite Htext, Hcc, Es, Epend. reflexivity. }
      assert (Hs' : Forall nonempty (carried_pieces (last rest c0) c)).
      { rewrite Epend, <- Es. exact Hseed. }
      destruct (seeded_chunk (last rest c0) c added Ha Hs' Hc')
        as [Hafter Hfirst].
      split; [now apply begins_from_snoc|].
      rewrite spaced_from_snoc, Hafter. cbn [Py.join].
      rewrite join_snoc by assumption. rewrite <- Eq.
      now rewrite <- !app_assoc.
  - cbn [bind] in E. inversion E as [E']; clear E.
    exists seed, (added ++ [s]).
    cbn [SemanticChunker.current_chunk SemanticChunker.chunks].
    split; [now rewrite Hcc, app_assoc|]. split; [assumption|].
    destruct (SemanticChunker.chunks st) as [|c0 rest] eqn:Echunks.
    + destruct Hm as [-> ->]. now split.
    + destruct Hm as (Es & Ha & Hb & Eq).
      split; [exact Es|].
      split; [intros C; now apply app_eq_nil in C|].
      split; [assumption|].
      assert (Hcons : consumed <> []).
      { apply (rejoining_consumed doc consumed st Hinv).
        rewrite Hcc. intros C. apply app_eq_nil in C. now destruct C. }
      rewrite !join_snoc by assumption. rewrite <- Eq.
      now rewrite <- !app_assoc.
Qed.

Lemma for_each_rejoining self doc xs :
  forall consumed st st',
    for_each (SemanticChunker.body self doc) xs st = Ok st' ->
    rejoining doc consumed st -> rejoining doc (consumed ++ xs) st'.
Proof.
  induction xs as [|x xs IH]; intros consumed st st' E Hr.
  - cbn in E. inversion E; subst. now rewrite app_nil_r.
  - cbn [for_each] in E.
    destruct (SemanticChunker.body self doc st x) as [st1|e] eqn:Hb;
      [|discriminate].
    cbn [bind] in E.
    replace (consumed ++ x :: xs) with ((consumed ++ [x]) ++ xs)
      by (now rewrite <- app_assoc).
    apply (IH _ st1 st' E). now apply (body_rejoining self doc consumed st).
Qed.

(** C1, as the code has it.  Every chunk after the first begins with its
    carried-overlap prefix: the overlap text of the chunk before it, split
    on [". "] and joined with spaces again.  The first chunk and then every
    later chunk without that prefix, put end to end, are the normalized
    text when a space is put before each chunk that carries nothing: such a
    chunk starts at the end of the chunk before it, and the space between
    the two is in neither.  So the concatenation alone is the normalized
    text whenever every later chunk carries some overlap. *)
Theorem SemanticChunker_round_trip_of_fresh_portions self t doc chunks :
  SemanticChunker.chunk_text self t doc = Ok chunks ->
  begins_with_carry chunks
  /\ reconstruct_fresh_spaced chunks = SemanticChunker._normalize_text t
  /\ (every_chunk_carries chunks = true ->
      reconstruct_fresh chunks = SemanticChunker._normalize_text t).
Proof.
  intros E.
  pose proof (SemanticChunker_chunk_text_Ok_ink _ _ _ _ E) as Hink.
  destruct (sentences_of_normalized t Hink) as (_ & _ & Hjoin).
  destruct (sentences_of_nonempty t Hink) as [Hsent _].
  assert (Hmain : begins_with_carry chunks
                  /\ reconstruct_fresh_spaced chunks
                     = SemanticChunker._normalize_text t).
  { unfold SemanticChunker.chunk_text in E.
    destruct (negb (Py.truthy t) || negb (Py.truthy (Py.strip t)))%bool;
      [discriminate|].
    destruct (for_each _ _ _) as [st|e] eqn:Hloop; [|discriminate].
    cbn [bind] in E.
    pose proof (for_each_rejoining self doc _ [] _ _ Hloop) as Hr.
    cbn [app] in Hr.
    destruct Hr as (seed & added & Hcc & Hseed & Hm).
    { exists [], []. repeat split; constructor. }
    rewrite <- Hjoin.
    destruct (Py.truthy (SemanticChunker.current_chunk st)) eqn:Hc.
    - destruct (new_DocumentChunk _ _ _ _ _) as [c|e] eqn:Hnew;
        [|discriminate].
      cbn [bind] in E. inversion E; subst chunks; clear E.
      apply new_DocumentChunk_Ok in Hnew. destruct Hnew as (Ec & _).
      assert (Epend : c = pending doc st) by (rewrite Ec; reflexivity).
      clear Ec.
      assert (Htext : text c
                      = Py.join (lit " ") (SemanticChunker.current_chunk st))
        by (rewrite Epend; reflexivity).
      destruct (SemanticChunker.chunks st) as [|c0 rest] eqn:Echunks.
      + destruct Hm as [-> ->]. cbn [app] in Hcc. cbn.
        split; [exact I|]. now rewrite app_nil_r, Htext, Hcc.
      + destruct Hm as (Es & Ha & Hb & Eq).
        change ((c0 :: rest) ++ [c]) with (c0 :: (rest ++ [c])).
        assert (Hc' : text c
                      = Py.join (lit " ")
                          (carried_pieces (last rest c0) c ++ added)).
        { rewrite Htext, Hcc, Es, Epend. reflexivity. }
        assert (Hs' : Forall nonempty (carried_pieces (last rest c0) c)).
        { rewrite Epend, <- Es. exact Hseed. }
        destruct (seeded_chunk (last rest c0) c added Ha Hs' Hc')
          as [Hafter Hfirst].
        cbn [begins_with_carry reconstruct_fresh_spaced].
        split; [now apply begins_from_snoc|].
        rewrite spaced_from_snoc, Hafter, <- Eq.
        now rewrite <- !app_assoc.
    - apply truthy_false in Hc. rewrite Hc in Hcc.
      symmetry in Hcc. apply app_eq_nil in Hcc. destruct Hcc as [-> ->].
      destruct (SemanticChunker.chunks st) as [|c0 rest].
      + destruct Hm as [_ Hm]. now elim Hsent.
      + destruct Hm as (_ & Ha & _). now elim Ha. }
  destruct Hmain as [Hb Hr]. split; [assumption|]. split; [assumption|].
  intros Hall. rewrite <- Hr. destruct chunks as [|c rest]; [reflexivity|].
  cbn [reconstruct_fresh reconstruct_fresh_spaced every_chunk_carries] in *.
  now rewrite carrying_fresh_spaced.
Qed.

(** On 77 sentences of 12 characters, 1000 characters in all, with
    [chunk_size = 512] and [overlap = 128]: three chunks, the second and
    the third with a carried-overlap prefix of 108 characters. *)
Lemma SemanticChunker_round_trip_of_fresh_portions_witness :
  len short_sentences_1000 = 1000
  /\ exists chunks,
       SemanticChunker.chunk_text default_semantic short_sentences_1000
         (lit "doc") = Ok chunks
       /\ map (fun c => (start_char c, end_char c, len (text c))) chunks
          = [(0, 506, 506); (390, 888, 498); (772, 984, 212)]
       /\ (exists c0 c1 c2,
             chunks = [c0; c1; c2]
             /\ len (carried_prefix c0 c1) = 108
             /\ len (carried_prefix c1 c2) = 108
             /\ map len (fresh_from c0 [c1; c2]) = [390; 104])
       /\ every_chunk_carries chunks = true
       /\ begins_with_carry chunks
       /\ reconstruct_fresh_spaced chunks
          = SemanticChunker._normalize_text short_sentences_1000
       /\ (every_chunk_carries chunks = true ->
           reconstruct_fresh chunks
           = SemanticChunker._normalize_text short_sentences_1000).
Proof.
  split; [vm_compute; reflexivity|].
  eexists. split; [vm_compute; reflexivity|].
  split; [vm_compute; reflexivity|].
  split.
  { do 3 eexists. split; [reflexivity|].
    repeat split; vm_compute; reflexivity. }
  split; [vm_compute; reflexivity|].
  apply (SemanticChunker_round_trip_of_fresh_portions default_semantic
           short_sentences_1000 (lit "doc")).
  vm_compute. reflexivity.
Defined.

(** C1 as stated fails on a 1000-character document of two sentences of 499
    and 500 characters: neither fits in the overlap window, nothing is
    carried, the second chunk starts where the first one ends, and the
    space between the two sentences is in neither chunk.  The concatenation
    has 999 characters. *)
Lemma SemanticChunker_round_trip_empty_carry_counterexample :
  exists chunks,
    len two_long_sentences = 1000
    /\ SemanticChunker._normalize_text two_long_sentences
       = two_long_sentences
    /\ SemanticChunker.chunk_size default_semantic = 512
    /\ SemanticChunker.overlap default_semantic = 128
    /\ SemanticChunker.chunk_text default_semantic two_long_sentences
         (lit "doc") = Ok chunks
    /\ map (fun c => (start_char c, end_char c, len (text c))) chunks
       = [(0, 499, 499); (499, 999, 500)]
    /\ every_chunk_carries chunks = false
    /\ len (reconstruct_fresh chunks) = 999
    /\ reconstruct_fresh chunks
       <> SemanticChunker._normalize_text two_long_sentences.
Proof.
  eexists.
  split; [vm_compute; reflexivity|].
  split; [vm_compute; reflexivity|].
  split; [reflexivity|]. split; [reflexivity|].
  split; [vm_compute; reflexivity|].
  split; [vm_compute; reflexivity|].
  split; [vm_compute; reflexivity|].
  split; [vm_compute; reflexivity|].
  intros E. apply (f_equal (@List.length ascii)) in E.
  vm_compute in E. discriminate.
Qed.
(** ** The windows of [FixedSizeChunker] *)

Lemma slice_window {A : Type} (l : list A) a b :
  0 <= a <= len l -> a <= b ->
  Py.slice l a b
  = firstn (Z.to_nat (Z.min b (len l) - a)) (skipn (Z.to_nat a) l).
Proof.
  intros Ha Hb. unfold Py.slice. rewrite (clamp_inside (len l) a) by lia.
  destruct (Z.le_gt_cases b (len l)).
  - rewrite (clamp_inside (len l) b), Z.min_l by lia. reflexivity.
  - rewrite (clamp_beyond (len l) b), Z.min_r by lia. reflexivity.
Qed.

Lemma len_slice_window {A : Type} (l : list A) a b :
  0 <= a <= len l -> a <= b ->
  len (Py.slice l a b) = Z.min b (len l) - a.
Proof.
  intros Ha Hb. rewrite slice_window by assumption.
  unfold len in *. rewrite length_firstn, length_skipn. lia.
Qed.

Lemma window_count_bounds self t :
  0 < stride self -> 1 <= len t ->
  (Z.of_nat (window_count self t) - 1) * stride self < len t
  /\ len t <= Z.of_nat (window_count self t) * stride self.
Proof.
  intros Hs Hn. unfold window_count.
  pose proof (Z.div_mod (len t + stride self - 1) (stride self)) as Hdm.
  pose proof (Z.mod_pos_bound (len t + stride self - 1) (stride self) Hs).
  assert (0 <= (len t + stride self - 1) / stride self)
    by (apply Z.div_pos; lia).
  rewrite Z2Nat.id by assumption. nia.
Qed.

Lemma FixedSizeChunker_loop_windows_run self t doc :
  0 < stride self -> 1 <= FixedSizeChunker.chunk_size self -> 1 <= len t ->
  forall fuel k,
    (k <= window_count self t)%nat ->
    (window_count self t - k <= fuel)%nat ->
    FixedSizeChunker.loop fuel self t doc (Z.of_nat k * stride self)
      (Z.of_nat k) (map (window_chunk self t doc) (seq 0 k))
    = Some (Ok (map (window_chunk self t doc)
                  (seq 0 (window_count self t)))).
Proof.
  intros Hs Hc Hn.
  destruct (window_count_bounds self t Hs Hn) as [Hlow Hhigh].
  induction fuel as [|fuel IH]; intros k Hk Hfuel.
  - assert (k = window_count self t) by lia. subst k.
    cbn [FixedSizeChunker.loop].
    destruct (Z.ltb_spec (Z.of_nat (window_count self t) * stride self)
                (len t)); [lia|reflexivity].
  - cbn [FixedSizeChunker.loop].
    destruct (Z.ltb_spec (Z.of_nat k * stride self) (len t)) as [Hlt|Hge].
    + assert (Hk' : (k < window_count self t)%nat) by nia.
      rewrite new_DocumentChunk_valid.
      * replace (Z.of_nat k * stride self
                 + (FixedSizeChunker.chunk_size self
                    - FixedSizeChunker.overlap self))
          with (Z.of_nat (S k) * stride self) by (unfold stride; lia).
        replace (Z.of_nat k + 1) with (Z.of_nat (S k)) by lia.
        specialize (IH (S k)). rewrite seq_S, map_app in IH.
        apply IH; lia.
      * lia.
      * rewrite len_slice_window by nia. lia.
      * nia.
      * lia.
    + assert (k = window_count self t) by nia. now subst k.
Qed.

Lemma FixedSizeChunker_chunk_text_windows self t doc fuel :
  1 <= FixedSizeChunker.chunk_size self ->
  FixedSizeChunker.overlap self < FixedSizeChunker.chunk_size self ->
  Py.strip t <> [] ->
  (window_count self (Py.strip t) <= fuel)%nat ->
  FixedSizeChunker.chunk_text fuel self t doc
  = Some (Ok (map (window_chunk self (Py.strip t) doc)
                (seq 0 (window_count self (Py.strip t))))).
Proof.
  intros Hc Ho Hink Hfuel.
  unfold FixedSizeChunker.chunk_text.
  assert (Ht : Py.truthy t = true).
  { destruct t; [now elim Hink|reflexivity]. }
  apply truthy_true in Hink as Hs. rewrite Ht, Hs. cbn [negb orb].
  apply (FixedSizeChunker_loop_windows_run self (Py.strip t) doc)
    with (k := 0%nat); try lia.
  - unfold stride. lia.
  - now apply len_pos_nonempty.
Qed.

(** X10. With [chunk_size >= 1] and [overlap < chunk_size], on text that
    is not blank and with fuel for every window, [FixedSizeChunker.chunk_text]
    returns, without raising, one chunk per window: as many as the length
    of the trimmed text divided by [chunk_size - overlap], rounded up, the
    chunk number [i] holding index [i] and the slice of the trimmed text
    from [i * (chunk_size - overlap)] over [chunk_size] characters. *)
Theorem FixedSizeChunker_returns_the_windows self t doc fuel :
  1 <= FixedSizeChunker.chunk_size self ->
  FixedSizeChunker.overlap self < FixedSizeChunker.chunk_size self ->
  Py.strip t <> [] ->
  (window_count self (Py.strip t) <= fuel)%nat ->
  FixedSizeChunker.chunk_text fuel self t doc
  = Some (Ok (map (window_chunk self (Py.strip t) doc)
                (seq 0 (window_count self (Py.strip t)))))
  /\ Z.of_nat (window_count self (Py.strip t))
     = (len (Py.strip t) + stride self - 1) / stride self.
Proof.
  intros Hc Ho Hink Hfuel. split.
  - now apply FixedSizeChunker_chunk_text_windows.
  - unfold window_count. apply Z2Nat.id. apply Z.div_pos.
    + pose proof (len_nonneg (Py.strip t)). unfold stride. lia.
    + unfold stride. lia.
Qed.

Lemma FixedSizeChunker_returns_the_windows_witness :
  window_count window_chunker (Py.strip two_hundred_A) = 5%nat
  /\ FixedSizeChunker.chunk_text 5 window_chunker two_hundred_A (lit "doc")
     = Some (Ok (map (window_chunk window_chunker (Py.strip two_hundred_A)
                        (lit "doc"))
                   (seq 0 (window_count window_chunker
                             (Py.strip two_hundred_A)))))
  /\ Z.of_nat (window_count window_chunker (Py.strip two_hundred_A))
     = (len (Py.strip two_hundred_A) + stride window_chunker - 1)
       / stride window_chunker.
Proof.
  split; [vm_compute; reflexivity|].
  apply (FixedSizeChunker_returns_the_windows window_chunker two_hundred_A
           (lit "doc") 5).
  - vm_compute. discriminate.
  - reflexivity.
  - vm_compute. discriminate.
  - vm_compute. lia.
Defined.

Lemma slice_window_span {A : Type} (l : list A) a b :
  0 <= a <= len l -> a <= b ->
  Py.slice l a b = firstn (Z.to_nat (b - a)) (skipn (Z.to_nat a) l).
Proof.
  intros Ha Hb. rewrite slice_window by assumption.
  destruct (Z.le_gt_cases b (len l)).
  - now rewrite Z.min_l by lia.
  - rewrite Z.min_r by lia.
    rewrite !firstn_all2; [reflexivity| |];
      rewrite length_skipn; unfold len in *; lia.
Qed.

(** The portions of the windows after window [j] are the text from the
    end of window [j] on. *)
Lemma window_portions_cover self t doc m :
  0 <= FixedSizeChunker.overlap self ->
  0 < stride self ->
  forall j,
    ((1 <= m)%nat -> Z.of_nat (j + m) * stride self < len t) ->
    len t <= Z.of_nat (S j + m) * stride self ->
    List.concat
      (portions_from
         (Z.of_nat j * stride self + FixedSizeChunker.chunk_size self)
         (map (window_chunk self t doc) (seq (S j) m)))
    = skipn (Z.to_nat (Z.of_nat j * stride self
                       + FixedSizeChunker.chunk_size self)) t.
Proof.
  intros Ho Hs. unfold stride in Hs.
  induction m as [|m IH]; intros j Hlast Hend.
  - cbn. symmetry. apply skipn_all2. unfold len, stride in *. lia.
  - cbn [seq map portions_from List.concat].
    specialize (IH (S j)).
    cbn [end_char start_char text window_chunk].
    rewrite IH.
    + assert (Ha : 0 <= Z.of_nat (S j) * stride self < len t).
      { specialize (Hlast ltac:(lia)). unfold stride in *. nia. }
      rewrite slice_window_span by (unfold stride in *; lia).
      rewrite skipn_firstn_comm, skipn_skipn.
      replace (Z.of_nat j * stride self + FixedSizeChunker.chunk_size self
               - Z.of_nat (S j) * stride self)
        with (FixedSizeChunker.overlap self) by (unfold stride; lia).
      replace (Z.of_nat (S j) * stride self
               + FixedSizeChunker.chunk_size self
               - Z.of_nat (S j) * stride self)
        with (FixedSizeChunker.chunk_size self) by lia.
      set (p := Z.to_nat (Z.of_nat j * stride self
                          + FixedSizeChunker.chunk_size self)).
      replace (Z.to_nat (FixedSizeChunker.overlap self)
               + Z.to_nat (Z.of_nat (S j) * stride self))%nat with p
        by (unfold p, stride in *; lia).
      replace (Z.to_nat (Z.of_nat (S j) * stride self
                         + FixedSizeChunker.chunk_size self))
        with (Z.to_nat (stride self) + p)%nat
        by (unfold p, stride in *; lia).
      replace (Z.to_nat (FixedSizeChunker.chunk_size self)
               - Z.to_nat (FixedSizeChunker.overlap self))%nat
        with (Z.to_nat (stride self)) by (unfold stride; lia).
      rewrite <- skipn_skipn. apply firstn_skipn.
    + intros Hm. replace (S j + m)%nat with (j + S m)%nat by lia.
      apply Hlast. lia.
    + replace (S (S j) + m)%nat with (S j + S m)%nat by lia. exact Hend.
Qed.

Lemma FixedSizeChunker_loop_fuel self t doc fuel :
  forall start chunk_index chunks r fuel',
    FixedSizeChunker.loop fuel self t doc start chunk_index chunks = Some r ->
    (fuel <= fuel')%nat ->
    FixedSizeChunker.loop fuel' self t doc start chunk_index chunks = Some r.
Proof.
  induction fuel as [|fuel IH]; intros start chunk_index chunks r fuel' E Hf;
    cbn [FixedSizeChunker.loop] in E.
  - destruct fuel'; cbn [FixedSizeChunker.loop];
      destruct (start <? len t); try discriminate; assumption.
  - destruct fuel' as [|fuel']; [lia|]. cbn [FixedSizeChunker.loop].
    destruct (start <? len t); [|assumption].
    destruct (new_DocumentChunk _ _ _ _ _); [|assumption].
    apply (IH _ _ _ _ fuel' E). lia.
Qed.

(** X11. With [0 <= overlap < chunk_size], the chunks of
    [FixedSizeChunker.chunk_text] give the trimmed text back: the first
    chunk whole, then of every chunk what lies beyond the end offset of the
    chunk before it, put end to end. *)
Theorem FixedSizeChunker_round_trip self t doc fuel chunks :
  0 <= FixedSizeChunker.overlap self ->
  FixedSizeChunker.overlap self < FixedSizeChunker.chunk_size self ->
  FixedSizeChunker.chunk_text fuel self t doc = Some (Ok chunks) ->
  reconstruct chunks = Py.strip t.
Proof.
  intros Ho Hc E.
  assert (Hink : Py.strip t <> []).
  { unfold FixedSizeChunker.chunk_text in E.
    destruct (Py.truthy t) eqn:Ht; [|discriminate].
    destruct (Py.truthy (Py.strip t)) eqn:Hs; [|discriminate].
    now apply truthy_true. }
  set (u := Py.strip t) in *.
  assert (E' : FixedSizeChunker.chunk_text (fuel + window_count self u)
                 self t doc = Some (Ok chunks)).
  { unfold FixedSizeChunker.chunk_text in *.
    destruct (negb (Py.truthy t) || negb (Py.truthy (Py.strip t)))%bool;
      [assumption|].
    apply (FixedSizeChunker_loop_fuel _ _ _ fuel); [assumption|lia]. }
  pose proof (FixedSizeChunker_chunk_text_windows self t doc
                (fuel + window_count self u)) as E''.
  fold u in E''. rewrite E' in E''.
  assert (Ew : Some (Ok chunks)
               = Some (Ok (map (window_chunk self u doc)
                             (seq 0 (window_count self u)))))
    by (apply E''; try assumption; lia).
  clear E''. rename Ew into E''.
  inversion E''; subst chunks. clear E E' E''.
  fold u.
  assert (Hn : 1 <= len u) by now apply len_pos_nonempty.
  assert (Hs : 0 < stride self) by (unfold stride; lia).
  destruct (window_count_bounds self u Hs Hn) as [Hlow Hhigh].
  destruct (window_count self u) as [|m] eqn:Em; [lia|].
  cbn [seq map]. unfold reconstruct. cbn [portions List.concat].
  cbn [end_char text window_chunk].
  change (Z.of_nat 0 * stride self) with 0.
  pose proof (window_portions_cover self u doc m Ho Hs 0%nat) as Hcover.
  change (Z.of_nat 0 * stride self) with 0 in Hcover.
  rewrite Hcover.
  - rewrite slice_window_span by lia.
    cbn [Z.add]. rewrite Z.sub_0_r. cbn [Z.to_nat skipn].
    apply firstn_skipn.
  - intros _. cbn [Nat.add]. lia.
  - exact Hhigh.
Qed.

Lemma FixedSizeChunker_round_trip_witness :
  exists chunks,
    FixedSizeChunker.chunk_text 5 window_chunker two_hundred_A (lit "doc")
    = Some (Ok chunks)
    /\ reconstruct chunks = Py.strip two_hundred_A.
Proof.
  eexists. split; [vm_compute; reflexivity|].
  apply (FixedSizeChunker_round_trip window_chunker two_hundred_A
           (lit "doc") 5).
  - vm_compute. discriminate.
  - reflexivity.
  - vm_compute. reflexivity.
Defined.

Lemma new_DocumentChunk_invalid doc i t a b :
  i < 0 \/ len t < 1 \/ a < 0 \/ b < 1 \/ b <= a ->
  exists field, new_DocumentChunk doc i t a b = Raise (ValidationError field).
Proof.
  intros H. unfold new_DocumentChunk.
  destruct (Z.leb_spec 0 i); cbn [negb]; [|eauto].
  destruct (Z.leb_spec 1 (len t)); cbn [negb]; [|eauto].
  destruct (Z.leb_spec 0 a); cbn [negb]; [|eauto].
  destruct (Z.leb_spec 1 b); cbn [negb]; [|eauto].
  destruct (Z.leb_spec b a); [eauto|lia].
Qed.

(** X12. A [FixedSizeChunker] with [chunk_size <= 0] or with
    [overlap > chunk_size], which the constructor accepts, returns no
    chunks on any text that is not blank: the validation of a chunk record
    fails, at the first window or at the second. *)
Theorem FixedSizeChunker_bad_sizes_raise self t doc fuel :
  FixedSizeChunker.chunk_size self <= 0
  \/ FixedSizeChunker.chunk_size self < FixedSizeChunker.overlap self ->
  Py.strip t <> [] -> (2 <= fuel)%nat ->
  exists field,
    FixedSizeChunker.chunk_text fuel self t doc
    = Some (Raise (ValidationError field)).
Proof.
  intros Hbad Hink Hfuel. unfold FixedSizeChunker.chunk_text.
  assert (Ht : Py.truthy t = true).
  { destruct t; [now elim Hink|reflexivity]. }
  apply truthy_true in Hink as Hs. rewrite Ht, Hs. cbn [negb orb].
  set (u := Py.strip t).
  assert (Hn : 1 <= len u) by now apply len_pos_nonempty.
  destruct fuel as [|[|fuel]]; try lia.
  cbn [FixedSizeChunker.loop].
  destruct (Z.ltb_spec 0 (len u)); [|lia].
  destruct (Z.le_gt_cases (FixedSizeChunker.chunk_size self) 0) as [Hc|Hc].
  - destruct (new_DocumentChunk_invalid doc 0
                (Py.slice u 0 (0 + FixedSizeChunker.chunk_size self)) 0
                (0 + FixedSizeChunker.chunk_size self)) as [f ->];
      [lia|eauto].
  - destruct Hbad as [Hbad|Hbad]; [lia|].
    rewrite new_DocumentChunk_valid;
      [|lia|rewrite len_slice_window by lia; lia|lia|lia].
    destruct (Z.ltb_spec (0 + (FixedSizeChunker.chunk_size self
                               - FixedSizeChunker.overlap self)) (len u));
      [|lia].
    match goal with
    | |- context [new_DocumentChunk ?d ?i ?x ?a ?b] =>
        destruct (new_DocumentChunk_invalid d i x a b) as [f ->];
          [lia|eauto]
    end.
Qed.

Lemma FixedSizeChunker_bad_sizes_raise_witness :
  FixedSizeChunker.init 10 15 = Ok reversed_chunker
  /\ exists field,
       FixedSizeChunker.chunk_text 2 reversed_chunker two_hundred_A
         (lit "doc")
       = Some (Raise (ValidationError field)).
Proof.
  split; [reflexivity|].
  apply (FixedSizeChunker_bad_sizes_raise reversed_chunker two_hundred_A
           (lit "doc") 2).
  - right. cbn. lia.
  - vm_compute. discriminate.
  - lia.
Defined.

Lemma FixedSizeChunker_loop_stuck self t doc fuel :
  1 <= FixedSizeChunker.chunk_size self ->
  FixedSizeChunker.overlap self = FixedSizeChunker.chunk_size self ->
  1 <= len t ->
  forall chunk_index chunks,
    0 <= chunk_index ->
    FixedSizeChunker.loop fuel self t doc 0 chunk_index chunks = None.
Proof.
  intros Hc Ho Hn. induction fuel as [|fuel IH]; intros chunk_index chunks Hi;
    cbn [FixedSizeChunker.loop];
    destruct (Z.ltb_spec 0 (len t)); try lia; [reflexivity|].
  rewrite new_DocumentChunk_valid;
    [|lia|rewrite len_slice_window by lia; lia|lia|lia].
  rewrite Ho, Z.sub_diag. cbn [Z.add]. apply IH. lia.
Qed.

(** X13. A [FixedSizeChunker] with [overlap = chunk_size >= 1], which the
    constructor accepts, returns nothing and raises nothing on any text
    that is not blank: the start offset stays 0, whatever the fuel. *)
Theorem FixedSizeChunker_equal_sizes_diverge self t doc :
  1 <= FixedSizeChunker.chunk_size self ->
  FixedSizeChunker.overlap self = FixedSizeChunker.chunk_size self ->
  Py.strip t <> [] ->
  forall fuel, FixedSizeChunker.chunk_text fuel self t doc = None.
Proof.
  intros Hc Ho Hink fuel. unfold FixedSizeChunker.chunk_text.
  assert (Ht : Py.truthy t = true).
  { destruct t; [now elim Hink|reflexivity]. }
  apply truthy_true in Hink as Hs. rewrite Ht, Hs. cbn [negb orb].
  apply FixedSizeChunker_loop_stuck; try assumption; try lia.
  now apply len_pos_nonempty.
Qed.

Lemma FixedSizeChunker_equal_sizes_diverge_witness :
  FixedSizeChunker.chunk_text 1000 stuck_chunker two_hundred_A (lit "doc")
  = None.
Proof.
  apply (FixedSizeChunker_equal_sizes_diverge stuck_chunker two_hundred_A
           (lit "doc")).
  - cbn. lia.
  - reflexivity.
  - vm_compute. discriminate.
Defined.

(** ** Statistics of the chunks *)

Lemma fold_min_spec rest :
  forall x,
    py_min x rest <= x
    /\ Forall (fun y => py_min x rest <= y) rest
    /\ In (py_min x rest) (x :: rest).
Proof.
  unfold py_min. induction rest as [|y rest IH]; intros x.
  - cbn. repeat split; [lia|constructor|now left].
  - cbn [fold_left]. destruct (IH (Z.min x y)) as (H1 & H2 & H3).
    split; [lia|]. split.
    + constructor; [lia|assumption].
    + destruct H3 as [H3|H3]; [|right; now right].
      destruct (Z.min_spec x y) as [[_ E]|[_ E]]; [left|right; left];
        congruence.
Qed.

Lemma fold_max_spec rest :
  forall x,
    x <= py_max x rest
    /\ Forall (fun y => y <= py_max x rest) rest
    /\ In (py_max x rest) (x :: rest).
Proof.
  unfold py_max. induction rest as [|y rest IH]; intros x.
  - cbn. repeat split; [lia|constructor|now left].
  - cbn [fold_left]. destruct (IH (Z.max x y)) as (H1 & H2 & H3).
    split; [lia|]. split.
    + constructor; [lia|assumption].
    + destruct H3 as [H3|H3]; [|right; now right].
      destruct (Z.max_spec x y) as [[_ E]|[_ E]]; [right; left|left];
        congruence.
Qed.

Lemma fold_add_from l : forall a, fold_left Z.add l a = a + py_sum l.
Proof.
  unfold py_sum. induction l as [|x l IH]; intros a; cbn [fold_left]; [lia|].
  rewrite (IH (a + x)), (IH (0 + x)). lia.
Qed.

Lemma py_sum_cons x l : py_sum (x :: l) = x + py_sum l.
Proof. unfold py_sum at 1. cbn [fold_left]. now rewrite fold_add_from. Qed.

Lemma py_sum_between lo hi l :
  Forall (fun y => lo <= y <= hi) l ->
  len l * lo <= py_sum l <= len l * hi.
Proof.
  induction 1 as [|x l Hx _ IH]; [cbn; lia|].
  rewrite py_sum_cons. unfold len in *. cbn [List.length].
  rewrite Nat2Z.inj_succ. nia.
Qed.

(** X14. [get_chunk_stats] answers the error dictionary exactly on no
    chunks.  On chunks, the count is their number, the total is the sum of
    the lengths of their texts, the minimum and the maximum are lengths of
    chunks that are there, and count times minimum <= total <= count times
    maximum, so the average lies between minimum and maximum. *)
Theorem get_chunk_stats_consistent chunks :
  chunks <> [] ->
  get_chunk_stats [] = StatsError "No chunks provided"
  /\ exists s,
       get_chunk_stats chunks = Stats s
       /\ total_chunks s = len chunks
       /\ total_characters s = py_sum (map (fun c => len (text c)) chunks)
       /\ (exists c, In c chunks /\ len (text c) = min_chunk_length s)
       /\ (exists c, In c chunks /\ len (text c) = max_chunk_length s)
       /\ Forall (fun c => min_chunk_length s <= len (text c)
                           <= max_chunk_length s) chunks
       /\ total_chunks s * min_chunk_length s <= total_characters s
          <= total_chunks s * max_chunk_length s
       /\ (inject_Z (min_chunk_length s) <= avg_chunk_length s
           <= inject_Z (max_chunk_length s))%Q.
Proof.
  intros Hne. split; [reflexivity|]. unfold get_chunk_stats.
  destruct chunks as [|c0 chunks]; [now elim Hne|]. clear Hne.
  cbn [map]. set (x := len (text c0)).
  set (rest := map (fun c => len (text c)) chunks).
  eexists. split; [reflexivity|].
  cbn [total_chunks total_characters min_chunk_length max_chunk_length
       avg_chunk_length].
  destruct (fold_min_spec rest x) as (Hm1 & Hm2 & Hm3).
  destruct (fold_max_spec rest x) as (HM1 & HM2 & HM3).
  assert (Hall : Forall (fun y => py_min x rest <= y <= py_max x rest)
                   (x :: rest)).
  { constructor; [lia|]. rewrite Forall_forall in *.
    intros y Hy. split; [now apply Hm2|now apply HM2]. }
  assert (Hin : forall v, In v (x :: rest) ->
                  exists c, In c (c0 :: chunks) /\ len (text c) = v).
  { intros v [<-|Hv]; [exists c0; split; [now left|reflexivity]|].
    unfold rest in Hv. apply in_map_iff in Hv.
    destruct Hv as (c & <- & Hc). exists c. split; [now right|reflexivity]. }
  pose proof (py_sum_between _ _ _ Hall) as Hsum.
  assert (Hlen : len (x :: rest) = len (c0 :: chunks)).
  { unfold len, rest. cbn [List.length]. now rewrite length_map. }
  rewrite Hlen in Hsum.
  split; [reflexivity|]. split; [reflexivity|].
  split; [now apply Hin|]. split; [now apply Hin|].
  split.
  { change (Forall (fun c => (fun y => py_min x rest <= y <= py_max x rest)
                               (len (text c))) (c0 :: chunks)).
    apply Forall_map. exact Hall. }
  split; [exact Hsum|].
  unfold Qle. cbn [Qnum Qden inject_Z].
  assert (Hp : Z.pos (Pos.of_nat (List.length (x :: rest)))
               = len (c0 :: chunks)).
  { rewrite <- Hlen. unfold len. cbn [List.length]. lia. }
  rewrite Hp. lia.
Qed.

Lemma get_chunk_stats_consistent_witness :
  get_chunk_stats [] = StatsError "No chunks provided"
  /\ exists s,
       get_chunk_stats scenario_chunks = Stats s
       /\ total_chunks s = len scenario_chunks
       /\ total_characters s
          = py_sum (map (fun c => len (text c)) scenario_chunks)
       /\ (exists c, In c scenario_chunks
                     /\ len (text c) = min_chunk_length s)
       /\ (exists c, In c scenario_chunks
                     /\ len (text c) = max_chunk_length s)
       /\ Forall (fun c => min_chunk_length s <= len (text c)
                           <= max_chunk_length s) scenario_chunks
       /\ total_chunks s * min_chunk_length s <= total_characters s
          <= total_chunks s * max_chunk_length s
       /\ (inject_Z (min_chunk_length s) <= avg_chunk_length s
           <= inject_Z (max_chunk_length s))%Q.
Proof.
  apply (get_chunk_stats_consistent scenario_chunks).
  vm_compute. discriminate.
Defined.

(** ** The number of sentences selected *)

(** [np.argmax] returns a position of the array. *)
Lemma argmax_from_range {N : Numeric} (l : list float) :
  forall best_idx best i,
    (best_idx < i)%nat ->
    (ExtractiveSummarizer.argmax_from best_idx best i l
     < i + List.length l)%nat.
Proof.
  induction l as [|y l IH]; intros best_idx best i Hlt;
    cbn [ExtractiveSummarizer.argmax_from List.length]; [lia|].
  destruct (gt y best).
  - specialize (IH i y (S i)). lia.
  - specialize (IH best_idx best (S i)). lia.
Qed.

Section SelectionCount.

Context {N : Numeric}.
Variable self : ExtractiveSummarizer.t.
Variable scores : list float.
Variable embeddings : list vector.
Hypothesis matching : List.length embeddings = List.length scores.

(** The loop stops only at the requested count or on running out of
    candidates. *)
Lemma select_loop_count max_count fuel :
  forall selected remaining,
    (List.length remaining <= fuel)%nat ->
    selected <> [] ->
    Permutation (selected ++ remaining) (seq 0 (List.length scores)) ->
    exists res rest,
      ExtractiveSummarizer.select_loop fuel self scores embeddings
        max_count selected remaining = Some (Ok res)
      /\ Permutation (res ++ rest) (seq 0 (List.length scores))
      /\ len res
         = Z.max (len selected)
             (Z.min max_count (len selected + len remaining)).
Proof.
  induction fuel as [|fuel IH]; intros selected remaining Hfuel Hne Hperm;
    cbn [ExtractiveSummarizer.select_loop];
    destruct (Z.ltb_spec (len selected) max_count) as [Hlt|Hge];
    destruct (Py.truthy remaining) eqn:Hrem; cbn [andb];
    try (exists selected, remaining;
         split; [reflexivity|]; split; [assumption|];
         try (apply truthy_false in Hrem; subst remaining);
         unfold len in *; cbn [List.length] in *; lia).
  - apply truthy_true in Hrem. destruct remaining; [now elim Hrem|].
    simpl in Hfuel. lia.
  - apply truthy_true in Hrem.
    assert (Hall : in_range scores (selected ++ remaining)).
    { unfold in_range. eapply Permutation_Forall;
        [apply Permutation_sym; exact Hperm|].
      apply Forall_forall. intros i Hi. apply in_seq in Hi. lia. }
    apply Forall_app in Hall. destruct Hall as [Hsel Hr].
    destruct (round_appends self scores embeddings matching selected
                remaining Hne Hsel Hrem Hr)
      as (x & r' & -> & Hp).
    apply Permutation_length in Hp as Hl. cbn [List.length] in Hl.
    destruct (IH (selected ++ [x]) r') as (res & rest & E & P & L).
    + lia.
    + intros C. now apply app_eq_nil in C.
    + rewrite <- Hperm, <- app_assoc. simpl.
      apply Permutation_app_head. now apply Permutation_sym.
    + exists res, rest. split; [assumption|]. split; [assumption|].
      rewrite L, len_app. unfold len in *. cbn [List.length]. lia.
Qed.

End SelectionCount.

Lemma select_diverse_count {N : Numeric}
    (self : ExtractiveSummarizer.t) (scores : list float)
    (embeddings : list vector) (max_count : Z) (fuel : nat) :
  scores <> [] ->
  List.length embeddings = List.length scores ->
  (List.length scores <= fuel)%nat ->
  exists selected rest,
    ExtractiveSummarizer._select_diverse_sentences fuel self scores
      embeddings max_count = Some (Ok selected)
    /\ len selected = Z.min (Z.max 1 max_count) (len scores)
    /\ Permutation (selected ++ rest) (seq 0 (List.length scores)).
Proof.
  intros Hne Hmatch Hfuel.
  unfold ExtractiveSummarizer._select_diverse_sentences.
  destruct scores as [|x tl] eqn:Es; [now elim Hne|]. rewrite <- Es in *.
  assert (Ea : ExtractiveSummarizer.np_argmax scores
               = Ok (ExtractiveSummarizer.argmax_from 0%nat x 1%nat tl))
    by (rewrite Es; reflexivity).
  rewrite Ea. cbn [bind].
  set (b := ExtractiveSummarizer.argmax_from 0%nat x 1%nat tl).
  assert (Hb : (b < List.length scores)%nat).
  { rewrite Es. cbn [List.length]. unfold b.
    apply (argmax_from_range tl 0%nat x 1%nat); lia. }
  assert (Hin : In b (seq 0 (List.length scores)))
    by (apply in_seq; lia).
  destruct (list_remove_In b _ Hin) as (rem & -> & Hperm). cbn [bind].
  apply Permutation_length in Hperm as Hl. rewrite length_seq in Hl.
  cbn [List.length] in Hl.
  destruct (select_loop_count self scores embeddings Hmatch max_count fuel
              [b] rem)
    as (res & rest & E & P & L).
  - lia.
  - discriminate.
  - now apply Permutation_sym.
  - exists res, rest. split; [assumption|]. split; [|assumption].
    rewrite L. unfold len in *. cbn [List.length]. lia.
Qed.

(** X15. On scores that are not empty, with matching embeddings, the
    selection has exactly [min(max(1, max_sentences), len(scores))]
    indices: the loop never stops short of the requested count while
    candidates are left, because a round in which every candidate is too
    similar still takes the highest-scoring one.  What is selected and what
    is left are together the indices [0 .. len(scores) - 1], each once. *)
Theorem select_diverse_exact_count {N : Numeric}
    (self : ExtractiveSummarizer.t) (scores : list float)
    (embeddings : list vector) (max_count : Z) (fuel : nat) :
  scores <> [] ->
  List.length embeddings = List.length scores ->
  (List.length scores <= fuel)%nat ->
  exists selected rest,
    ExtractiveSummarizer._select_diverse_sentences fuel self scores
      embeddings max_count = Some (Ok selected)
    /\ len selected = Z.min (Z.max 1 max_count) (len scores)
    /\ Permutation (selected ++ rest) (seq 0 (List.length scores)).
Proof. apply select_diverse_count. Qed.

Lemma select_diverse_exact_count_witness :
  exists selected rest,
    ExtractiveSummarizer._select_diverse_sentences 3 q_self far_scores
      far_embeddings 5 = Some (Ok selected)
    /\ len selected = Z.min (Z.max 1 5) (len far_scores)
    /\ Permutation (selected ++ rest) (seq 0 (List.length far_scores)).
Proof.
  apply (select_diverse_exact_count q_self far_scores far_embeddings 5 3).
  - discriminate.
  - reflexivity.
  - simpl. lia.
Defined.

(** ** The candidate sentences of [summarize] *)

Lemma In_combine_seq {A : Type} (l : list A) :
  forall k i x,
    In (i, x) (combine (seq k (List.length l)) l)
    <-> (k <= i)%nat /\ nth_error l (i - k) = Some x.
Proof.
  induction l as [|y l IH]; intros k i x; cbn [List.length seq combine In].
  - split; [intros []|]. intros [_ H]. now destruct (i - k)%nat.
  - rewrite IH. split.
    + intros [E|[Hle Hn]].
      * inversion E; subst. rewrite Nat.sub_diag. now split.
      * split; [lia|]. replace (i - k)%nat with (S (i - S k)) by lia.
        exact Hn.
    + intros [Hle Hn]. destruct (Nat.eq_dec k i) as [->|Hne].
      * rewrite Nat.sub_diag in Hn. cbn in Hn. inversion Hn. now left.
      * right. split; [lia|].
        replace (i - k)%nat with (S (i - S k)) in Hn by lia. exact Hn.
Qed.

Lemma In_enumerate {A : Type} (l : list A) i x :
  In (i, x) (enumerate l) <-> nth_error l i = Some x.
Proof.
  unfold enumerate. rewrite In_combine_seq, Nat.sub_0_r.
  split; [now intros [_ H]|]. intros H. split; [lia|assumption].
Qed.

Lemma StronglySorted_append {A : Type} (R : A -> A -> Prop) l1 l2 :
  StronglySorted R l1 -> StronglySorted R l2 ->
  (forall a b, In a l1 -> In b l2 -> R a b) ->
  StronglySorted R (l1 ++ l2).
Proof.
  induction 1 as [|a l1 H1 IH Ha]; intros H2 Hc; [assumption|].
  cbn [app]. constructor.
  - apply IH; [assumption|]. intros x y Hx Hy. apply Hc; [now right|easy].
  - apply Forall_app. split; [assumption|].
    apply Forall_forall. intros y Hy. apply Hc; [now left|assumption].
Qed.

(** A [flat_map] over numbered elements is sorted when each output is and
    the outputs of a lower number come before those of a higher one. *)
Lemma flat_map_numbered_sorted {A B : Type} (R : B -> B -> Prop)
    (f : nat * A -> list B) :
  (forall i x, StronglySorted R (f (i, x))) ->
  (forall i x j y a b,
     (i < j)%nat -> In a (f (i, x)) -> In b (f (j, y)) -> R a b) ->
  forall l k, StronglySorted R (flat_map f (combine (seq k (List.length l)) l)).
Proof.
  intros Hs Hlt. induction l as [|x l IH]; intros k;
    cbn [List.length seq combine flat_map]; [constructor|].
  apply StronglySorted_append; [apply Hs|apply IH|].
  intros a b Ha Hb.
  apply in_flat_map in Hb. destruct Hb as ([j y] & Hj & Hb).
  apply In_combine_seq in Hj. apply (Hlt k x j y); [lia|assumption..].
Qed.

Lemma candidates_sorted (texts : list str) :
  StronglySorted source_lt (ExtractiveSummarizer.sentences_with_source texts).
Proof.
  assert (Hone : forall i (ss : nat * str) b,
             In b (if 20 <? len (Py.strip (snd ss))
                   then [{| ExtractiveSummarizer.s_text := snd ss;
                            ExtractiveSummarizer.chunk_idx := i;
                            ExtractiveSummarizer.sent_idx := fst ss |}]
                   else []) ->
             ExtractiveSummarizer.chunk_idx b = i
             /\ ExtractiveSummarizer.sent_idx b = fst ss).
  { intros i ss b Hb. destruct (20 <? len (Py.strip (snd ss)));
      [|now destruct Hb].
    destruct Hb as [<-|[]]. now split. }
  unfold ExtractiveSummarizer.sentences_with_source, enumerate.
  apply flat_map_numbered_sorted.
  - intros i t. cbn [fst snd]. apply flat_map_numbered_sorted.
    + intros j p. cbn [fst snd].
      destruct (20 <? len (Py.strip p)); repeat constructor.
    + intros j p j' p' a b Hlt Ha Hb.
      apply Hone in Ha, Hb. cbn [fst] in Ha, Hb. right. lia.
  - intros i t i' t' a b Hlt Ha Hb. cbn [fst snd] in Ha, Hb.
    apply in_flat_map in Ha, Hb.
    destruct Ha as (ss & _ & Ha). destruct Hb as (ss' & _ & Hb).
    apply Hone in Ha, Hb. left. lia.
Qed.

(** X16. The candidates of [summarize] are exactly the sentences of more
    than 20 characters of the retrieved texts, each with the index of its
    text and its index among the sentences of that text; the list has them
    strictly in reading order, so no position occurs twice.  The sentences
    are already stripped, so the [strip()] of the length filter changes
    nothing. *)
Theorem sentences_with_source_in_reading_order (texts : list str) :
  let sentences := ExtractiveSummarizer.sentences_with_source texts in
  (forall e, In e sentences <-> candidate_of texts e)
  /\ StronglySorted source_lt sentences
  /\ Forall (fun e => Py.strip (ExtractiveSummarizer.s_text e)
                      = ExtractiveSummarizer.s_text e) sentences.
Proof.
  cbn zeta.
  assert (Hin : forall e,
             In e (ExtractiveSummarizer.sentences_with_source texts)
             <-> candidate_of texts e).
  { intros e. unfold ExtractiveSummarizer.sentences_with_source.
    rewrite in_flat_map. split.
    - intros ([i t] & Hit & He). apply In_enumerate in Hit.
      apply in_flat_map in He. destruct He as ([j p] & Hjp & He).
      apply In_enumerate in Hjp. cbn [fst snd] in He.
      assert (Hp : Py.strip p = p).
      { apply nth_error_In in Hjp.
        pose proof (extract_sentences_shape t) as Ht.
        rewrite Forall_forall in Ht. now apply Ht. }
      rewrite Hp in He.
      destruct (Z.ltb_spec 20 (len p)) as [Hlen|_]; [|now destruct He].
      destruct He as [<-|[]]. exists t. cbn. now repeat split.
    - intros (t & Ht & Hp & Hlen). destruct e as [p i j]. cbn in *.
      exists (i, t). split; [now apply In_enumerate|].
      apply in_flat_map. exists (j, p). split; [now apply In_enumerate|].
      cbn [fst snd].
      assert (Hs : Py.strip p = p).
      { apply nth_error_In in Hp.
        pose proof (extract_sentences_shape t) as Hx.
        rewrite Forall_forall in Hx. now apply Hx. }
      rewrite Hs. destruct (Z.ltb_spec 20 (len p)); [now left|lia]. }
  split; [exact Hin|]. split.
  - apply candidates_sorted.
  - apply Forall_forall. intros e He. apply Hin in He.
    destruct He as (t & _ & Hp & _). apply nth_error_In in Hp.
    pose proof (extract_sentences_shape t) as Hx.
    rewrite Forall_forall in Hx. now apply Hx.
Qed.

(** ** The summary as a selection of the candidates *)

Lemma sorted_nth_error {A : Type} (R : A -> A -> Prop) l :
  StronglySorted R l ->
  forall i j a b,
    (i < j)%nat -> nth_error l i = Some a -> nth_error l j = Some b ->
    R a b.
Proof.
  induction 1 as [|x l _ IH Hx]; intros i j a b Hlt Ha Hb.
  - now destruct i.
  - destruct j as [|j]; [lia|]. cbn in Hb. destruct i as [|i].
    + cbn in Ha. inversion Ha; subst a. rewrite Forall_forall in Hx.
      apply Hx. eapply nth_error_In; eassumption.
    + cbn in Ha. apply (IH i j); [lia|assumption..].
Qed.

Lemma source_lt_not_le a b : source_lt a b -> source_le b a -> False.
Proof. unfold source_lt, source_le. lia. Qed.

Lemma map_result_item_nth {A : Type} (l : list A) idxs :
  forall es,
    map_result (item l) idxs = Ok es ->
    Forall2 (fun i e => nth_error l i = Some e) idxs es.
Proof.
  induction idxs as [|i idxs IH]; intros es; cbn [map_result].
  - intros E. inversion E. constructor.
  - unfold item at 1. destruct (nth_error l i) as [a|] eqn:Ea;
      cbn [bind]; [|discriminate].
    destruct (map_result (item l) idxs) as [es'|]; cbn [bind];
      [|discriminate].
    intros E. inversion E; subst es. constructor; [assumption|].
    now apply IH.
Qed.

(** Sorting distinct positions of a strictly sorted list by what they hold
    sorts the positions. *)
Lemma sorted_items_ascending sentences order picked :
  StronglySorted source_lt sentences -> NoDup order ->
  Forall2 (fun i e => nth_error sentences i = Some e) order picked ->
  StronglySorted source_le picked -> StronglySorted lt order.
Proof.
  intros Hs Hnd Hf. induction Hf as [|i a order picked Hi Hf IH];
    intros Hp; [constructor|].
  inversion Hnd as [|? ? Hni Hnd']; subst.
  inversion Hp as [|? ? Hp' Ha]; subst.
  constructor; [now apply IH|].
  clear IH Hp Hp' Hnd Hnd'.
  induction Hf as [|j b order picked Hj Hf IH]; [constructor|].
  inversion Ha as [|? ? Hab Ha']; subst.
  constructor.
  - destruct (Nat.lt_trichotomy i j) as [Hlt|[Heq|Hgt]]; [assumption| |].
    + subst j. elim Hni. now left.
    + exfalso. apply (source_lt_not_le b a); [|assumption].
      apply (sorted_nth_error source_lt sentences Hs j i); assumption.
  - apply IH; [|assumption]. intros C. apply Hni. now right.
Qed.

Lemma slice_prefix {A : Type} (l : list A) m :
  Py.slice l 0 m
  = firstn (Z.to_nat (if m <? 0 then len l + m else m)) l.
Proof.
  unfold Py.slice. pose proof (len_nonneg l) as Hn.
  rewrite (clamp_inside (len l) 0) by lia. cbn [Z.to_nat skipn].
  rewrite Z.sub_0_r. unfold Py.clamp.
  destruct (Z.ltb_spec m 0) as [Hneg|Hpos]; cbv zeta.
  - destruct (Z.ltb_spec (m + len l) 0).
    + replace (Z.to_nat (len l + m)) with 0%nat by lia. reflexivity.
    + destruct (Z.ltb_spec (len l) (m + len l)); [lia|].
      f_equal. lia.
  - destruct (Z.ltb_spec m 0); [lia|].
    destruct (Z.ltb_spec (len l) m); [|reflexivity].
    unfold len in *. rewrite !firstn_all2 by lia. reflexivity.
Qed.

Lemma seq_ascending n : forall k, StronglySorted lt (seq k n).
Proof.
  induction n as [|n IH]; intros k; cbn [seq]; constructor.
  - apply IH.
  - apply Forall_forall. intros j Hj. apply in_seq in Hj. lia.
Qed.

Lemma items_of_seq {A : Type} (l : list A) :
  forall n pre,
    (n <= List.length l)%nat ->
    map_result (item (pre ++ l)) (seq (List.length pre) n)
    = Ok (firstn n l).
Proof.
  induction l as [|y l IH]; intros n pre Hn.
  - cbn in Hn. now replace n with 0%nat by lia.
  - destruct n as [|n]; [reflexivity|].
    cbn [List.length seq map_result firstn] in *. unfold item at 1.
    rewrite nth_error_app2, Nat.sub_diag by lia. cbn [nth_error bind].
    specialize (IH n (pre ++ [y])). rewrite <- app_assoc in IH.
    cbn [app] in IH. rewrite length_app in IH. cbn [List.length] in IH.
    rewrite Nat.add_1_r in IH. rewrite IH by lia. reflexivity.
Qed.

Lemma firstn_taken_in_order {A : Type} (l : list A) k :
  taken_in_order l (seq 0 (Nat.min k (List.length l))) (firstn k l).
Proof.
  split; [apply seq_ascending|].
  replace (firstn k l) with (firstn (Nat.min k (List.length l)) l).
  - apply (items_of_seq l _ []). lia.
  - destruct (Nat.le_gt_cases k (List.length l)).
    + now rewrite Nat.min_l.
    + rewrite Nat.min_r, firstn_all, firstn_all2 by lia. reflexivity.
Qed.

Lemma rank_and_assemble_ascending {N : Numeric} fuel
    (self : ExtractiveSummarizer.t) texts query_embedding
    (sentence_embeddings : list vector) max_count :
  let sentences := ExtractiveSummarizer.sentences_with_source texts in
  sentences <> [] ->
  List.length sentence_embeddings = List.length sentences ->
  (List.length sentences <= fuel)%nat ->
  exists selected order picked,
    ExtractiveSummarizer._select_diverse_sentences fuel self
      (map (fun e => cosine e query_embedding) sentence_embeddings)
      sentence_embeddings max_count = Some (Ok selected)
    /\ Permutation order selected
    /\ taken_in_order sentences order picked
    /\ len picked = Z.min (Z.max 1 max_count) (len sentences)
    /\ ExtractiveSummarizer.rank_and_assemble fuel self sentences
         query_embedding sentence_embeddings max_count
       = Some (Ok (Py.join (lit " ")
                     (map ExtractiveSummarizer.s_text picked))).
Proof.
  intros sentences Hne Hrows Hfuel.
  unfold ExtractiveSummarizer.rank_and_assemble.
  set (scores := map (fun e => cosine e query_embedding) sentence_embeddings).
  assert (Hscores : List.length scores = List.length sentences)
    by (unfold scores; now rewrite length_map).
  destruct (select_diverse_count self scores sentence_embeddings max_count
              fuel)
    as (selected & rest & E & L & P).
  - intros C. rewrite C in Hscores. destruct sentences; [now elim Hne|].
    discriminate.
  - congruence.
  - lia.
  - rewrite E.
    assert (Hnd : NoDup selected).
    { assert (H : NoDup (selected ++ rest)).
      { eapply Permutation_NoDup; [apply Permutation_sym; exact P|].
        apply seq_NoDup. }
      now apply NoDup_app_remove_r in H. }
    assert (Hin : Forall (fun i => (i < List.length sentences)%nat) selected).
    { assert (H : Forall (fun i => (i < List.length sentences)%nat)
                    (selected ++ rest)).
      { eapply Permutation_Forall; [apply Permutation_sym; exact P|].
        apply Forall_forall. intros i Hi. apply in_seq in Hi. lia. }
      now apply Forall_app in H. }
    destruct (assemble_in_reading_order sentences selected Hin)
      as (order & picked & Ea & Hperm & Hpick & Hsorted).
    exists selected, order, picked. rewrite Ea.
    pose proof (map_result_item_nth sentences order picked Hpick) as Hf.
    split; [reflexivity|]. split; [assumption|]. split; [split|split].
    + apply (sorted_items_ascending sentences order picked);
        try assumption.
      * apply candidates_sorted.
      * eapply Permutation_NoDup; [apply Permutation_sym|]; eassumption.
    + assumption.
    + apply Forall2_length in Hf. apply Permutation_length in Hperm.
      unfold len in *. lia.
    + reflexivity.
Qed.



(** X18. When a call to the embedding provider raises, whatever the
    exception, [summarize] raises nothing: it returns the leading
    candidates joined with single spaces, [max_sentences] of them or all
    if there are fewer, and for a negative [max_sentences] all but the last
    [-max_sentences].  When the call for the query raises, the sentences
    are not sent to the provider. *)
Theorem summarize_falls_back_to_leading_candidates {N : Numeric}
    (fuel : nat) (self : ExtractiveSummarizer.t) (query : str)
    (retrieved_texts : list str) (max_sentences_arg : option Z)
    (embed_text : str -> result vector)
    (embed_batch : list str -> result (list vector)) :
  let sentences := ExtractiveSummarizer.sentences_with_source retrieved_texts in
  let m := requested self max_sentences_arg in
  sentences <> [] ->
  (exists e, embed_text query = Raise e)
  \/ (exists e, embed_batch (map ExtractiveSummarizer.s_text sentences)
                = Raise e) ->
  answer embed_text embed_batch
    (ExtractiveSummarizer.summarize fuel self query retrieved_texts
       max_sentences_arg)
  = Some (Ok (Py.join (lit " ")
                (map ExtractiveSummarizer.s_text
                   (firstn (Z.to_nat (if m <? 0 then len sentences + m
                                      else m))
                      sentences))))
  /\ ((exists e, embed_text query = Raise e) ->
      forall other_batch,
        answer embed_text other_batch
          (ExtractiveSummarizer.summarize fuel self query retrieved_texts
             max_sentences_arg)
        = answer embed_text embed_batch
            (ExtractiveSummarizer.summarize fuel self query retrieved_texts
               max_sentences_arg)).
Proof.
  intros sentences m Hne Hfail.
  unfold ExtractiveSummarizer.summarize.
  assert (Htexts : Py.truthy retrieved_texts = true).
  { destruct retrieved_texts; [now elim Hne|reflexivity]. }
  rewrite Htexts. cbn [negb].
  fold sentences. apply truthy_true in Hne as Hs. rewrite Hs. cbn [negb].
  fold (requested self max_sentences_arg). fold m.
  rewrite slice_prefix. cbn [answer]. split.
  - destruct (embed_text query) as [qe|e1] eqn:Eq; cbn [answer].
    + destruct Hfail as [(e & He)|(e & He)]; [discriminate|].
      now rewrite He.
    + reflexivity.
  - intros (e & He) other_batch. now rewrite He.
Qed.

Lemma summarize_falls_back_to_leading_candidates_witness :
  answer failing_query fixed_batch
    (ExtractiveSummarizer.summarize 3 q_self (lit "How are passages ranked?")
       reading_texts (Some 2))
  = Some (Ok (Py.join (lit " ")
                (map ExtractiveSummarizer.s_text
                   (firstn (Z.to_nat
                              (if requested q_self (Some 2) <? 0
                               then len (ExtractiveSummarizer.sentences_with_source
                                           reading_texts)
                                    + requested q_self (Some 2)
                               else requested q_self (Some 2)))
                      (ExtractiveSummarizer.sentences_with_source
                         reading_texts)))))
  /\ ((exists e, failing_query (lit "How are passages ranked?") = Raise e) ->
      forall other_batch,
        answer failing_query other_batch
          (ExtractiveSummarizer.summarize 3 q_self
             (lit "How are passages ranked?") reading_texts (Some 2))
        = answer failing_query fixed_batch
            (ExtractiveSummarizer.summarize 3 q_self
               (lit "How are passages ranked?") reading_texts (Some 2))).
Proof.
  apply (summarize_falls_back_to_leading_candidates 3 q_self
           (lit "How are passages ranked?") reading_texts (Some 2)
           failing_query fixed_batch).
  - vm_compute. discriminate.
  - left. eexists. reflexivity.
Defined.

(** X19. With a provider that answers the batch of candidates, when it
    answers, with one row per candidate, and fuel for every candidate,
    [summarize] raises in one case only: both calls to the provider
    succeed and [cosine_similarity] rejects the rows against the query (a
    row that is not finite or not as wide as the query vector); the
    [ValueError] is not caught.  In every other case it returns a string:
    the message for no texts, the message for no candidates, or candidates
    taken at strictly ascending positions of the candidate list and joined
    with single spaces. *)
Theorem summarize_raises_only_for_rejected_arrays
    {N : Numeric} {A : Arrays N}
    (fuel : nat) (self : ExtractiveSummarizer.t) (query : str)
    (retrieved_texts : list str) (max_sentences_arg : option Z)
    (embed_text : str -> result vector)
    (embed_batch : list str -> result (list vector)) :
  let sentences := ExtractiveSummarizer.sentences_with_source retrieved_texts in
  let outcome :=
    answer embed_text embed_batch
      (summarize_checking_arrays fuel self query retrieved_texts
         max_sentences_arg) in
  (forall rows,
     embed_batch (map ExtractiveSummarizer.s_text sentences) = Ok rows ->
     List.length rows = List.length sentences) ->
  (List.length sentences <= fuel)%nat ->
  (exists query_embedding rows,
     sentences <> []
     /\ embed_text query = Ok query_embedding
     /\ embed_batch (map ExtractiveSummarizer.s_text sentences) = Ok rows
     /\ accepted rows query_embedding = false
     /\ outcome = Some (Raise (ValueError (complaint rows query_embedding))))
  \/ (exists summary,
        outcome = Some (Ok summary)
        /\ (forall query_embedding rows,
              sentences <> [] ->
              embed_text query = Ok query_embedding ->
              embed_batch (map ExtractiveSummarizer.s_text sentences)
              = Ok rows ->
              accepted rows query_embedding = true)
        /\ (retrieved_texts = []
            /\ summary = lit "No relevant content found."
            \/ retrieved_texts <> [] /\ sentences = []
               /\ summary
                  = lit "No suitable sentences found for summarization."
            \/ sentences <> []
               /\ exists order picked,
                    taken_in_order sentences order picked
                    /\ summary = Py.join (lit " ")
                                   (map ExtractiveSummarizer.s_text picked))).
Proof.
  intros sentences outcome Hrows Hfuel. subst outcome.
  unfold summarize_checking_arrays. fold sentences.
  destruct (Py.truthy retrieved_texts) eqn:Ht; cbn [negb].
  2: { apply truthy_false in Ht. right. eexists. split; [reflexivity|].
       split.
       - intros q rows Hne. exfalso. apply Hne. unfold sentences.
         now rewrite Ht.
       - left. now split. }
  apply truthy_true in Ht.
  destruct (Py.truthy sentences) eqn:Hs; cbn [negb].
  2: { apply truthy_false in Hs. right. eexists. split; [reflexivity|].
       split; [intros q rows Hne; now elim Hne|].
       right. left. now repeat split. }
  apply truthy_true in Hs. rename Hs into Hne. cbn [answer].
  assert (Hfall : exists order picked,
             taken_in_order sentences order picked
             /\ Py.join (lit " ")
                  (map ExtractiveSummarizer.s_text
                     (Py.slice sentences 0
                        (requested self max_sentences_arg)))
                = Py.join (lit " ")
                    (map ExtractiveSummarizer.s_text picked)).
  { rewrite slice_prefix. eexists. eexists.
    split; [apply firstn_taken_in_order|reflexivity]. }
  destruct (embed_text query) as [qe|e1]; cbn [answer].
  - destruct (embed_batch (map ExtractiveSummarizer.s_text sentences))
      as [rows|e2] eqn:Eb; cbn [answer].
    + unfold cosine_similarity.
      destruct (accepted rows qe) eqn:Hacc.
      * specialize (Hrows rows eq_refl).
        destruct (rank_and_assemble_ascending fuel self retrieved_texts qe
                    rows (requested self max_sentences_arg) Hne Hrows Hfuel)
          as (selected & order & picked & _ & _ & Hto & _ & Er).
        fold sentences in Er. rewrite Er. right.
        eexists. split; [reflexivity|]. split.
        -- intros q rows' _ Eq Er'. inversion Eq; subst q.
           inversion Er'; subst rows'. exact Hacc.
        -- right. right. split; [assumption|]. now exists order, picked.
      * left. exists qe, rows. now repeat split.
    + right. eexists. split; [reflexivity|]. split.
      * intros q rows _ _ C. discriminate.
      * right. right. split; [assumption|].
        destruct Hfall as (order & picked & H1 & H2). now exists order, picked.
  - right. eexists. split; [reflexivity|]. split.
    + intros q rows _ C. discriminate.
    + right. right. split; [assumption|].
      destruct Hfall as (order & picked & H1 & H2). now exists order, picked.
Qed.

(** With rows of three entries against a query vector of two, the call
    raises; with rows of two it returns a summary. *)
Lemma summarize_raises_only_for_rejected_arrays_witness :
  answer fixed_query wide_batch
    (summarize_checking_arrays 3 q_self (lit "How are passages ranked?")
       reading_texts (Some 2))
  = Some (Raise (ValueError "Incompatible dimension for X and Y matrices"))
  /\ ((exists query_embedding rows,
         ExtractiveSummarizer.sentences_with_source reading_texts <> []
         /\ fixed_query (lit "How are passages ranked?") = Ok query_embedding
         /\ unit_batch
              (map ExtractiveSummarizer.s_text
                 (ExtractiveSummarizer.sentences_with_source reading_texts))
            = Ok rows
         /\ accepted rows query_embedding = false
         /\ answer fixed_query unit_batch
              (summarize_checking_arrays 3 q_self
                 (lit "How are passages ranked?") reading_texts (Some 2))
            = Some (Raise (ValueError (complaint rows query_embedding))))
      \/ (exists summary,
            answer fixed_query unit_batch
              (summarize_checking_arrays 3 q_self
                 (lit "How are passages ranked?") reading_texts (Some 2))
            = Some (Ok summary)
            /\ (forall query_embedding rows,
                  ExtractiveSummarizer.sentences_with_source reading_texts
                  <> [] ->
                  fixed_query (lit "How are passages ranked?")
                  = Ok query_embedding ->
                  unit_batch
                    (map ExtractiveSummarizer.s_text
                       (ExtractiveSummarizer.sentences_with_source
                          reading_texts))
                  = Ok rows ->
                  accepted rows query_embedding = true)
            /\ (reading_texts = []
                /\ summary = lit "No relevant content found."
                \/ reading_texts <> []
                   /\ ExtractiveSummarizer.sentences_with_source reading_texts
                      = []
                   /\ summary
                      = lit "No suitable sentences found for summarization."
                \/ ExtractiveSummarizer.sentences_with_source reading_texts
                   <> []
                   /\ exists order picked,
                        taken_in_order
                          (ExtractiveSummarizer.sentences_with_source
                             reading_texts)
                          order picked
                        /\ summary
                           = Py.join (lit " ")
                               (map ExtractiveSummarizer.s_text picked)))).
Proof.
  split; [vm_compute; reflexivity|].
  apply (summarize_raises_only_for_rejected_arrays 3 q_self
           (lit "How are passages ranked?") reading_texts (Some 2)
           fixed_query unit_batch).
  - intros rows E. vm_compute in E. inversion E. reflexivity.
  - vm_compute. lia.
Defined.

(** ** Texts handed to the embedding generator *)

Lemma blank_ink t : EmbeddingGenerator.blank t = negb (has_ink t).
Proof.
  unfold EmbeddingGenerator.blank.
  destruct (has_ink t) eqn:Hi.
  - apply strip_nonempty in Hi as Hs. apply truthy_true in Hs. rewrite Hs.
    destruct t; [discriminate|reflexivity].
  - destruct (Py.truthy (Py.strip t)) eqn:Hs.
    + apply truthy_true, strip_nonempty in Hs. congruence.
    + now rewrite orb_true_r.
Qed.

Lemma embed_batch_inked {V E : Type}
    (encode : list str -> outcome E (list V)) texts :
  texts <> [] -> Forall (fun t => has_ink t = true) texts ->
  EmbeddingGenerator.embed_batch encode texts
  = wrapping "Failed to generate embeddings" (encode texts).
Proof.
  intros Hne Hall. unfold EmbeddingGenerator.embed_batch.
  apply truthy_true in Hne. rewrite Hne. cbn [negb].
  assert (Hb : existsb EmbeddingGenerator.blank texts = false).
  { clear Hne. induction Hall as [|t texts Ht _ IH]; [reflexivity|].
    cbn [existsb]. now rewrite blank_ink, Ht, IH. }
  now rewrite Hb.
Qed.

(** X20. The candidate sentences that [summarize] sends to [embed_batch]
    always pass its checks: the list is not empty and no sentence is
    blank, so the call fails only if the model does, and then with the
    [RuntimeError] that wraps the failure of the model. *)
Theorem summarize_candidates_pass_embed_batch_checks {V E : Type}
    (encode : list str -> outcome E (list V)) (retrieved_texts : list str) :
  let sentences := ExtractiveSummarizer.sentences_with_source retrieved_texts in
  sentences <> [] ->
  EmbeddingGenerator.embed_batch encode
    (map ExtractiveSummarizer.s_text sentences)
  = wrapping "Failed to generate embeddings"
      (encode (map ExtractiveSummarizer.s_text sentences)).
Proof.
  intros sentences Hne. apply embed_batch_inked.
  - intros C. apply map_eq_nil in C. contradiction.
  - apply Forall_forall. intros p Hp. apply in_map_iff in Hp.
    destruct Hp as (e & <- & He).
    unfold sentences, ExtractiveSummarizer.sentences_with_source in He.
    apply in_flat_map in He. destruct He as ([i t] & _ & He).
    apply in_flat_map in He. destruct He as ([j q] & Hq & He).
    apply enumerate_In in Hq. cbn [fst snd] in He.
    destruct (20 <? len (Py.strip q)); [|now destruct He].
    destruct He as [<-|[]]. cbn.
    pose proof (extract_sentences_shape t) as Hx.
    rewrite Forall_forall in Hx. destruct (Hx q Hq) as (Hn & _ & Hf & Hl).
    apply trimmed_ink. now repeat split.
Qed.

Lemma summarize_candidates_pass_embed_batch_checks_witness :
  EmbeddingGenerator.embed_batch constant_model
    (map ExtractiveSummarizer.s_text
       (ExtractiveSummarizer.sentences_with_source reading_texts))
  = wrapping "Failed to generate embeddings"
      (constant_model
         (map ExtractiveSummarizer.s_text
            (ExtractiveSummarizer.sentences_with_source reading_texts))).
Proof.
  apply (summarize_candidates_pass_embed_batch_checks constant_model
           reading_texts).
  vm_compute. discriminate.
Defined.

(** X21. [embed_text] on blank text raises
    [ValueError("Cannot embed empty text")] without asking the model.  On
    any other text it never meets the checks of [embed_batch]: it returns
    the first row the model gives for the one text, raises the
    [RuntimeError] that wraps the failure of the model, or, the indexing
    being outside the [try], an unwrapped [IndexError] when the model gives
    no row. *)
Theorem embed_text_outcomes {V E : Type}
    (encode : list str -> outcome E (list V)) (text : str) :
  EmbeddingGenerator.embed_text encode text
  = if has_ink text
    then match encode [text] with
         | Done (row :: _) => Done row
         | Done [] => Failed (Core IndexError)
         | Failed f =>
             Failed (RuntimeError "Failed to generate embeddings" f)
         end
    else Failed (Core (ValueError "Cannot embed empty text")).
Proof.
  unfold EmbeddingGenerator.embed_text. rewrite blank_ink.
  destruct (has_ink text) eqn:Hi; cbn [negb]; [|reflexivity].
  rewrite embed_batch_inked by (try discriminate; now repeat constructor).
  destruct (encode [text]) as [[|row rows]|f]; reflexivity.
Qed.

(** ** [DocumentService] *)

Lemma utf8_len_bounds t : len t <= utf8_len t <= 2 * len t.
Proof.
  induction t as [|c t IH]; [cbn; lia|].
  unfold len in *. cbn [utf8_len fold_right List.length].
  fold (utf8_len t). destruct (Nat.ltb (Py.code c) 128); lia.
Qed.

Lemma is_safe_not_space c : is_safe c = true -> Py.is_space c = false.
Proof.
  destruct c as [[] [] [] [] [] [] [] []]; vm_compute; congruence.
Qed.

Section Ingestion.

Context {V E : Type}.
Variable encode : list str -> outcome E (list V).
Variable max_file_size_mb : Z.
Variable too_large : Z -> Z -> string.
Variable chunker : SemanticChunker.t.
Variable timestamp unique_id : str.

Lemma validate_document_Ok request :
  DocumentService._validate_document max_file_size_mb too_large request
  = Ok tt
  <-> utf8_len (content request) <= max_file_size_mb * 1048576
      /\ has_ink (content request) = true
      /\ 1 <= len (filename request) <= 255.
Proof.
  unfold DocumentService._validate_document. cbv zeta.
  destruct (Z.ltb_spec (max_file_size_mb * 1048576)
              (utf8_len (content request))) as [Hbig|Hfit].
  { split; [discriminate|]. lia. }
  destruct (Py.truthy (Py.strip (content request))) eqn:Hs; cbn [negb].
  2: { split; [discriminate|]. intros (_ & Hi & _).
       apply strip_nonempty, truthy_true in Hi. congruence. }
  apply truthy_true, strip_nonempty in Hs.
  destruct (filename request) as [|c name] eqn:En; cbn [Py.truthy negb orb].
  { split; [discriminate|]. cbn. lia. }
  destruct (Z.ltb_spec 255 (len (c :: name))) as [Hlong|Hshort].
  - split; [discriminate|]. lia.
  - split; [|reflexivity]. intros _. repeat split; try assumption.
    unfold len. cbn [List.length]. lia.
Qed.

End Ingestion.

(** X22. A request that passes [_validate_document] is chunked without an
    exception, into at least one chunk, every chunk carrying the generated
    document identifier; the chunk texts pass the checks of [embed_batch].
    So [ingest_document] returns the identifier, the chunks and the rows
    of the model whenever the model answers with at least one row; it
    raises [RuntimeError("Failed to process document: ...")] around the
    failure of the model or, when the model gives no row, around the
    [IndexError] of the log line.  It raises no [ValueError]. *)
Theorem ingest_document_of_valid_request {V E : Type}
    (encode : list str -> outcome E (list V)) (max_file_size_mb : Z)
    (too_large : Z -> Z -> string) (chunker : SemanticChunker.t)
    (timestamp unique_id : str) (request : DocumentIngestRequest) :
  DocumentService._validate_document max_file_size_mb too_large request
  = Ok tt ->
  let doc := DocumentService._generate_document_id timestamp unique_id
               (filename request) in
  exists chunks,
    SemanticChunker.chunk_text chunker (content request) doc = Ok chunks
    /\ 1 <= len chunks
    /\ Forall (chunk_record doc) chunks
    /\ DocumentService.ingest_document encode max_file_size_mb too_large
         chunker timestamp unique_id request
       = match encode (map text chunks) with
         | Done (row :: rows) => Done (doc, chunks, row :: rows)
         | Done [] =>
             Failed (RuntimeError "Failed to process document"
                       (Core IndexError))
         | Failed f =>
             Failed (RuntimeError "Failed to process document"
                       (RuntimeError "Failed to generate embeddings" f))
         end.
Proof.
  intros Hvalid doc.
  apply validate_document_Ok in Hvalid as Hv.
  destruct Hv as (_ & Hink & _). apply strip_nonempty in Hink.
  destruct (SemanticChunker_chunk_text_returns chunker (content request) doc
              Hink)
    as (chunks & Ec & Hne & _).
  pose proof (chunk_text_records _ _ _ _ Ec) as Hrec.
  exists chunks. split; [assumption|]. split.
  { destruct chunks; [now elim Hne|]. unfold len. cbn [List.length]. lia. }
  split; [assumption|].
  unfold DocumentService.ingest_document. rewrite Hvalid.
  cbn [of_result and_then]. fold doc. rewrite Ec. cbn [of_result and_then].
  rewrite embed_batch_inked.
  - destruct (encode (map text chunks)) as [[|row rows]|f]; reflexivity.
  - intros C. apply map_eq_nil in C. contradiction.
  - apply Forall_forall. intros p Hp. apply in_map_iff in Hp.
    destruct Hp as (c & <- & Hc). rewrite Forall_forall in Hrec.
    apply (Hrec c Hc).
Qed.

Lemma ingest_document_of_valid_request_witness :
  exists chunks,
    SemanticChunker.chunk_text default_semantic (content sample_request)
      (DocumentService._generate_document_id (lit "20240101_120000")
         (lit "1a2b3c4d") (filename sample_request))
    = Ok chunks
    /\ 1 <= len chunks
    /\ Forall (chunk_record
                 (DocumentService._generate_document_id
                    (lit "20240101_120000") (lit "1a2b3c4d")
                    (filename sample_request)))
              chunks
    /\ DocumentService.ingest_document constant_model 50
         sample_size_message default_semantic (lit "20240101_120000")
         (lit "1a2b3c4d") sample_request
       = match constant_model (map text chunks) with
         | Done (row :: rows) =>
             Done (DocumentService._generate_document_id
                     (lit "20240101_120000") (lit "1a2b3c4d")
                     (filename sample_request),
                   chunks, row :: rows)
         | Done [] =>
             Failed (RuntimeError "Failed to process document"
                       (Core IndexError))
         | Failed f =>
             Failed (RuntimeError "Failed to process document"
                       (RuntimeError "Failed to generate embeddings" f))
         end.
Proof.
  apply (ingest_document_of_valid_request constant_model 50
           sample_size_message default_semantic (lit "20240101_120000")
           (lit "1a2b3c4d") sample_request).
  vm_compute. reflexivity.
Defined.

(** X23. A request that fails [_validate_document] makes
    [ingest_document] raise that [ValueError] itself, not wrapped in a
    [RuntimeError]: for more bytes of UTF-8 than [max_file_size_mb]
    mebibytes the message about the size, else for blank content
    "Document content cannot be empty", else for an empty file name or one
    of more than 255 characters "Invalid filename".  Content of more
    characters than the limit has bytes is always rejected for its size. *)
Theorem ingest_document_rejects_invalid_request {V E : Type}
    (encode : list str -> outcome E (list V)) (max_file_size_mb : Z)
    (too_large : Z -> Z -> string) (chunker : SemanticChunker.t)
    (timestamp unique_id : str) (request : DocumentIngestRequest) e :
  DocumentService._validate_document max_file_size_mb too_large request
  = Raise e ->
  let size := utf8_len (content request) in
  DocumentService.ingest_document encode max_file_size_mb too_large
    chunker timestamp unique_id request
  = Failed (Core e)
  /\ (max_file_size_mb * 1048576 < size
      /\ e = ValueError (too_large size max_file_size_mb)
      \/ size <= max_file_size_mb * 1048576
         /\ has_ink (content request) = false
         /\ e = ValueError "Document content cannot be empty"
      \/ size <= max_file_size_mb * 1048576
         /\ has_ink (content request) = true
         /\ (filename request = [] \/ 255 < len (filename request))
         /\ e = ValueError "Invalid filename")
  /\ (max_file_size_mb * 1048576 < len (content request) ->
      e = ValueError (too_large size max_file_size_mb)).
Proof.
  intros Hv size.
  split; [unfold DocumentService.ingest_document; now rewrite Hv|].
  pose proof (utf8_len_bounds (content request)) as Hb. fold size in Hb.
  unfold DocumentService._validate_document in Hv. cbv zeta in Hv.
  fold size in Hv.
  destruct (Z.ltb_spec (max_file_size_mb * 1048576) size) as [Hbig|Hfit].
  { inversion Hv. split; [left; now split|reflexivity]. }
  split; [|lia]. right.
  destruct (Py.truthy (Py.strip (content request))) eqn:Hs; cbn [negb] in Hv.
  - apply truthy_true, strip_nonempty in Hs. right.
    split; [assumption|]. split; [assumption|].
    destruct (filename request) as [|c name];
      cbn [Py.truthy negb orb] in Hv.
    + inversion Hv. split; [now left|reflexivity].
    + destruct (Z.ltb_spec 255 (len (c :: name))); [|discriminate].
      inversion Hv. split; [now right|reflexivity].
  - left. split; [assumption|]. inversion Hv. split; [|reflexivity].
    destruct (has_ink (content request)) eqn:Hi; [|reflexivity].
    apply strip_nonempty, truthy_true in Hi. congruence.
Qed.

Lemma ingest_document_rejects_invalid_request_witness :
  DocumentService.ingest_document constant_model 50 sample_size_message
    default_semantic (lit "20240101_120000") (lit "1a2b3c4d") blank_request
  = Failed (Core (ValueError "Document content cannot be empty"))
  /\ (50 * 1048576 < utf8_len (content blank_request)
      /\ ValueError "Document content cannot be empty"
         = ValueError (sample_size_message
                         (utf8_len (content blank_request)) 50)
      \/ utf8_len (content blank_request) <= 50 * 1048576
         /\ has_ink (content blank_request) = false
         /\ ValueError "Document content cannot be empty"
            = ValueError "Document content cannot be empty"
      \/ utf8_len (content blank_request) <= 50 * 1048576
         /\ has_ink (content blank_request) = true
         /\ (filename blank_request = []
             \/ 255 < len (filename blank_request))
         /\ ValueError "Document content cannot be empty"
            = ValueError "Invalid filename")
  /\ (50 * 1048576 < len (content blank_request) ->
      ValueError "Document content cannot be empty"
      = ValueError (sample_size_message
                      (utf8_len (content blank_request)) 50)).
Proof.
  apply (ingest_document_rejects_invalid_request constant_model 50
           sample_size_message default_semantic (lit "20240101_120000")
           (lit "1a2b3c4d") blank_request).
  vm_compute. reflexivity.
Defined.

(** X24. The file name part of a document identifier holds only
    characters that are alphanumeric or one of [._-], none of them
    whitespace, and at most 50 of them, in the order they have in the file
    name; a name of at most 50 such characters is kept as it is, and
    sanitising twice is sanitising once. *)
Theorem safe_filename_is_safe (name : str) :
  let safe := DocumentService.safe_filename name in
  Forall (fun c => is_safe c = true /\ Py.is_space c = false) safe
  /\ len safe <= 50
  /\ safe = firstn 50 (filter is_safe name)
  /\ DocumentService.safe_filename safe = safe
  /\ (forallb is_safe name = true -> len name <= 50 -> safe = name).
Proof.
  cbn zeta. unfold DocumentService.safe_filename.
  assert (Hs : forall l : str, Py.slice l 0 50 = firstn 50 l).
  { intros l. rewrite slice_prefix. reflexivity. }
  rewrite !Hs.
  assert (Hall : Forall (fun c => is_safe c = true)
                   (firstn 50 (filter is_safe name))).
  { apply Forall_forall. intros c Hc.
    assert (Hin : In c (filter is_safe name)).
    { rewrite <- (firstn_skipn 50). apply in_or_app. now left. }
    now apply filter_In in Hin. }
  assert (Hfix : forall l : str,
             Forall (fun c => is_safe c = true) l -> filter is_safe l = l).
  { induction 1 as [|c l Hc _ IH]; [reflexivity|].
    cbn [filter]. now rewrite Hc, IH. }
  split.
  { eapply Forall_impl; [|exact Hall]. cbn beta. intros c Hc.
    split; [assumption|]. now apply is_safe_not_space. }
  split.
  { unfold len. rewrite length_firstn. lia. }
  split; [reflexivity|]. split.
  - rewrite (Hfix _ Hall). rewrite firstn_firstn. reflexivity.
  - intros Hn Hl. rewrite Hfix.
    + apply firstn_all2. unfold len in Hl. lia.
    + apply Forall_forall. now apply forallb_forall.
Qed.

(** ** [PDFProcessor] *)

Lemma text_parts_ink pages :
  Forall (fun p => has_ink p = true) (PDFProcessor.text_parts pages).
Proof.
  unfold PDFProcessor.text_parts. apply Forall_forall. intros p Hp.
  apply in_flat_map in Hp. destruct Hp as ([text|] & _ & Hp); [|now elim Hp].
  destruct (Py.truthy (Py.strip text)) eqn:Hs; [|now elim Hp].
  destruct Hp as [<-|[]]. now apply strip_nonempty, truthy_true.
Qed.

Lemma text_parts_filter pages :
  map Some (PDFProcessor.text_parts pages) = filter page_has_text pages.
Proof.
  induction pages as [|[text|] pages IH]; [reflexivity| |exact IH].
  unfold PDFProcessor.text_parts in *. cbn [flat_map filter page_has_text].
  destruct (has_ink text) eqn:Hi.
  - apply strip_nonempty, truthy_true in Hi as ->. cbn [app map].
    now rewrite IH.
  - destruct (Py.truthy (Py.strip text)) eqn:Hs; [|exact IH].
    apply truthy_true, strip_nonempty in Hs. congruence.
Qed.

(** X25. Text extracted from a PDF is never blank: it is the texts of the
    pages that are not blank, in page order, joined by two newlines, the
    pages whose extraction raises being skipped.  When no page has text or
    the file cannot be read, the exception is a [ValueError] whose message
    starts with "Failed to process PDF: ".  [extract_text] and
    [extract_text_from_bytes] agree but for a PDF without pages, where the
    messages differ. *)
Theorem pdf_text_is_never_blank (r : reader) :
  (r <> Pages [] ->
   PDFProcessor.extract_text r = PDFProcessor.extract_text_from_bytes r)
  /\ PDFProcessor.extract_text (Pages [])
     = Raise (ValueError "Failed to process PDF: PDF has no pages")
  /\ PDFProcessor.extract_text_from_bytes (Pages [])
     = Raise (ValueError
                "Failed to process PDF: No text could be extracted from PDF")
  /\ match PDFProcessor.extract_text_from_bytes r with
     | Ok text =>
         has_ink text = true
         /\ exists pages,
              r = Pages pages
              /\ existsb page_has_text pages = true
              /\ exists parts,
                   map Some parts = filter page_has_text pages
                   /\ text = Py.join PDFProcessor.paragraph_break parts
     | Raise e =>
         (exists description,
            e = ValueError ("Failed to process PDF: " ++ description))
         /\ forall pages,
              r = Pages pages -> existsb page_has_text pages = false
     end.
Proof.
  split.
  { destruct r as [[|p pages]|d]; [intros H; now elim H|reflexivity..]. }
  split; [reflexivity|]. split; [reflexivity|].
  destruct r as [pages|d]; cbn [PDFProcessor.extract_text_from_bytes].
  2: { split; [now exists d|]. discriminate. }
  pose proof (text_parts_filter pages) as Hf.
  pose proof (text_parts_ink pages) as Hi.
  destruct (PDFProcessor.text_parts pages) as [|p parts] eqn:Ep;
    cbn [Py.truthy negb].
  - split; [eexists; reflexivity|]. intros pages' E.
    inversion E; subst pages'. cbn [map] in Hf. destruct (existsb page_has_text pages) eqn:Hex;
      [|reflexivity].
    apply existsb_exists in Hex. destruct Hex as (x & Hx & Hp).
    assert (Hin : In x (filter page_has_text pages))
      by now apply filter_In.
    rewrite <- Hf in Hin. now elim Hin.
  - split; [apply has_ink_join; [discriminate|assumption]|].
    exists pages. split; [reflexivity|]. split.
    + apply existsb_exists. exists (Some p).
      assert (Hin : In (Some p) (filter page_has_text pages))
        by (rewrite <- Hf; now left).
      now apply filter_In in Hin.
    + now exists (p :: parts).
Qed.

(** X26. Text extracted from a PDF is accepted by the chunker and never
    fails the content check of [_validate_document]: whether a request made
    of it is valid depends on its size and on the file name only. *)
Theorem pdf_text_passes_content_checks (r : reader) (text : str)
    (chunker : SemanticChunker.t) (doc name : str)
    (max_file_size_mb : Z) (too_large : Z -> Z -> string) :
  PDFProcessor.extract_text_from_bytes r = Ok text ->
  (exists chunks,
     SemanticChunker.chunk_text chunker text doc = Ok chunks
     /\ chunks <> [])
  /\ (DocumentService._validate_document max_file_size_mb too_large
        {| content := text; filename := name |}
      = Ok tt
      <-> utf8_len text <= max_file_size_mb * 1048576
          /\ 1 <= len name <= 255).
Proof.
  intros E.
  assert (Hink : has_ink text = true).
  { destruct r as [pages|d]; cbn [PDFProcessor.extract_text_from_bytes] in E;
      [|discriminate].
    pose proof (text_parts_ink pages) as Hi.
    destruct (PDFProcessor.text_parts pages) as [|p parts];
      cbn [Py.truthy negb] in E; [discriminate|].
    injection E as <-.
    change (has_ink (Py.join PDFProcessor.paragraph_break (p :: parts))
            = true).
    apply has_ink_join; [discriminate|assumption]. }
  split.
  - apply strip_nonempty in Hink.
    destruct (SemanticChunker_chunk_text_returns chunker text doc Hink)
      as (chunks & Ec & Hne & _).
    now exists chunks.
  - rewrite validate_document_Ok. cbn [content filename]. tauto.
Qed.

Lemma pdf_text_passes_content_checks_witness :
  (exists chunks,
     SemanticChunker.chunk_text default_semantic three_sentences
       (lit "doc1") = Ok chunks
     /\ chunks <> [])
  /\ (DocumentService._validate_document 50 sample_size_message
        {| content := three_sentences; filename := lit "paper.pdf" |}
      = Ok tt
      <-> utf8_len three_sentences <= 50 * 1048576
          /\ 1 <= len (lit "paper.pdf") <= 255).
Proof.
  apply (pdf_text_passes_content_checks sample_pdf three_sentences
           default_semantic (lit "doc1") (lit "paper.pdf") 50
           sample_size_message).
  vm_compute. reflexivity.
Defined.

(** ** The size of the chunks of [SemanticChunker] *)

Lemma len_join_snoc cc s :
  cc <> [] ->
  len (Py.join (lit " ") (cc ++ [s])) = len (Py.join (lit " ") cc) + 1 + len s.
Proof.
  intros Hne. rewrite !len_join_counted; try assumption.
  - rewrite counted_app. cbn [counted]. lia.
  - intros C. now apply app_eq_nil in C.
Qed.

Lemma len_join_step sep p rest :
  len (Py.join sep (p :: rest))
  = len p + (if Py.truthy rest then len sep + len (Py.join sep rest) else 0).
Proof.
  destruct rest as [|q rest]; [cbn [Py.join Py.truthy]; lia|].
  rewrite join_cons2. cbn [Py.truthy]. rewrite !len_app. lia.
Qed.

Lemma len_join_filter sep (f : str -> bool) parts :
  len (Py.join sep (filter f parts)) <= len (Py.join sep parts).
Proof.
  induction parts as [|p parts IH]; [cbn; lia|].
  pose proof (len_nonneg p). pose proof (len_nonneg sep).
  pose proof (len_nonneg (Py.join sep (filter f parts))).
  pose proof (len_nonneg (Py.join sep parts)).
  cbn [filter]. destruct (f p).
  - rewrite !len_join_step.
    destruct (filter f parts) as [|q l] eqn:Ef; cbn [Py.truthy].
    + destruct (Py.truthy parts); lia.
    + destruct parts as [|r parts]; [discriminate|]. cbn [Py.truthy]. lia.
  - rewrite len_join_step. destruct (Py.truthy parts) eqn:Hp; [lia|].
    apply truthy_false in Hp. subst parts. cbn in *. lia.
Qed.

(** Joining with one character what [split] cut at a separator gives no
    more than there was. *)
Lemma len_join_split_from sep j t :
  len j <= 1 ->
  forall skip piece,
    Py.split_from sep skip piece t <> []
    /\ len (Py.join j (Py.split_from sep skip piece t)) <= len piece + len t.
Proof.
  intros Hj. induction t as [|c t IH]; intros skip piece.
  - cbn [Py.split_from Py.join]. split; [discriminate|].
    unfold len. rewrite length_rev. cbn. lia.
  - assert (Hc : len (c :: t) = len t + 1)
      by (unfold len; cbn [List.length]; lia).
    cbn [Py.split_from]. destruct skip as [|k].
    + destruct (Py.starts_with sep (c :: t)).
      * split; [discriminate|]. rewrite len_join_step.
        destruct (IH (pred (List.length sep)) []) as [Hne Hlen].
        apply truthy_true in Hne as ->.
        unfold len in *. rewrite length_rev. cbn [List.length] in *. lia.
      * destruct (IH 0%nat (c :: piece)) as [Hne Hlen].
        split; [assumption|]. unfold len in *. cbn [List.length] in *. lia.
    + destruct (IH k piece) as [Hne Hlen]. split; [assumption|]. lia.
Qed.

Lemma resplit_len t :
  len (Py.join (lit " ")
         (filter (fun p => Py.truthy (Py.strip p)) (Py.split (lit ". ") t)))
  <= len t.
Proof.
  etransitivity; [apply len_join_filter|].
  unfold Py.split.
  destruct (len_join_split_from (lit ". ") (lit " ") t) with
    (skip := 0%nat) (piece := @nil ascii) as [_ H]; [cbn; lia|].
  exact H.
Qed.

Lemma overlap_text_len self sentences :
  len (SemanticChunker._get_overlap_text self sentences)
  <= Z.max 0 (SemanticChunker.overlap self - 1).
Proof.
  unfold SemanticChunker._get_overlap_text.
  destruct (overlap_scan_window self (rev sentences) [])
    as (taken & rest & _ & Hscan & Hw & _); [now left|].
  cbn [counted] in Hscan. rewrite Hscan, app_nil_r in *.
  destruct (rev taken) as [|q l] eqn:Eq; [cbn; lia|].
  destruct Hw as [Hw|Hw]; [discriminate|].
  rewrite len_join_counted by discriminate. lia.
Qed.

Section ChunkSize.

Variable self : SemanticChunker.t.
Variable doc : str.
Variable longest : Z.

Lemma body_sized st st' s :
  SemanticChunker.body self doc st s = Ok st' ->
  len s <= longest ->
  sized (size_bound self longest) st ->
  sized (size_bound self longest) st'.
Proof.
  unfold SemanticChunker.body, sized, size_bound.
  intros E Hs (Hch & Hb & Hl).
  pose proof (len_nonneg s) as Hs0.
  pose proof (len_nonneg (Py.join (lit " ") (SemanticChunker.current_chunk st)))
    as Hj0.
  destruct (Py.truthy (SemanticChunker.current_chunk st)) eqn:Hc;
    cbn [andb] in E.
  - apply truthy_true in Hc.
    destruct (Z.gtb_spec (SemanticChunker.current_length st + len s)
                (SemanticChunker.chunk_size self)) as [Hgt|Hle].
    + unfold SemanticChunker.finalize in E.
      destruct (new_DocumentChunk _ _ _ _ _) as [c|e] eqn:Hnew;
        [|discriminate].
      cbn [bind] in E.
      set (ot := SemanticChunker._get_overlap_text self
                   (SemanticChunker.current_chunk st)) in *.
      pose proof (overlap_text_len self (SemanticChunker.current_chunk st))
        as Hot. fold ot in Hot.
      pose proof (resplit_len ot) as Hre.
      set (seed := filter (fun p => Py.truthy (Py.strip p))
                     (Py.split (lit ". ") ot)) in *.
      pose proof (len_nonneg (Py.join (lit " ") seed)) as Hseed0.
      inversion E; subst st'; clear E.
      cbn [SemanticChunker.chunks SemanticChunker.current_chunk
           SemanticChunker.current_length].
      apply new_DocumentChunk_Ok in Hnew. destruct Hnew as (-> & _).
      split.
      { apply Forall_app. split; [assumption|].
        constructor; [|constructor]. cbn [text]. exact Hb. }
      destruct seed as [|p seed'] eqn:Eseed.
      * cbn [app Py.join]. pose proof (len_nonneg ot). lia.
      * assert (Hp : 1 <= len (Py.join (lit " ") (p :: seed'))).
        { assert (Hin : In p seed) by (rewrite Eseed; now left).
          apply filter_In in Hin. destruct Hin as [_ Hin].
          apply truthy_true, strip_nonempty in Hin.
          rewrite len_join_step.
          assert (1 <= len p).
          { apply len_pos_nonempty. intros C. now rewrite C in Hin. }
          pose proof (len_nonneg (Py.join (lit " ") seed')).
          pose proof (len_nonneg (lit " ")).
          destruct (Py.truthy seed'); lia. }
        rewrite len_join_snoc by discriminate. lia.
    + cbn [bind] in E. inversion E; subst st'; clear E.
      cbn [SemanticChunker.chunks SemanticChunker.current_chunk
           SemanticChunker.current_length].
      split; [assumption|]. rewrite len_join_snoc by assumption. lia.
  - cbn [bind] in E. inversion E; subst st'; clear E.
      cbn [SemanticChunker.chunks SemanticChunker.current_chunk
           SemanticChunker.current_length].
    apply truthy_false in Hc. rewrite Hc in *. cbn [app Py.join] in *.
    split; [assumption|]. lia.
Qed.

Lemma for_each_sized xs :
  Forall (fun s => len s <= longest) xs ->
  forall st st',
    for_each (SemanticChunker.body self doc) xs st = Ok st' ->
    sized (size_bound self longest) st ->
    sized (size_bound self longest) st'.
Proof.
  induction 1 as [|x xs Hx _ IH]; intros st st' E Hst.
  - cbn in E. now inversion E; subst.
  - cbn [for_each] in E.
    destruct (SemanticChunker.body self doc st x) as [st1|e] eqn:Hb;
      [|discriminate].
    cbn [bind] in E. apply (IH st1 st' E).
    now apply (body_sized st st1 x).
Qed.

End ChunkSize.

(** X27. [chunk_size] is a soft limit with a hard edge.  When no sentence
    of the document is longer than [longest], no chunk of
    [SemanticChunker.chunk_text] is longer than the larger of
    [chunk_size + 1] and [max(0, overlap) + longest]: in particular, with
    [overlap >= 0] and sentences of at most [chunk_size - overlap]
    characters, no chunk has more than [chunk_size + 1] characters. *)
Theorem SemanticChunker_chunk_size_is_soft self t doc chunks longest :
  SemanticChunker.chunk_text self t doc = Ok chunks ->
  Forall (fun s => len s <= longest) (SemanticChunker.sentences_of t) ->
  Forall (fun c => len (text c) <= size_bound self longest) chunks
  /\ (0 <= SemanticChunker.overlap self ->
      longest
      <= SemanticChunker.chunk_size self - SemanticChunker.overlap self ->
      Forall (fun c => len (text c) <= SemanticChunker.chunk_size self + 1)
             chunks).
Proof.
  intros E Hs.
  assert (Hall : Forall (fun c => len (text c) <= size_bound self longest)
                   chunks).
  { pose proof (SemanticChunker_chunk_text_Ok_ink _ _ _ _ E) as Hink.
    unfold SemanticChunker.chunk_text in E.
    destruct (negb (Py.truthy t) || negb (Py.truthy (Py.strip t)))%bool;
      [discriminate|].
    destruct (for_each _ _ _) as [st|e] eqn:Hloop; [|discriminate].
    cbn [bind] in E.
    destruct (for_each_sized self doc longest _ Hs _ _ Hloop)
      as (Hch & Hb & _).
    { unfold sized, SemanticChunker.initial. cbn.
      split; [constructor|]. unfold size_bound.
      pose proof (len_nonneg (@nil ascii)). split; [|reflexivity].
      destruct (SemanticChunker.sentences_of t) as [|s l] eqn:Es.
      - destruct (sentences_of_nonempty t Hink) as [Hn _]. congruence.
      - inversion Hs as [|? ? Hl _]; subst. pose proof (len_nonneg s). lia. }
    destruct (Py.truthy (SemanticChunker.current_chunk st)).
    - destruct (new_DocumentChunk _ _ _ _ _) as [c|e] eqn:Hnew;
        [|discriminate].
      cbn [bind] in E. inversion E; subst chunks.
      apply new_DocumentChunk_Ok in Hnew. destruct Hnew as (-> & _).
      apply Forall_app. split; [assumption|].
      constructor; [|constructor]. cbn. exact Hb.
    - now inversion E; subst. }
  split; [assumption|]. intros Ho Hl.
  eapply Forall_impl; [|exact Hall]. cbn beta. unfold size_bound. lia.
Qed.

Lemma SemanticChunker_chunk_size_is_soft_witness :
  exists chunks,
    SemanticChunker.chunk_text scenario_chunker three_sentences (lit "doc1")
    = Ok chunks
    /\ Forall (fun c => len (text c) <= size_bound scenario_chunker 23) chunks
    /\ (0 <= SemanticChunker.overlap scenario_chunker ->
        23 <= SemanticChunker.chunk_size scenario_chunker
              - SemanticChunker.overlap scenario_chunker ->
        Forall (fun c => len (text c)
                         <= SemanticChunker.chunk_size scenario_chunker + 1)
               chunks).
Proof.
  eexists. split; [vm_compute; reflexivity|].
  apply (SemanticChunker_chunk_size_is_soft scenario_chunker three_sentences
           (lit "doc1")).
  - vm_compute. reflexivity.
  - vm_compute. repeat constructor; discriminate.
Defined.

(** ** The file type of an upload *)

Lemma split_from_nonempty sep t :
  forall skip piece, Py.split_from sep skip piece t <> [].
Proof.
  induction t as [|c t IH]; intros skip piece; cbn [Py.split_from];
    [discriminate|].
  destruct skip; [|apply IH].
  destruct (Py.starts_with sep (c :: t)); [discriminate|apply IH].
Qed.

Lemma split_char_whole d t :
  ~ In d t ->
  forall piece, Py.split_from [d] 0 piece t = [rev piece ++ t].
Proof.
  induction t as [|c t IH]; intros Hd piece; cbn [Py.split_from].
  - now rewrite app_nil_r.
  - cbn [Py.starts_with]. destruct (Ascii.eqb_spec d c) as [->|Hne].
    + elim Hd. now left.
    + cbn [andb]. rewrite IH by (intros C; apply Hd; now right).
      cbn [rev]. now rewrite <- app_assoc.
Qed.

Lemma split_char_last d suf :
  ~ In d suf ->
  forall pre piece,
    last (Py.split_from [d] 0 piece (pre ++ d :: suf)) [] = suf.
Proof.
  intros Hd. induction pre as [|c pre IH]; intros piece;
    cbn [app Py.split_from Py.starts_with].
  - rewrite Ascii.eqb_refl. cbn [andb List.length pred].
    rewrite split_char_whole by assumption. reflexivity.
  - destruct (Ascii.eqb d c); cbn [andb List.length pred]; [|apply IH].
    pose proof (split_from_nonempty [d] (pre ++ d :: suf) 0%nat []) as Hne.
    destruct (Py.split_from [d] 0 [] (pre ++ d :: suf)) as [|x l] eqn:Ex;
      [now elim Hne|].
    rewrite <- Ex. specialize (IH []). rewrite Ex in *. exact IH.
Qed.

Lemma str_eqb_eq a b : str_eqb a b = true <-> a = b.
Proof.
  unfold str_eqb. destruct (list_eq_dec ascii_dec a b); split;
    congruence.
Qed.

(** X28. The type of an upload is read from what follows the last dot of
    the file name, in any case of the letters, and from the whole name
    when it has no dot: a file named [pdf] is taken for a PDF as
    [report.PDF] is.  A name without a character after the last dot, and
    no name at all, are unsupported. *)
Theorem upload_kind_reads_after_last_dot (pre suf : str) :
  ~ In "."%char suf ->
  IngestRoute.kind_of (pre ++ lit "." ++ suf) = IngestRoute.kind_of suf
  /\ (IngestRoute.kind_of suf = PdfFile <-> lower suf = lit "pdf")
  /\ (IngestRoute.kind_of suf = TextFile
      <-> lower suf = lit "txt" \/ lower suf = lit "md")
  /\ (suf = [] -> IngestRoute.kind_of suf = Unsupported).
Proof.
  intros Hd.
  assert (Hkind : forall name,
             Py.truthy name = true ->
             last (Py.split (lit ".") name) [] = suf ->
             IngestRoute.kind_of name
             = if str_eqb (lower suf) (lit "pdf") then PdfFile
               else if (str_eqb (lower suf) (lit "txt")
                        || str_eqb (lower suf) (lit "md"))%bool
               then TextFile else Unsupported).
  { intros name Hn Hl. unfold IngestRoute.kind_of, IngestRoute.file_extension.
    rewrite Hn, Hl. unfold IngestRoute.allowed_extensions.
    cbn [existsb].
    assert (Hx : forall e : str,
               str_eqb (lit "." ++ lower suf) (lit "." ++ e)
               = str_eqb (lower suf) e).
    { intros e. unfold str_eqb.
      destruct (list_eq_dec ascii_dec (lower suf) e) as [H1|H1];
        destruct (list_eq_dec ascii_dec (lit "." ++ lower suf)
                    (lit "." ++ e)) as [H2|H2];
        try reflexivity.
      - elim H2. now rewrite H1.
      - apply app_inv_head in H2. contradiction. }
    change (lit ".txt") with (lit "." ++ lit "txt").
    change (lit ".md") with (lit "." ++ lit "md").
    change (lit ".pdf") with (lit "." ++ lit "pdf").
    rewrite !Hx.
    destruct (str_eqb (lower suf) (lit "pdf")) eqn:Hp.
    - now rewrite !orb_true_r.
    - rewrite !orb_false_r.
      destruct (str_eqb (lower suf) (lit "txt")
                || str_eqb (lower suf) (lit "md"))%bool; reflexivity. }
  assert (Hcases : IngestRoute.kind_of suf
                   = if str_eqb (lower suf) (lit "pdf") then PdfFile
                     else if (str_eqb (lower suf) (lit "txt")
                              || str_eqb (lower suf) (lit "md"))%bool
                     then TextFile else Unsupported).
  { destruct suf as [|c suf'] eqn:Es; [reflexivity|]. rewrite <- Es in *.
    apply Hkind; [now rewrite Es|].
    unfold Py.split. change (lit ".") with ["."%char].
    rewrite split_char_whole by assumption. reflexivity. }
  split.
  { rewrite Hcases. apply Hkind.
    - destruct pre; reflexivity.
    - unfold Py.split. change (lit ".") with ["."%char].
      apply (split_char_last "."%char suf Hd). }
  rewrite Hcases.
  destruct (str_eqb (lower suf) (lit "pdf")) eqn:Hp.
  { apply str_eqb_eq in Hp. rewrite Hp.
    repeat split; try discriminate; try reflexivity.
    - intros [C|C]; discriminate.
    - intros ->. discriminate. }
  destruct (str_eqb (lower suf) (lit "txt")) eqn:Ht.
  { apply str_eqb_eq in Ht. rewrite Ht. cbn [orb].
    repeat split; try discriminate; try reflexivity.
    - now left.
    - intros ->. discriminate. }
  destruct (str_eqb (lower suf) (lit "md")) eqn:Hm; cbn [orb].
  { apply str_eqb_eq in Hm. rewrite Hm.
    repeat split; try discriminate; try reflexivity.
    - now right.
    - intros ->. discriminate. }
  repeat split; try discriminate; try reflexivity.
  - intros C. apply str_eqb_eq in C. congruence.
  - intros [C|C]; apply str_eqb_eq in C; congruence.
Qed.

Lemma upload_kind_reads_after_last_dot_witness :
  IngestRoute.kind_of (lit "report" ++ lit "." ++ lit "PDF")
  = IngestRoute.kind_of (lit "PDF")
  /\ (IngestRoute.kind_of (lit "PDF") = PdfFile
      <-> lower (lit "PDF") = lit "pdf")
  /\ (IngestRoute.kind_of (lit "PDF") = TextFile
      <-> lower (lit "PDF") = lit "txt" \/ lower (lit "PDF") = lit "md")
  /\ (lit "PDF" = [] -> IngestRoute.kind_of (lit "PDF") = Unsupported).
Proof.
  apply (upload_kind_reads_after_last_dot (lit "report") (lit "PDF")).
  intros [C|[C|[C|[]]]]; discriminate.
Defined.
